(** * Exercise boundary of an American option: a shallow embedding

    Embedding of
    [tf_quant_finance/experimental/american_option_pricing/exercise_boundary.py]:
    the probability kernels [_standard_normal_cdf], [_d_plus], [_d_minus],
    the integral term evaluators [boundary_numerator] and
    [boundary_denominator], and the fixed-point solver [exercise_boundary].

    Numbers are IEEE-754 binary floating-point values in the format selected
    by the tensor dtype, modelled with the Standard Library's [spec_float]
    (signed zeros, infinities and NaN included).  Tensors of rank 1, 2 and 3
    are nested lists, elementwise operations broadcast dimensions of size 1,
    and an operation whose operands cannot be broadcast returns an error. *)

From Stdlib Require Import ZArith List Bool Lia PeanoNat.
From Stdlib Require Import SpecFloat.
Import ListNotations.

(** ** Floating-point scalars *)

Inductive DType := float32 | float64.

Definition DType_eqb (a b : DType) : bool :=
  match a, b with
  | float32, float32 | float64, float64 => true
  | _, _ => false
  end.

Definition prec (dt : DType) : Z :=
  match dt with float32 => 24 | float64 => 53 end.

Definition emax (dt : DType) : Z :=
  match dt with float32 => 128 | float64 => 1024 end.

Abbreviation F := spec_float.

Definition is_nan (x : F) : bool :=
  match x with S754_nan => true | _ => false end.

Definition is_infinite (x : F) : bool :=
  match x with S754_infinity _ => true | _ => false end.

Definition is_zero (x : F) : bool :=
  match x with S754_zero _ => true | _ => false end.

(** Neither NaN nor an infinity. *)
Definition is_finite (x : F) : bool :=
  match x with S754_zero _ | S754_finite _ _ _ => true | _ => false end.

Module Float.
Section Ops.
Variable dt : DType.

Definition add : F -> F -> F := SFadd (prec dt) (emax dt).
Definition sub : F -> F -> F := SFsub (prec dt) (emax dt).
Definition mul : F -> F -> F := SFmul (prec dt) (emax dt).
Definition div : F -> F -> F := SFdiv (prec dt) (emax dt).
Definition sqrt : F -> F := SFsqrt (prec dt) (emax dt).
Definition neg : F -> F := SFopp.
Definition abs : F -> F := SFabs.
Definition eqb : F -> F -> bool := SFeqb.
Definition ltb : F -> F -> bool := SFltb.
Definition leb : F -> F -> bool := SFleb.

(** An integer constant, rounded to the format. *)
Definition of_Z (n : Z) : F := binary_normalize (prec dt) (emax dt) n 0 false.

(** Conversion of a value of another format (a Python or NumPy double
    meeting a tensor of dtype [dt]). *)
Definition cast (x : F) : F :=
  match x with
  | S754_finite s m e => binary_round (prec dt) (emax dt) s m e
  | _ => x
  end.

(** [tf.math.divide_no_nan]: [0] when the divisor compares equal to zero,
    the quotient otherwise. *)
Definition divide_no_nan (x y : F) : F :=
  if eqb y (S754_zero false) then S754_zero false else div x y.
End Ops.

(** The decimal literal [m * 10^(-k)] as a Python float: the integers [m]
    and [10^k], exact in binary64 when [|m| < 2^53] and [k <= 22], divided
    with one rounding. *)
Definition dec64 (m : Z) (k : nat) : F :=
  div float64 (of_Z float64 m) (of_Z float64 (10 ^ Z.of_nat k)).

(** A Python float literal converted to dtype [dt]. *)
Definition lit (dt : DType) (m : Z) (k : nat) : F := cast dt (dec64 m k).
End Float.

Definition not_nan (x : F) : Prop := is_nan x = false.

(** A position in the order of the values that are not NaN. *)
Definition rank (x : F) : Z * Z * Z :=
  match x with
  | S754_infinity true => (-2, 0, 0)
  | S754_finite true m e => (-1, - e, - Zpos m)
  | S754_zero _ => (0, 0, 0)
  | S754_finite false m e => (1, e, Zpos m)
  | S754_infinity false => (2, 0, 0)
  | S754_nan => (3, 0, 0)
  end%Z.

Definition lexle (p q : Z * Z * Z) : Prop :=
  let '(a1, a2, a3) := p in
  let '(b1, b2, b3) := q in
  (a1 < b1 \/ (a1 = b1 /\ (a2 < b2 \/ (a2 = b2 /\ a3 <= b3))))%Z.

Definition zero : F := S754_zero false.
Definition half (dt : DType) : F := Float.lit dt 5 1.
Definition one (dt : DType) : F := Float.of_Z dt 1.
Definition two (dt : DType) : F := Float.of_Z dt 2.

(** ** Errors

    The Python code raises when an elementwise operation meets shapes that
    cannot be broadcast, when [tf.squeeze] or [tf.reshape] is given an
    impossible shape, and when a collaborator rejects its input. *)

Inductive error :=
| IncompatibleShapes
| CannotSqueeze
| CannotReshape
| UnsupportedNumPoints
| SplineError.

Inductive result (A : Type) :=
| Ok (a : A)
| Err (e : error).
Arguments Ok {A} a.
Arguments Err {A} e.

Definition bind {A B} (r : result A) (k : A -> result B) : result B :=
  match r with
  | Ok a => k a
  | Err e => Err e
  end.

Declare Scope result_scope.
Delimit Scope result_scope with result.
Notation "x <- r ;; k" := (bind r (fun x => k))
  (at level 61, r at next level, right associativity) : result_scope.
Open Scope result_scope.


(** ** Tensors *)

Abbreviation T1 := (list F).
Abbreviation T2 := (list (list F)).
Abbreviation T3 := (list (list (list F))).

Fixpoint mapM {A B} (f : A -> result B) (l : list A) : result (list B) :=
  match l with
  | [] => Ok []
  | x :: l' => y <- f x ;; ys <- mapM f l' ;; Ok (y :: ys)
  end.

Fixpoint zipM {A B C} (f : A -> B -> result C) (xs : list A) (ys : list B)
  : result (list C) :=
  match xs, ys with
  | [], [] => Ok []
  | x :: xs', y :: ys' => z <- f x y ;; zs <- zipM f xs' ys' ;; Ok (z :: zs)
  | _, _ => Err IncompatibleShapes
  end.

(** One dimension of a broadcasting elementwise operation: a dimension of
    size 1 is stretched to the size of the other operand, equal sizes are
    paired, anything else is an error. *)
Definition bzip {A B C} (f : A -> B -> result C) (xs : list A) (ys : list B)
  : result (list C) :=
  match xs, ys with
  | [x], _ => mapM (f x) ys
  | _, [y] => mapM (fun x => f x y) xs
  | _, _ => zipM f xs ys
  end.

Section Elementwise.
Variable f : F -> F -> F.
Definition ew1 : T1 -> T1 -> result T1 := bzip (fun x y => Ok (f x y)).
Definition ew2 : T2 -> T2 -> result T2 := bzip ew1.
Definition ew3 : T3 -> T3 -> result T3 := bzip ew2.
End Elementwise.

Definition map1 (f : F -> F) : T1 -> T1 := map f.
Definition map2 (f : F -> F) : T2 -> T2 := map (map1 f).
Definition map3 (f : F -> F) : T3 -> T3 := map (map2 f).

(** [t[:, tf.newaxis]] and [tf.expand_dims(t, axis=-1)]. *)
Definition expand_dims1 (t : T1) : T2 := map (fun x => [x]) t.
Definition expand_dims2 (t : T2) : T3 := map expand_dims1 t.

(** [tf.squeeze(t, axis=-1)] on a rank-3 tensor. *)
Definition squeeze_last (t : T3) : result T2 :=
  mapM (mapM (fun c => match c with [x] => Ok x | _ => Err CannotSqueeze end)) t.

(** A rank-1 tensor as the operand of a rank-3 operation: broadcasting
    pads its shape on the left with dimensions of size 1. *)
Definition lift13 (t : T1) : T3 := [[t]].

Definition flatten2 (t : T2) : list F := concat t.
Definition flatten3 (t : T3) : list F := concat (map flatten2 t).

(** [utils.get_shape(t)[1]] and [utils.get_shape(t)[2]] of a rank-3 tensor.
    A nested list with no row carries no inner dimensions; they read as 0. *)
Definition shape_1 (t : T3) : nat := length (hd [] t).
Definition shape_2 (t : T3) : nat := length (hd [] (hd [] t)).

Definition slice (l : list F) (start len : nat) : list F :=
  firstn len (skipn start l).

(** [tf.reshape(t, [-1, c])]: the elements in row-major order, cut into rows
    of [c]; the row count is inferred and must be exact. *)
Definition reshape_rows (l : list F) (c : nat) : result T2 :=
  if (c =? 0)%nat then Err CannotReshape
  else if (length l mod c =? 0)%nat
       then Ok (map (fun i => slice l (i * c) c) (seq 0 (length l / c)))
       else Err CannotReshape.

(** [tf.reshape(t, [-1, s1, s2])]. *)
Definition reshape_blocks (l : list F) (s1 s2 : nat) : result T3 :=
  if (s1 * s2 =? 0)%nat then Err CannotReshape
  else if (length l mod (s1 * s2) =? 0)%nat
       then Ok (map (fun i =>
                  map (fun j => slice l ((i * s1 + j) * s2) s2) (seq 0 s1))
                (seq 0 (length l / (s1 * s2))))
       else Err CannotReshape.

(** A row of [s1 * s2] elements cut into [s1] pieces of [s2]. *)
Definition split_row (s1 s2 : nat) (row : list F) : list (list F) :=
  map (fun j => slice row (j * s2) s2) (seq 0 s1).

(** Shapes of rectangular nested lists. *)
Definition has_shape1 (n : nat) (t : T1) : Prop := length t = n.
Definition has_shape2 (m n : nat) (t : T2) : Prop :=
  length t = m /\ Forall (has_shape1 n) t.
Definition has_shape3 (m n p : nat) (t : T3) : Prop :=
  length t = m /\ Forall (has_shape2 n p) t.

(** [t[i, j]] and [t[i, j, l]], with [NaN] standing for "no such entry". *)
Definition get1 (t : T1) (i : nat) : F := nth i t S754_nan.
Definition get2 (t : T2) (i j : nat) : F := get1 (nth i t []) j.
Definition get3 (t : T3) (i j l : nat) : F := get2 (nth i t []) j l.

(** Lookup under broadcasting: an operand whose dimension has size 1 is read
    at index 0 whatever the index of the result. *)
Definition blook {A} (xs : list A) (i : nat) : option A :=
  nth_error xs (if (length xs =? 1)%nat then 0%nat else i).
Definition look1 (t : T1) (l : nat) : option F := blook t l.
Definition look2 (t : T2) (j l : nat) : option F :=
  match blook t j with Some row => look1 row l | None => None end.
Definition look3 (t : T3) (i j l : nat) : option F :=
  match blook t i with Some row => look2 row j l | None => None end.

(** The last-axis vector at position [(i, j)] of a rank-3 tensor. *)
Definition lookrow (t : T3) (i j : nat) : option T1 :=
  match blook t i with Some row => blook row j | None => None end.

(** Row [i] of a batch, as a batch of one; an operand that is already a
    single row (to be broadcast) is kept. *)
Definition brow {A} (i : nat) (t : list A) : list A :=
  match blook t i with Some x => [x] | None => [] end.

(** The size of a broadcast dimension. *)
Definition bdim (a b : nat) : nat := if (a =? 1)%nat then b else a.
Definition compat (a b : nat) : Prop := a = b \/ a = 1%nat \/ b = 1%nat.

(** [b_i] is the boundary callable [b] of a batch of [m] options, restricted
    to option [i]. *)
Definition row_related (m i : nat) (b b_i : T3 -> result T3) : Prop :=
  forall n c u v, (1 <= n)%nat -> (1 <= c)%nat -> has_shape3 m n c u ->
    b u = Ok v -> b_i (brow i u) = Ok (brow i v).

(** The same number: identical values, or two zeros. *)
Definition same_number (x y : F) : Prop :=
  x = y \/ (is_zero x = true /\ is_zero y = true).

(** A boundary callable on batches of [m] options: it accepts every tensor
    [[m, n, c]] and returns one of the same shape. *)
Definition shape_preserving (m : nat) (b : T3 -> result T3) : Prop :=
  forall n c u, (1 <= n)%nat -> (1 <= c)%nat -> has_shape3 m n c u ->
    exists v, b u = Ok v /\ has_shape3 m n c v.

Definition ones_like3 (dt : DType) (t : T3) : T3 := map3 (fun _ => one dt) t.
Definition zeros_like2 (t : T2) : T2 := map2 (fun _ => zero) t.

(** ** Collaborators

    The elementary functions are TensorFlow kernels; the quadrature tables
    and the cubic spline belong to other modules of the library.  They
    enter as interfaces, together with the few facts about them that the
    solver relies on. *)

(** [tf.math.log], [tf.math.exp], [tf.math.erf], [tf.math.pow],
    [tf.math.minimum] and the combining step of [tf.math.reduce_max], at one
    dtype.  Assumed of them: [erf] keeps zeros, [exp] of a zero is [1], and
    the maximum of two values that are not NaN is one of them and not
    smaller than either.  What [minimum] and [maximum] return on a NaN
    operand differs between kernels and is left open. *)
Class MathKernels (dt : DType) := {
  tf_log : F -> F;
  tf_exp : F -> F;
  tf_erf : F -> F;
  tf_pow : F -> F -> F;
  tf_minimum : F -> F -> F;
  tf_maximum : F -> F -> F;
  erf_zero : forall s, tf_erf (S754_zero s) = S754_zero s;
  exp_zero : forall s, tf_exp (S754_zero s) = one dt;
  maximum_spec : forall a b, is_nan a = false -> is_nan b = false ->
    (tf_maximum a b = a \/ tf_maximum a b = b) /\
    SFleb a (tf_maximum a b) = true /\ SFleb b (tf_maximum a b) = true
}.

(** [gauss_constants.legendre_roots] and [gauss_constants.legendre_weights]:
    tables of binary64 values indexed by the number of nodes; an entry for
    [n] nodes holds [n] roots and [n] weights that stay finite in either
    dtype. *)
Class GaussConstants := {
  legendre_roots : nat -> option (list F);
  legendre_weights : nat -> option (list F);
  legendre_tables : forall n roots, legendre_roots n = Some roots ->
    exists weights, legendre_weights n = Some weights /\
      length roots = n /\ length weights = n /\ (1 <= n)%nat /\
      Forall (fun x => forall dt, is_finite (Float.cast dt x) = true) roots /\
      Forall (fun x => forall dt, is_finite (Float.cast dt x) = true) weights
}.

(** Modelled from the spec: the cubic-spline collaborator
    ([cubic_interpolation.build] and [cubic_interpolation.interpolate]) is
    not part of this file's source.  [build_spline knots values] returns an
    opaque parameter object, one interpolant per row; [interpolate x params]
    evaluates row [i] of the interpolants at row [i] of the query points and
    returns a tensor of the shape of [x].  Row [i] of the result depends on
    row [i] of the knots, values and query points only. *)
Class SplineLib := {
  SplineParams : Type;
  build_spline : T2 -> T2 -> result SplineParams;
  interpolate : T2 -> SplineParams -> result T2;
  build_spline_ok : forall m n knots values,
    (2 <= n)%nat -> has_shape2 m n knots -> has_shape2 m n values ->
    exists params, build_spline knots values = Ok params;
  interpolate_ok : forall m n c knots values params x,
    build_spline knots values = Ok params ->
    has_shape2 m n knots -> has_shape2 m n values -> has_shape2 m c x ->
    exists y, interpolate x params = Ok y /\ has_shape2 m c y;
  spline_row_local : forall m n c knots values params x y i,
    has_shape2 m n knots -> has_shape2 m n values -> has_shape2 m c x ->
    (i < m)%nat ->
    build_spline knots values = Ok params -> interpolate x params = Ok y ->
    exists params_i,
      build_spline (brow i knots) (brow i values) = Ok params_i /\
      interpolate (brow i x) params_i = Ok (brow i y)
}.

(** ** The program *)

Section Program.
Context (dt : DType) {K : MathKernels dt} {G : GaussConstants}.

Local Abbreviation add := (Float.add dt).
Local Abbreviation sub := (Float.sub dt).
Local Abbreviation mul := (Float.mul dt).
Local Abbreviation div := (Float.div dt).
Local Abbreviation sqrt := (Float.sqrt dt).
Local Abbreviation divide_no_nan := (Float.divide_no_nan dt).

(** [np.sqrt(2.0, dtype=np.float64)], converted to the dtype of the tensor
    it meets. *)
Definition _SQRT_2 : F :=
  Float.cast dt (Float.sqrt float64 (Float.of_Z float64 2)).

Definition _standard_normal_cdf (x : F) : F :=
  div (add (tf_erf (div x _SQRT_2)) (one dt)) (two dt).

(** [x**2] *)
Definition square (x : F) : F := tf_pow x (two dt).

(** [_d_plus] and [_d_minus] on scalars (rank-0 tensors). *)
Definition d_plus (tau z r q sigma : F) : F :=
  divide_no_nan
    (add (tf_log z) (mul (add (sub r q) (mul (half dt) (square sigma))) tau))
    (mul sigma (sqrt tau)).

Definition d_minus (tau z r q sigma : F) : F :=
  sub (d_plus tau z r q sigma) (mul sigma (sqrt tau)).

(** [_d_plus] and [_d_minus] on rank-3 tensors, as the evaluators call
    them: every arithmetic operator broadcasts. *)
Definition _d_plus (tau z r q sigma : T3) : result T3 :=
  let log_z := map3 tf_log z in
  r_q <- ew3 sub r q ;;
  drift <- ew3 add r_q (map3 (fun s => mul (half dt) (square s)) sigma) ;;
  drift_tau <- ew3 mul drift tau ;;
  num <- ew3 add log_z drift_tau ;;
  den <- ew3 mul sigma (map3 sqrt tau) ;;
  ew3 divide_no_nan num den.

Definition _d_minus (tau z r q sigma : T3) : result T3 :=
  dp <- _d_plus tau z r q sigma ;;
  vol <- ew3 mul sigma (map3 sqrt tau) ;;
  ew3 sub dp vol.

(** [tf.reduce_sum(t, axis=-1)] and [tf.math.reduce_max(t)]. *)
Definition reduce_sum_last (t : T3) : T2 :=
  map (map (fun c => fold_left add c zero)) t.

Definition reduce_max (t : T2) : F :=
  fold_left tf_maximum (flatten2 t) (S754_infinity true).

(** Modelled from the spec: the quadrature collaborator
    ([tf_quant_finance.math.integration.gauss_legendre]) is not part of
    this file's source.  It is the fixed-abscissa rule over per-element
    limits: the nodes of [-1, 1] are mapped into [lower, upper], the
    integrand is called once on all of them, and its values are weighted,
    scaled by half the interval length and summed over the node axis. *)
Definition gauss_legendre (func : T3 -> result T3) (lower upper : T2)
           (num_points : nat) : result T2 :=
  match legendre_roots num_points, legendre_weights num_points with
  | Some roots, Some weights =>
      let grid := lift13 (map1 (Float.cast dt) roots) in
      let weights := lift13 (map1 (Float.cast dt) weights) in
      let lower := expand_dims2 lower in
      let upper := expand_dims2 upper in
      len <- ew3 sub upper lower ;;
      scaled <- ew3 mul len grid ;;
      mid <- ew3 add upper lower ;;
      grid <- ew3 add (map3 (fun x => div x (two dt)) scaled)
                      (map3 (fun x => div x (two dt)) mid) ;;
      values <- func grid ;;
      len <- ew3 sub upper lower ;;
      v <- ew3 mul values len ;;
      v <- ew3 mul v weights ;;
      Ok (reduce_sum_last (map3 (fun x => div x (two dt)) v))
  | _, _ => Err UnsupportedNumPoints
  end.

Section Evaluators.
Variables (tau_grid : T2) (b : T3 -> result T3) (k r q sigma : T1).

Let k_exp : T3 := expand_dims2 (expand_dims1 k).
Let r_simple_exp : T2 := expand_dims1 r.
Let r_exp : T3 := expand_dims2 (expand_dims1 r).
Let q_simple_exp : T2 := expand_dims1 q.
Let q_exp : T3 := expand_dims2 (expand_dims1 q).
Let sigma_exp : T3 := expand_dims2 (expand_dims1 sigma).
Let tau_grid_exp : T3 := expand_dims2 tau_grid.

(** [ratio = b(tau_grid_exp) / b(u)], the first statement of the closure
    [func] of both evaluators. *)
Definition boundary_ratio (u : T3) : result T3 :=
  b_tau <- b tau_grid_exp ;;
  b_u <- b u ;;
  ew3 div b_tau b_u.

(** The closure [func] of [boundary_numerator]. *)
Definition numerator_func (u : T3) : result T3 :=
  ratio <- boundary_ratio u ;;
  tau_u <- ew3 sub tau_grid_exp u ;;
  d <- _d_minus tau_u ratio r_exp q_exp sigma_exp ;;
  let norm := map3 _standard_normal_cdf d in
  r_u <- ew3 mul r_exp u ;;
  ew3 mul (map3 tf_exp r_u) norm.

Definition boundary_numerator (integration_num_points : nat) : result T2 :=
  b_tau <- b tau_grid_exp ;;
  z <- ew3 div b_tau k_exp ;;
  d <- _d_minus tau_grid_exp z r_exp q_exp sigma_exp ;;
  term1 <- squeeze_last (map3 _standard_normal_cdf d) ;;
  integral <- gauss_legendre numerator_func (zeros_like2 tau_grid) tau_grid
                integration_num_points ;;
  term2 <- ew2 mul r_simple_exp integral ;;
  ew2 add term1 term2.

(** The closure [func] of [boundary_denominator]. *)
Definition denominator_func (u : T3) : result T3 :=
  ratio <- boundary_ratio u ;;
  tau_u <- ew3 sub tau_grid_exp u ;;
  d <- _d_plus tau_u ratio r_exp q_exp sigma_exp ;;
  let norm := map3 _standard_normal_cdf d in
  q_u <- ew3 mul q_exp u ;;
  ew3 mul (map3 tf_exp q_u) norm.

Definition boundary_denominator (integration_num_points : nat) : result T2 :=
  b_tau <- b tau_grid_exp ;;
  z <- ew3 div b_tau k_exp ;;
  d <- _d_plus tau_grid_exp z r_exp q_exp sigma_exp ;;
  term1 <- squeeze_last (map3 _standard_normal_cdf d) ;;
  integral <- gauss_legendre denominator_func (zeros_like2 tau_grid) tau_grid
                integration_num_points ;;
  term2 <- ew2 mul q_simple_exp integral ;;
  ew2 add term1 term2.
End Evaluators.

(** [tf.while_loop(cond, body, loop_vars, maximum_iterations)]. *)
Fixpoint while_loop {S : Type} (cond : S -> bool) (body : S -> result S)
         (loop_vars : S) (maximum_iterations : nat) : result S :=
  match maximum_iterations with
  | O => Ok loop_vars
  | Datatypes.S n =>
      if cond loop_vars
      then s <- body loop_vars ;; while_loop cond body s n
      else Ok loop_vars
  end.

Section Solver.
Context {S : SplineLib}.
Variables (tau_grid : T2) (k r q sigma : T1).
Variables (max_depth : nat) (tolerance : F) (integration_num_points : nat).

Definition epsilon : F :=
  if DType_eqb dt float64 then Float.lit dt 1 10 else Float.lit dt 1 6.

Let k_exp : T2 := expand_dims1 k.
Let r_exp : T2 := expand_dims1 r.
Let q_exp : T2 := expand_dims1 q.
Let tau_grid_exp : T3 := expand_dims2 tau_grid.

Definition b_0 (tau_grid_exp : T3) : result T3 :=
  let k_exp_exp := expand_dims2 k_exp in
  let r_exp_exp := expand_dims2 r_exp in
  let q_exp_exp := expand_dims2 q_exp in
  scaled <- ew3 mul (ones_like3 dt tau_grid_exp) k_exp_exp ;;
  r_over_q <- ew3 div r_exp_exp q_exp_exp ;;
  ew3 mul scaled (map3 (tf_minimum (one dt)) r_over_q).

Definition cond (vars : bool * T2) : bool := negb (fst vars).

Definition current_exercise_boundary_fn (spline_params : SplineParams)
           (tau_grid_exp : T3) : result T3 :=
  let shape_1 := shape_1 tau_grid_exp in
  let shape_2 := shape_2 tau_grid_exp in
  tau_grid_exp_reshape <-
    reshape_rows (flatten3 tau_grid_exp) (shape_1 * shape_2) ;;
  interpolation <- interpolate tau_grid_exp_reshape spline_params ;;
  reshape_blocks (flatten2 interpolation) shape_1 shape_2.

(** The relative change of each entry, before the reduction. *)
Definition relative_change (new_boundary_points current_boundary_points : T2)
  : result T2 :=
  diff <- ew2 sub new_boundary_points current_boundary_points ;;
  ew2 div (map2 Float.abs diff)
          (map2 (fun x => add (Float.abs x) epsilon) new_boundary_points).

Definition body (vars : bool * T2) : result (bool * T2) :=
  let current_boundary_points := snd vars in
  spline_params <- build_spline tau_grid current_boundary_points ;;
  let fn := current_exercise_boundary_fn spline_params in
  numerator <- boundary_numerator tau_grid fn k r q sigma
                 integration_num_points ;;
  denominator <- boundary_denominator tau_grid fn k r q sigma
                   integration_num_points ;;
  r_q <- ew2 sub r_exp q_exp ;;
  exponent <- ew2 mul (map2 Float.neg r_q) tau_grid ;;
  discounted <- ew2 mul k_exp (map2 tf_exp exponent) ;;
  scaled <- ew2 mul discounted numerator ;;
  new_boundary_points <- ew2 divide_no_nan scaled denominator ;;
  change <- relative_change new_boundary_points current_boundary_points ;;
  let relative_error := reduce_max change in
  let converged := Float.leb relative_error tolerance in
  Ok (converged, new_boundary_points).

Definition new_exercise_boundary_fn (new_spline_params : SplineParams)
           (tau_grid_exp : T3) : result T3 :=
  let shape_1 := shape_1 tau_grid_exp in
  let shape_2 := shape_2 tau_grid_exp in
  tau_grid_exp_reshape <-
    reshape_rows (flatten3 tau_grid_exp) (shape_1 * shape_2) ;;
  interpolation <- interpolate tau_grid_exp_reshape new_spline_params ;;
  reshape_blocks (flatten2 interpolation) shape_1 shape_2.

Definition exercise_boundary : result (T3 -> result T3) :=
  initial <- b_0 tau_grid_exp ;;
  initial <- squeeze_last initial ;;
  final <- while_loop cond body (false, initial) max_depth ;;
  new_spline_params <- build_spline tau_grid (snd final) ;;
  Ok (new_exercise_boundary_fn new_spline_params).
End Solver.
End Program.

(** Runs of the loop: [iterates cond body n s s'] when [n] executions of
    [body], each entered with [cond] true, lead from [s] to [s']. *)
Inductive iterates {S : Type} (cond : S -> bool) (body : S -> result S)
  : nat -> S -> S -> Prop :=
| iterates_O s : iterates cond body 0 s s
| iterates_S n s s' s'' :
    cond s = true -> body s = Ok s' -> iterates cond body n s' s'' ->
    iterates cond body (Datatypes.S n) s s''.

(** Inputs of the solver with consistent shapes: [m >= 1] options, a grid of
    [n >= 2] maturities per option, one parameter of each kind per option. *)
Definition valid_shapes (m n : nat) (tau_grid : T2) (k r q sigma : T1) : Prop :=
  (1 <= m)%nat /\ (2 <= n)%nat /\ has_shape2 m n tau_grid /\
  has_shape1 m k /\ has_shape1 m r /\ has_shape1 m q /\ has_shape1 m sigma.

(** The trial boundary that is [0] everywhere. *)
Definition zero_boundary (t : T3) : result T3 := Ok (map3 (fun _ => zero) t).

(** A value whose sign bit is clear, or NaN: never below zero. *)
Definition sign_clear (x : F) : Prop :=
  match x with
  | S754_nan => True
  | S754_zero s | S754_infinity s | S754_finite s _ _ => s = false
  end.

(** What the update formula gives where both evaluators are [0.5] and the
    discount factor is [1]. *)
Definition zero_maturity_value (dt : DType) (k_i : F) : F :=
  Float.divide_no_nan dt
    (Float.mul dt (Float.mul dt k_i (one dt)) (half dt)) (half dt).

(** An iteration whose relative change has no NaN entry. *)
Definition nan_free_step (dt : DType) (s s' : bool * T2) : Prop :=
  exists change,
    relative_change dt (snd s') (snd s) = Ok change /\
    Forall not_nan (flatten2 change).



(** ** Reference collaborators

    Executable stand-ins for the collaborators, used to run the program on
    concrete inputs: series evaluations of the elementary functions (a few
    units in the last place away from a production kernel), the natural
    cubic spline, and the Gauss-Legendre tables for 2, 3, 4 and 32 nodes. *)

Module Reference.
Section Kernels.
Variable dt : DType.

Local Abbreviation add := (Float.add dt).
Local Abbreviation sub := (Float.sub dt).
Local Abbreviation mul := (Float.mul dt).
Local Abbreviation div := (Float.div dt).
Local Abbreviation of_Z := (Float.of_Z dt).
Local Abbreviation lit := (Float.lit dt).

Definition ln2 : F := lit 6931471805599453 16.
Definition two_over_sqrt_pi : F := lit 1128379167095513 15.
Definition sqrt_half : F := lit 7071067811865476 16.

(** The integer part of a finite value (0 for the others). *)
Definition trunc (x : F) : Z :=
  match x with
  | S754_finite s m e =>
      let v := match e with
               | Zneg p => Z.shiftr (Zpos m) (Zpos p)
               | _ => Z.shiftl (Zpos m) e
               end in
      if s then (- v)%Z else v
  | _ => 0%Z
  end.

(** [1 + r/1 (1 + r/2 (... (1 + r/n)))] *)
Fixpoint exp_poly (r : F) (n : nat) (acc : F) : F :=
  match n with
  | O => acc
  | S n' => exp_poly r n' (add (one dt) (mul (div r (of_Z (Z.of_nat n))) acc))
  end.

Definition exp (x : F) : F :=
  match x with
  | S754_nan => S754_nan
  | S754_infinity false => x
  | S754_infinity true => zero
  | S754_zero _ => one dt
  | S754_finite s _ _ =>
      if SFltb (of_Z 800) x then S754_infinity false
      else if SFltb x (of_Z (-800)) then zero
      else
        let n := trunc (add (div x ln2) (if s then lit (-5) 1 else lit 5 1)) in
        let r := sub x (mul (of_Z n) ln2) in
        SFldexp (prec dt) (emax dt) (exp_poly r 18 (one dt)) n
  end.

(** [1 + s/3 + s^2/5 + ...], from the term of index [i] on. *)
Fixpoint atanh_poly (s2 : F) (n : nat) (i : Z) : F :=
  match n with
  | O => div (one dt) (of_Z (2 * i + 1))
  | S n' => add (div (one dt) (of_Z (2 * i + 1)))
                (mul s2 (atanh_poly s2 n' (i + 1)))
  end.

Definition log (x : F) : F :=
  match x with
  | S754_nan => S754_nan
  | S754_infinity false => x
  | S754_infinity true => S754_nan
  | S754_zero _ => S754_infinity true
  | S754_finite true _ _ => S754_nan
  | S754_finite false _ _ =>
      let (f, e) := SFfrexp (prec dt) (emax dt) x in
      let (f, e) := if SFltb f sqrt_half
                    then (mul f (two dt), (e - 1)%Z) else (f, e) in
      let s := div (sub f (one dt)) (add f (one dt)) in
      add (mul (of_Z e) ln2)
          (mul (mul (two dt) s) (atanh_poly (mul s s) 14 0))
  end.

(** [x + x (2x^2)/3 + x (2x^2)^2/(3*5) + ...], stopped when it no longer
    changes. *)
Fixpoint erf_sum (fuel : nat) (n : Z) (x2 term sum : F) : F :=
  match fuel with
  | O => sum
  | S fuel' =>
      let term' := div (mul term x2) (of_Z (2 * n + 3)) in
      let sum' := add sum term' in
      if SFeqb sum' sum then sum else erf_sum fuel' (n + 1) x2 term' sum'
  end.

Definition erf (x : F) : F :=
  match x with
  | S754_nan => S754_nan
  | S754_infinity s => if s then SFopp (one dt) else one dt
  | S754_zero _ => x
  | S754_finite s _ _ =>
      if SFleb (of_Z 6) (SFabs x)
      then (if s then SFopp (one dt) else one dt)
      else
        let xx := mul x x in
        mul (mul two_over_sqrt_pi (exp (SFopp xx)))
            (erf_sum 400 0 (mul (two dt) xx) x x)
  end.

Definition pow (x y : F) : F :=
  if SFeqb y (two dt) then mul x x else exp (mul y (log x)).

Definition minimum (a b : F) : F := if SFltb b a then b else a.
Definition maximum (a b : F) : F := if SFltb a b then b else a.
End Kernels.

(** The binary64 value [m * 2^e]. *)
Definition b64 (m e : Z) : F := binary_normalize 53 1024 m e false.

(** Tables for 2, 3, 4 and 32 nodes: the roots of the Legendre polynomials
    and the Gauss weights, rounded to binary64. *)
Definition roots (n : nat) : option (list F) :=
  match n with
  | 2 =>
      Some [b64 (-1300077228592327) (-51);
            b64 1300077228592327 (-51)]
  | 3 =>
      Some [b64 (-872118317739593) (-50);
            zero;
            b64 872118317739593 (-50)]
  | 4 =>
      Some [b64 (-7756426344020357) (-53);
            b64 (-1531138501201791) (-52);
            b64 1531138501201791 (-52);
            b64 7756426344020357 (-53)]
  | 32 =>
      Some [b64 (-4491277156615387) (-52);
            b64 (-2219399818063671) (-51);
            b64 (-4344902934765013) (-52);
            b64 (-4210442655219617) (-52);
            b64 (-8073343246224569) (-53);
            b64 (-7650423337413139) (-53);
            b64 (-7156073854946245) (-53);
            b64 (-3297455117126109) (-52);
            b64 (-2986085913477061) (-52);
            b64 (-1323418232654633) (-51);
            b64 (-4565748481962653) (-53);
            b64 (-7590389800696049) (-54);
            b64 (-2989206627147515) (-53);
            b64 (-8621235803785547) (-55);
            b64 (-5205150978798135) (-55);
            b64 (-6961868326093977) (-57);
            b64 6961868326093977 (-57);
            b64 5205150978798135 (-55);
            b64 8621235803785547 (-55);
            b64 2989206627147515 (-53);
            b64 7590389800696049 (-54);
            b64 4565748481962653 (-53);
            b64 1323418232654633 (-51);
            b64 2986085913477061 (-52);
            b64 3297455117126109 (-52);
            b64 7156073854946245 (-53);
            b64 7650423337413139 (-53);
            b64 8073343246224569 (-53);
            b64 4210442655219617 (-52);
            b64 4344902934765013 (-52);
            b64 2219399818063671 (-51);
            b64 4491277156615387 (-52)]
  | _ => None
  end%nat.

Definition weights (n : nat) : option (list F) :=
  match n with
  | 2 =>
      Some [b64 1 (0);
            b64 1 (0)]
  | 3 =>
      Some [b64 2501999792983609 (-52);
            b64 2001599834386887 (-51);
            b64 2501999792983609 (-52)]
  | 4 =>
      Some [b64 6266395803760235 (-54);
            b64 2937000676430437 (-52);
            b64 2937000676430437 (-52);
            b64 6266395803760235 (-54)]
  | 32 =>
      Some [b64 2022976603091735 (-58);
            b64 4690774914930377 (-58);
            b64 3659382267678717 (-57);
            b64 4939384199796185 (-57);
            b64 6173303499871381 (-57);
            b64 3674797451050493 (-56);
            b64 8457269168720257 (-57);
            b64 296436937968321 (-52);
            b64 1303265965561731 (-54);
            b64 1408615999717189 (-54);
            b64 3001628407231971 (-55);
            b64 6315998934286033 (-56);
            b64 6569770337922641 (-56);
            b64 6762201611697913 (-56);
            b64 6891496065779415 (-56);
            b64 6956446506579885 (-56);
            b64 6956446506579885 (-56);
            b64 6891496065779415 (-56);
            b64 6762201611697913 (-56);
            b64 6569770337922641 (-56);
            b64 6315998934286033 (-56);
            b64 3001628407231971 (-55);
            b64 1408615999717189 (-54);
            b64 1303265965561731 (-54);
            b64 296436937968321 (-52);
            b64 8457269168720257 (-57);
            b64 3674797451050493 (-56);
            b64 6173303499871381 (-57);
            b64 4939384199796185 (-57);
            b64 3659382267678717 (-57);
            b64 4690774914930377 (-58);
            b64 2022976603091735 (-58)]
  | _ => None
  end%nat.

Section Spline.
Variable dt : DType.

Local Abbreviation add := (Float.add dt).
Local Abbreviation sub := (Float.sub dt).
Local Abbreviation mul := (Float.mul dt).
Local Abbreviation div := (Float.div dt).
Local Abbreviation of_Z := (Float.of_Z dt).

(** Lengths and slopes of the knot intervals. *)
Fixpoint intervals (xs ys : T1) : list (F * F) :=
  match xs, ys with
  | x0 :: (x1 :: _) as xs', y0 :: (y1 :: _) as ys' =>
      let h := sub x1 x0 in
      (h, div (sub y1 y0) h) :: intervals xs' ys'
  | _, _ => []
  end.

(** Forward sweep of the tridiagonal system of the second derivatives. *)
Fixpoint forward (c_prev d_prev : F) (left : F * F) (ivs : list (F * F))
  : list (F * F) :=
  match ivs with
  | [] => []
  | (h1, s1) :: rest =>
      let (h0, s0) := left in
      let den := sub (mul (of_Z 2) (add h0 h1)) (mul h0 c_prev) in
      let c := div h1 den in
      let d := div (sub (mul (of_Z 6) (sub s1 s0)) (mul h0 d_prev)) den in
      (c, d) :: forward c d (h1, s1) rest
  end.

(** Second derivatives at the knots, zero at both ends. *)
Definition second_derivatives (xs ys : T1) : T1 :=
  match intervals xs ys with
  | [] => map (fun _ => zero) xs
  | first :: rest =>
      zero :: fold_right
                (fun cd acc => sub (snd cd) (mul (fst cd) (hd zero acc)) :: acc)
                [zero] (forward zero zero first rest)
  end.

Definition cube (x : F) : F := mul (mul x x) x.

Definition piece (x0 x1 y0 y1 m0 m1 x : F) : F :=
  let h := sub x1 x0 in
  let a := sub x1 x in
  let b := sub x x0 in
  add (add (div (mul m0 (cube a)) (mul (of_Z 6) h))
           (div (mul m1 (cube b)) (mul (of_Z 6) h)))
      (add (mul (sub (div y0 h) (div (mul m0 h) (of_Z 6))) a)
           (mul (sub (div y1 h) (div (mul m1 h) (of_Z 6))) b)).

(** The interpolant of one row; queries beyond the last knot use the last
    piece, a row with a single knot is constant. *)
Fixpoint eval_row (xs ys ms : T1) (x : F) : F :=
  match xs, ys, ms with
  | x0 :: (x1 :: rest) as xs', y0 :: (y1 :: _) as ys', m0 :: (m1 :: _) as ms' =>
      match rest with
      | [] => piece x0 x1 y0 y1 m0 m1 x
      | _ => if SFleb x x1 then piece x0 x1 y0 y1 m0 m1 x
             else eval_row xs' ys' ms' x
      end
  | _, y0 :: _, _ => y0
  | _, _, _ => S754_nan
  end.

Definition Params : Type := list (T1 * T1 * T1).

Definition build (knots values : T2) : result Params :=
  zipM (fun xs ys =>
          if (length xs =? length ys)%nat
          then Ok (xs, ys, second_derivatives xs ys)
          else Err SplineError)
       knots values.

Definition interpolate (x : T2) (params : Params) : result T2 :=
  zipM (fun row p =>
          let '(xs, ys, ms) := p in Ok (map (eval_row xs ys ms) row))
       x params.
End Spline.
End Reference.

(** ** A concrete batch

    The two options of the docstring example of [exercise_boundary], double
    precision, four quadrature nodes. *)

Module Example.
Definition tau_grid : T2 :=
  [[zero; Float.lit float64 5 1; Float.lit float64 1 0];
   [zero; Float.lit float64 1 0; Float.lit float64 2 0]].
Definition k : T1 := [Float.of_Z float64 100; Float.of_Z float64 100].
Definition r : T1 := [Float.lit float64 1 2; Float.lit float64 2 2].
Definition q : T1 := [Float.lit float64 1 2; Float.lit float64 2 2].
Definition sigma : T1 := [Float.lit float64 1 1; Float.lit float64 15 2].
Definition tolerance : F := Float.lit float64 1 8.
Definition num_points : nat := 4.

(** The values printed in the docstrings of [boundary_numerator] and
    [boundary_denominator] for this batch, the initial guess and 32 nodes. *)
Definition numerator_docstring : T2 :=
  [[Float.lit float64 5 1; Float.lit float64 48835735 8;
    Float.lit float64 4849528 7];
   [Float.lit float64 5 1; Float.lit float64 4798061 7;
    Float.lit float64 47702501 8]].
Definition denominator_docstring : T2 :=
  [[Float.lit float64 5 1; Float.lit float64 51665517 8;
    Float.lit float64 52509737 8];
   [Float.lit float64 5 1; Float.lit float64 54039524 8;
    Float.lit float64 56378576 8]].

(** Entrywise agreement to [1e-8]. *)
Definition near (a b : T2) : bool :=
  forallb (fun p =>
    forallb (fun xy =>
      Float.ltb (Float.abs (Float.sub float64 (fst xy) (snd xy)))
                (Float.lit float64 1 8))
      (combine (fst p) (snd p)))
    (combine a b).

(** The initial guess [K * min(1, r/q)] on the grid. *)
Definition initial : T2 :=
  [[Float.of_Z float64 100; Float.of_Z float64 100; Float.of_Z float64 100];
   [Float.of_Z float64 100; Float.of_Z float64 100; Float.of_Z float64 100]].

End Example.

(** * Properties *)

(** ** The error monad and list traversals *)

Lemma bind_ok {A B} (r : result A) (k : A -> result B) (y : B) :
  bind r k = Ok y -> exists x, r = Ok x /\ k x = Ok y.
Proof. destruct r as [a|e]; simpl; [eauto | discriminate]. Qed.

Lemma bind_ret {A B} (a : A) (k : A -> result B) : bind (Ok a) k = k a.
Proof. reflexivity. Qed.

Lemma bind_assoc {A B C} (r : result A) (f : A -> result B) (g : B -> result C) :
  bind (bind r f) g = bind r (fun x => bind (f x) g).
Proof. destruct r; reflexivity. Qed.

(** Splits the first bind of a successful computation. *)
Ltac bind_inv H :=
  let x := fresh "x" in
  let Hx := fresh "E" in
  apply bind_ok in H; destruct H as (x & Hx & H).

Lemma mapM_length {A B} (f : A -> result B) l l' :
  mapM f l = Ok l' -> length l' = length l.
Proof.
  revert l'; induction l as [|a l IH]; simpl; intros l' H.
  - now inversion H.
  - bind_inv H. bind_inv H. inversion H; subst. simpl. f_equal. now apply IH.
Qed.

Lemma mapM_nth {A B} (f : A -> result B) l l' i z :
  mapM f l = Ok l' -> nth_error l' i = Some z ->
  exists x, nth_error l i = Some x /\ f x = Ok z.
Proof.
  revert l' i; induction l as [|a l IH]; simpl; intros l' i H Hi.
  - inversion H; subst. now destruct i.
  - bind_inv H. bind_inv H. inversion H; subst.
    destruct i as [|i]; simpl in *.
    + inversion Hi; subst. eauto.
    + eapply IH; eauto.
Qed.

Lemma mapM_total {A B} (f : A -> result B) (P : A -> Prop) (R : B -> Prop) l :
  (forall x, P x -> exists y, f x = Ok y /\ R y) ->
  Forall P l -> exists l', mapM f l = Ok l' /\ Forall R l'.
Proof.
  intros Hf Hl. induction Hl as [|a l Ha Hl (l' & E & Hl')]; simpl.
  - eauto.
  - destruct (Hf a Ha) as (y & Ey & Hy). rewrite Ey, E. simpl. eauto.
Qed.

Lemma zipM_length {A B C} (f : A -> B -> result C) xs ys zs :
  zipM f xs ys = Ok zs -> length zs = length xs /\ length zs = length ys.
Proof.
  revert ys zs; induction xs as [|x xs IH]; intros [|y ys] zs H; simpl in H;
    try discriminate.
  - inversion H; auto.
  - bind_inv H. bind_inv H. inversion H; subst. simpl.
    destruct (IH _ _ E0). split; congruence.
Qed.

Lemma zipM_nth {A B C} (f : A -> B -> result C) xs ys zs i z :
  zipM f xs ys = Ok zs -> nth_error zs i = Some z ->
  exists x y, nth_error xs i = Some x /\ nth_error ys i = Some y /\ f x y = Ok z.
Proof.
  revert ys zs i; induction xs as [|x xs IH]; intros [|y ys] zs i H Hi;
    simpl in H; try discriminate.
  - inversion H; subst. now destruct i.
  - bind_inv H. bind_inv H. inversion H; subst.
    destruct i as [|i]; simpl in *.
    + inversion Hi; subst. eauto.
    + eapply IH; eauto.
Qed.

Lemma zipM_total {A B C} (f : A -> B -> result C)
      (P : A -> Prop) (Q : B -> Prop) (R : C -> Prop) xs ys :
  (forall x y, P x -> Q y -> exists z, f x y = Ok z /\ R z) ->
  Forall P xs -> Forall Q ys -> length xs = length ys ->
  exists zs, zipM f xs ys = Ok zs /\ Forall R zs.
Proof.
  intros Hf Hx. revert ys.
  induction Hx as [|x xs Px Hx IH]; intros [|y ys] Hy Hlen; simpl in *;
    try discriminate.
  - eauto.
  - inversion Hy; subst.
    destruct (Hf x y Px H1) as (z & Ez & Hz).
    destruct (IH ys H2 ltac:(lia)) as (zs & E & Hzs).
    rewrite Ez, E. simpl. eauto.
Qed.

(** ** Broadcasting *)

Lemma bdim_same a : bdim a a = a.
Proof. unfold bdim. destruct (Nat.eqb_spec a 1); congruence. Qed.

Lemma bdim_1_l a : bdim 1 a = a.
Proof. reflexivity. Qed.

Lemma bdim_1_r a : bdim a 1 = a.
Proof. unfold bdim. destruct (Nat.eqb_spec a 1); congruence. Qed.

Lemma blook_nth {A} (xs : list A) i :
  (i < length xs)%nat -> blook xs i = nth_error xs i.
Proof.
  unfold blook. destruct (Nat.eqb_spec (length xs) 1); intros; [|reflexivity].
  replace i with 0%nat by lia. reflexivity.
Qed.

Lemma blook_single {A} (x : A) i : blook [x] i = Some x.
Proof. reflexivity. Qed.

Lemma blook_map {A B} (g : A -> B) xs i :
  blook (map g xs) i = option_map g (blook xs i).
Proof. unfold blook. rewrite length_map. apply nth_error_map. Qed.

Lemma blook_In {A} (xs : list A) i x : blook xs i = Some x -> In x xs.
Proof. unfold blook. apply nth_error_In. Qed.

Lemma In_blook {A} (xs : list A) x : In x xs -> exists i, blook xs i = Some x.
Proof.
  intros H. apply In_nth_error in H. destruct H as (i & Hi).
  exists i. rewrite blook_nth; [exact Hi|].
  apply nth_error_Some. congruence.
Qed.

Lemma bzip_length {A B C} (f : A -> B -> result C) xs ys zs :
  bzip f xs ys = Ok zs ->
  length zs = bdim (length xs) (length ys) /\ compat (length xs) (length ys).
Proof.
  unfold bzip, compat. intros H.
  destruct xs as [|x [|x' xs]].
  - destruct ys as [|y [|y' ys]]; simpl in H; try discriminate.
    + inversion H; auto.
    + inversion H; auto.
  - apply mapM_length in H. simpl. auto.
  - destruct ys as [|y [|y' ys]]; try discriminate.
    + apply mapM_length in H. rewrite bdim_1_r. auto.
    + apply zipM_length in H. destruct H as [H1 H2].
      unfold bdim. simpl (length (_ :: _ :: _)) in *. simpl. split; [auto | left; congruence].
Qed.

Lemma bzip_blook {A B C} (f : A -> B -> result C) xs ys zs i z :
  bzip f xs ys = Ok zs -> blook zs i = Some z ->
  exists x y, blook xs i = Some x /\ blook ys i = Some y /\ f x y = Ok z.
Proof.
  unfold bzip. intros H Hz.
  destruct xs as [|x [|x' xs]].
  - destruct ys as [|y [|y' ys]]; simpl in H; try discriminate;
      inversion H; subst; unfold blook in Hz; simpl in Hz;
      destruct i; discriminate.
  - unfold blook in Hz. rewrite (mapM_length _ _ _ H) in Hz.
    destruct (mapM_nth _ _ _ _ _ H Hz) as (y & Hy & E).
    exists x, y. auto.
  - destruct ys as [|y [|y' ys]]; try discriminate.
    + unfold blook in Hz. rewrite (mapM_length _ _ _ H) in Hz.
      destruct (mapM_nth _ _ _ _ _ H Hz) as (a & Ha & E).
      exists a, y. auto.
    + destruct (zipM_length _ _ _ _ H) as [L1 L2].
      unfold blook in *. rewrite L1 in Hz.
      simpl (length (_ :: _ :: _)) in *.
      destruct (zipM_nth _ _ _ _ _ _ H Hz) as (a & b & Ha & Hb & E).
      exists a, b. rewrite <- L2, L1. simpl. auto.
Qed.

Lemma bzip_total {A B C} (f : A -> B -> result C)
      (P : A -> Prop) (Q : B -> Prop) (R : C -> Prop) xs ys :
  (forall x y, P x -> Q y -> exists z, f x y = Ok z /\ R z) ->
  Forall P xs -> Forall Q ys -> compat (length xs) (length ys) ->
  exists zs, bzip f xs ys = Ok zs /\ Forall R zs /\
             length zs = bdim (length xs) (length ys).
Proof.
  intros Hf Hx Hy Hc.
  assert (exists zs, bzip f xs ys = Ok zs /\ Forall R zs) as (zs & E & Hzs).
  { unfold bzip. destruct xs as [|x [|x' xs]].
    - destruct ys as [|y [|y' ys]]; simpl; eauto.
      destruct Hc as [Hc|[Hc|Hc]]; simpl in Hc; discriminate.
    - inversion Hx; subst. eapply mapM_total; eauto.
    - destruct ys as [|y [|y' ys]].
      + destruct Hc as [Hc|[Hc|Hc]]; simpl in Hc; discriminate.
      + inversion Hy; subst.
        eapply mapM_total with (f := fun a => f a y) (P := P); eauto.
      + eapply zipM_total; eauto.
        destruct Hc as [Hc|[Hc|Hc]]; simpl in Hc; try discriminate; auto. }
  exists zs. repeat split; auto. now apply bzip_length in E.
Qed.

(** ** Shapes of tensor operations *)

Lemma ew1_shape f a b p1 p2 :
  has_shape1 p1 a -> has_shape1 p2 b -> compat p1 p2 ->
  exists c, ew1 f a b = Ok c /\ has_shape1 (bdim p1 p2) c.
Proof.
  unfold has_shape1. intros Ha Hb Hc. subst.
  destruct (bzip_total (fun x y => Ok (f x y)) (fun _ => True) (fun _ => True)
              (fun _ => True) a b) as (c & E & _ & L); auto.
  - eauto.
  - apply Forall_forall; auto.
  - apply Forall_forall; auto.
  - exists c. auto.
Qed.

Lemma ew2_shape f a b n1 p1 n2 p2 :
  has_shape2 n1 p1 a -> has_shape2 n2 p2 b -> compat n1 n2 -> compat p1 p2 ->
  exists c, ew2 f a b = Ok c /\ has_shape2 (bdim n1 n2) (bdim p1 p2) c.
Proof.
  intros [La Ha] [Lb Hb] Hn Hp. subst.
  destruct (bzip_total (ew1 f) (has_shape1 p1) (has_shape1 p2)
              (has_shape1 (bdim p1 p2)) a b) as (c & E & Hc & L); auto.
  - intros x y Hx Hy. now apply ew1_shape.
  - exists c. split; [exact E | split; auto].
Qed.

Lemma ew3_shape f a b m1 n1 p1 m2 n2 p2 :
  has_shape3 m1 n1 p1 a -> has_shape3 m2 n2 p2 b ->
  compat m1 m2 -> compat n1 n2 -> compat p1 p2 ->
  exists c, ew3 f a b = Ok c /\
            has_shape3 (bdim m1 m2) (bdim n1 n2) (bdim p1 p2) c.
Proof.
  intros [La Ha] [Lb Hb] Hm Hn Hp. subst.
  destruct (bzip_total (ew2 f) (has_shape2 n1 p1) (has_shape2 n2 p2)
              (has_shape2 (bdim n1 n2) (bdim p1 p2)) a b) as (c & E & Hc & L); auto.
  - intros x y Hx Hy. now apply ew2_shape.
  - exists c. split; [exact E | split; auto].
Qed.

Lemma map1_shape g t n : has_shape1 n t -> has_shape1 n (map1 g t).
Proof. unfold has_shape1, map1. now rewrite length_map. Qed.

Lemma map2_shape g t m n : has_shape2 m n t -> has_shape2 m n (map2 g t).
Proof.
  unfold map2. intros [L H]. split; [now rewrite length_map|].
  apply Forall_map. eapply Forall_impl; [|exact H]. intros; now apply map1_shape.
Qed.

Lemma map3_shape g t m n p : has_shape3 m n p t -> has_shape3 m n p (map3 g t).
Proof.
  unfold map3. intros [L H]. split; [now rewrite length_map|].
  apply Forall_map. eapply Forall_impl; [|exact H]. intros; now apply map2_shape.
Qed.

Lemma expand_dims1_shape t m : has_shape1 m t -> has_shape2 m 1 (expand_dims1 t).
Proof.
  unfold expand_dims1. intros L. split; [now rewrite length_map|].
  apply Forall_map, Forall_forall. reflexivity.
Qed.

Lemma expand_dims2_shape t m n :
  has_shape2 m n t -> has_shape3 m n 1 (expand_dims2 t).
Proof.
  unfold expand_dims2. intros [L H]. split; [now rewrite length_map|].
  apply Forall_map. eapply Forall_impl; [|exact H].
  intros; now apply expand_dims1_shape.
Qed.

Lemma lift13_shape t p : has_shape1 p t -> has_shape3 1 1 p (lift13 t).
Proof.
  intros H. split; [reflexivity|]. constructor; [|constructor].
  split; [reflexivity|]. constructor; [exact H | constructor].
Qed.

Lemma ones_like3_shape dt t m n p :
  has_shape3 m n p t -> has_shape3 m n p (ones_like3 dt t).
Proof. apply map3_shape. Qed.

Lemma zeros_like2_shape t m n : has_shape2 m n t -> has_shape2 m n (zeros_like2 t).
Proof. apply map2_shape. Qed.

Lemma squeeze_last_shape t m n :
  has_shape3 m n 1 t -> exists s, squeeze_last t = Ok s /\ has_shape2 m n s.
Proof.
  intros [L H]. unfold squeeze_last.
  destruct (mapM_total
              (mapM (fun c : T1 => match c with [x] => Ok x | _ => Err CannotSqueeze end))
              (has_shape2 n 1) (has_shape1 n) t) as (s & E & Hs); auto.
  - intros row [Lr Hr].
    destruct (mapM_total
                (fun c : T1 => match c with [x] => Ok x | _ => Err CannotSqueeze end)
                (has_shape1 1) (fun _ => True) row) as (r & Er & _); auto.
    + intros [|x [|]] Hx; try discriminate. eauto.
    + exists r. split; [exact Er|]. unfold has_shape1.
      rewrite (mapM_length _ _ _ Er). exact Lr.
  - exists s. split; [exact E|]. split; [|exact Hs].
    rewrite (mapM_length _ _ _ E). exact L.
Qed.

Create HintDb shapes.
#[export] Hint Resolve map1_shape map2_shape map3_shape expand_dims1_shape
  expand_dims2_shape lift13_shape ones_like3_shape zeros_like2_shape : shapes.

(** ** Entries of tensor operations *)

Lemma ew1_look f a b c l v :
  ew1 f a b = Ok c -> look1 c l = Some v ->
  exists x y, look1 a l = Some x /\ look1 b l = Some y /\ v = f x y.
Proof.
  unfold ew1, look1. intros E H.
  destruct (bzip_blook _ _ _ _ _ _ E H) as (x & y & Hx & Hy & Ef).
  inversion Ef. eauto.
Qed.

Lemma ew2_look f a b c j l v :
  ew2 f a b = Ok c -> look2 c j l = Some v ->
  exists x y, look2 a j l = Some x /\ look2 b j l = Some y /\ v = f x y.
Proof.
  unfold ew2, look2. intros E H.
  destruct (blook c j) as [row|] eqn:Hr; [|discriminate].
  destruct (bzip_blook _ _ _ _ _ _ E Hr) as (x & y & Hx & Hy & Ef).
  rewrite Hx, Hy. eapply ew1_look; eauto.
Qed.

Lemma ew3_look f a b c i j l v :
  ew3 f a b = Ok c -> look3 c i j l = Some v ->
  exists x y, look3 a i j l = Some x /\ look3 b i j l = Some y /\ v = f x y.
Proof.
  unfold ew3, look3. intros E H.
  destruct (blook c i) as [row|] eqn:Hr; [|discriminate].
  destruct (bzip_blook _ _ _ _ _ _ E Hr) as (x & y & Hx & Hy & Ef).
  rewrite Hx, Hy. eapply ew2_look; eauto.
Qed.

Lemma map1_look g t l : look1 (map1 g t) l = option_map g (look1 t l).
Proof. apply blook_map. Qed.

Lemma map2_look g t j l : look2 (map2 g t) j l = option_map g (look2 t j l).
Proof.
  unfold look2, map2. rewrite blook_map.
  destruct (blook t j); simpl; [apply map1_look | reflexivity].
Qed.

Lemma map3_look g t i j l : look3 (map3 g t) i j l = option_map g (look3 t i j l).
Proof.
  unfold look3, map3. rewrite blook_map.
  destruct (blook t i); simpl; [apply map2_look | reflexivity].
Qed.

Lemma expand_dims1_look t j l : look2 (expand_dims1 t) j l = look1 t j.
Proof.
  unfold look2, look1, expand_dims1. rewrite blook_map.
  destruct (blook t j); reflexivity.
Qed.

Lemma expand_dims2_look t i j l : look3 (expand_dims2 t) i j l = look2 t i j.
Proof.
  unfold look3, expand_dims2. rewrite blook_map. unfold look2 at 2.
  destruct (blook t i); simpl; [apply expand_dims1_look | reflexivity].
Qed.

Lemma lift13_look t i j l : look3 (lift13 t) i j l = look1 t l.
Proof. reflexivity. Qed.

Lemma squeeze_last_look t s i j l v :
  squeeze_last t = Ok s -> look2 s i j = Some v -> look3 t i j l = Some v.
Proof.
  unfold squeeze_last, look2, look3, look1, blook. intros E H.
  rewrite (mapM_length _ _ _ E) in H.
  destruct (nth_error s _) as [row|] eqn:Hr; [|discriminate].
  destruct (mapM_nth _ _ _ _ _ E Hr) as (trow & Ht & Er). rewrite Ht.
  rewrite (mapM_length _ _ _ Er) in H.
  destruct (mapM_nth _ _ _ _ _ Er H) as (c & Hc & Ec).
  unfold look2, look1, blook. rewrite Hc.
  destruct c as [|x [|]]; try discriminate. inversion Ec; subst. reflexivity.
Qed.

(** ** Rows of a batch *)

Lemma brow_map {A B} (g : A -> B) i (t : list A) :
  brow i (map g t) = map g (brow i t).
Proof. unfold brow. rewrite blook_map. destruct (blook t i); reflexivity. Qed.

Lemma brow_single {A} i (x : A) : brow i [x] = [x].
Proof. reflexivity. Qed.

Lemma brow_length {A} i (t : list A) :
  (i < length t)%nat -> length (brow i t) = 1%nat.
Proof.
  intros H. unfold brow. rewrite blook_nth by exact H.
  destruct (nth_error t i) eqn:E; [reflexivity|].
  apply nth_error_None in E. lia.
Qed.

Lemma brow_Forall {A} (P : A -> Prop) i (t : list A) :
  Forall P t -> Forall P (brow i t).
Proof.
  intros H. unfold brow. destruct (blook t i) eqn:E; [|constructor].
  constructor; [|constructor]. rewrite Forall_forall in H.
  apply H. eapply blook_In; eauto.
Qed.

Lemma brow_shape1 m i (t : T1) :
  has_shape1 m t -> (i < m)%nat -> has_shape1 1 (brow i t).
Proof. unfold has_shape1. intros <- H. now apply brow_length. Qed.

Lemma brow_shape2 m n i (t : T2) :
  has_shape2 m n t -> (i < m)%nat -> has_shape2 1 n (brow i t).
Proof.
  intros [<- H] Hi. split; [now apply brow_length | now apply brow_Forall].
Qed.

Lemma brow_shape3 m n c i (t : T3) :
  has_shape3 m n c t -> (i < m)%nat -> has_shape3 1 n c (brow i t).
Proof.
  intros [<- H] Hi. split; [now apply brow_length | now apply brow_Forall].
Qed.

Lemma mapM_brow {A B} (f : A -> result B) l l' i :
  mapM f l = Ok l' -> mapM f (brow i l) = Ok (brow i l').
Proof.
  intros E. unfold brow, blook. rewrite (mapM_length _ _ _ E).
  destruct (nth_error l' _) as [z|] eqn:Hz.
  - destruct (mapM_nth _ _ _ _ _ E Hz) as (x & Hx & Ex).
    rewrite Hx. simpl. now rewrite Ex.
  - apply nth_error_None in Hz. rewrite (mapM_length _ _ _ E) in Hz.
    apply nth_error_None in Hz. now rewrite Hz.
Qed.

Lemma bzip_brow {A B C} (f : A -> B -> result C) xs ys zs i :
  bzip f xs ys = Ok zs -> bzip f (brow i xs) (brow i ys) = Ok (brow i zs).
Proof.
  intros E. unfold brow at 3.
  destruct (blook zs i) as [z|] eqn:Hz.
  - destruct (bzip_blook _ _ _ _ _ _ E Hz) as (x & y & Hx & Hy & Ef).
    unfold brow. rewrite Hx, Hy. simpl. now rewrite Ef.
  - pose proof (bzip_length _ _ _ _ E) as [L Hc].
    unfold blook in Hz. apply nth_error_None in Hz.
    assert (Hi : ((length zs =? 1) = false /\ length zs <= i)%nat).
    { destruct (Nat.eqb_spec (length zs) 1); [lia | split; [reflexivity | lia]]. }
    destruct Hi as (Hne & Hi). apply Nat.eqb_neq in Hne.
    unfold brow, blook, bdim in *.
    destruct (Nat.eqb_spec (length xs) 1) as [Lx|Lx];
      destruct (Nat.eqb_spec (length ys) 1) as [Ly|Ly].
    + lia.
    + destruct xs as [|x [|]]; try discriminate. simpl.
      replace (nth_error ys i) with (@None B)
        by (symmetry; apply nth_error_None; lia).
      reflexivity.
    + destruct ys as [|y [|]]; try discriminate. simpl.
      replace (nth_error xs i) with (@None A)
        by (symmetry; apply nth_error_None; lia).
      reflexivity.
    + assert (length xs = length ys) by (destruct Hc as [?|[?|?]]; lia).
      replace (nth_error xs i) with (@None A)
        by (symmetry; apply nth_error_None; lia).
      replace (nth_error ys i) with (@None B)
        by (symmetry; apply nth_error_None; lia).
      reflexivity.
Qed.

Lemma zipM_brow {A B C} (f : A -> B -> result C) xs ys zs i :
  zipM f xs ys = Ok zs -> zipM f (brow i xs) (brow i ys) = Ok (brow i zs).
Proof.
  intros E. destruct (zipM_length _ _ _ _ E) as [Lx Ly].
  unfold brow, blook. rewrite <- Lx, <- Ly.
  destruct (nth_error zs _) as [z|] eqn:Hz.
  - destruct (zipM_nth _ _ _ _ _ _ E Hz) as (x & y & Hx & Hy & Ef).
    rewrite Hx, Hy. simpl. now rewrite Ef.
  - apply nth_error_None in Hz.
    replace (nth_error xs _) with (@None A)
      by (symmetry; apply nth_error_None; lia).
    replace (nth_error ys _) with (@None B)
      by (symmetry; apply nth_error_None; lia).
    reflexivity.
Qed.

Lemma ew2_brow f a b c i :
  ew2 f a b = Ok c -> ew2 f (brow i a) (brow i b) = Ok (brow i c).
Proof. apply bzip_brow. Qed.

Lemma ew3_brow f a b c i :
  ew3 f a b = Ok c -> ew3 f (brow i a) (brow i b) = Ok (brow i c).
Proof. apply bzip_brow. Qed.

Lemma ew3_brow_lift f a g c i :
  ew3 f a (lift13 g) = Ok c -> ew3 f (brow i a) (lift13 g) = Ok (brow i c).
Proof. intros E. apply (bzip_brow _ _ _ _ i) in E. exact E. Qed.

Lemma brow_map2 g i (t : T2) : brow i (map2 g t) = map2 g (brow i t).
Proof. apply brow_map. Qed.

Lemma brow_map3 g i (t : T3) : brow i (map3 g t) = map3 g (brow i t).
Proof. apply brow_map. Qed.

Lemma brow_expand_dims1 i (t : T1) :
  brow i (expand_dims1 t) = expand_dims1 (brow i t).
Proof. apply brow_map. Qed.

Lemma brow_expand_dims2 i (t : T2) :
  brow i (expand_dims2 t) = expand_dims2 (brow i t).
Proof. apply brow_map. Qed.

Lemma brow_zeros_like2 i (t : T2) :
  brow i (zeros_like2 t) = zeros_like2 (brow i t).
Proof. apply brow_map. Qed.

Lemma brow_ones_like3 dt i (t : T3) :
  brow i (ones_like3 dt t) = ones_like3 dt (brow i t).
Proof. apply brow_map. Qed.

Lemma squeeze_last_brow t s i :
  squeeze_last t = Ok s -> squeeze_last (brow i t) = Ok (brow i s).
Proof. apply mapM_brow. Qed.

(** ** Floating-point facts *)

Lemma eqb_zero x : Float.eqb x zero = is_zero x.
Proof. destruct x as [[]|[]| |[] m e]; reflexivity. Qed.

Lemma divide_no_nan_zero dt x y :
  is_zero y = true -> Float.divide_no_nan dt x y = zero.
Proof.
  intros H. unfold Float.divide_no_nan. fold zero. now rewrite eqb_zero, H.
Qed.

Lemma divide_no_nan_nonzero dt x y :
  is_zero y = false -> Float.divide_no_nan dt x y = Float.div dt x y.
Proof.
  intros H. unfold Float.divide_no_nan. fold zero. now rewrite eqb_zero, H.
Qed.

Lemma sqrt_zero dt x : is_zero x = true -> is_zero (Float.sqrt dt x) = true.
Proof. destruct x; try discriminate. reflexivity. Qed.

Lemma mul_finite_zero dt x y :
  is_finite x = true -> is_zero y = true -> is_zero (Float.mul dt x y) = true.
Proof. destruct x, y; try discriminate; reflexivity. Qed.

Lemma mul_zero_finite dt x y :
  is_zero x = true -> is_finite y = true -> is_zero (Float.mul dt x y) = true.
Proof. destruct x, y; try discriminate; reflexivity. Qed.

Lemma sub_zero_zero dt x y :
  is_zero x = true -> is_zero y = true -> is_zero (Float.sub dt x y) = true.
Proof. destruct x as [[]| | |], y as [[]| | |]; try discriminate; reflexivity. Qed.

Lemma add_zero_zero dt x y :
  is_zero x = true -> is_zero y = true -> is_zero (Float.add dt x y) = true.
Proof. destruct x as [[]| | |], y as [[]| | |]; try discriminate; reflexivity. Qed.

Lemma sub_pos_zero dt y : is_zero y = true -> Float.sub dt zero y = zero.
Proof. destruct y as [[]| | |]; try discriminate; reflexivity. Qed.

Lemma div_zero_finite dt x y :
  is_zero x = true -> is_zero y = false -> is_nan y = false ->
  is_zero (Float.div dt x y) = true.
Proof. destruct x, y; try discriminate; reflexivity. Qed.

Lemma is_zero_finite x : is_zero x = true -> is_finite x = true.
Proof. destruct x; try discriminate; reflexivity. Qed.

Lemma add_zero_one dt x : is_zero x = true -> Float.add dt x (one dt) = one dt.
Proof. destruct x, dt; try discriminate; reflexivity. Qed.

Lemma one_over_two dt : Float.div dt (one dt) (two dt) = half dt.
Proof. destruct dt; vm_compute; reflexivity. Qed.

Section KernelFacts.
Context (dt : DType) {K : MathKernels dt}.

Lemma sqrt_2_regular : is_zero (_SQRT_2 dt) = false /\ is_nan (_SQRT_2 dt) = false.
Proof. destruct dt; vm_compute; auto. Qed.

(** [Phi(0) = 0.5], for a zero of either sign. *)
Lemma standard_normal_cdf_zero x :
  is_zero x = true -> _standard_normal_cdf dt x = half dt.
Proof.
  intros H. unfold _standard_normal_cdf.
  destruct sqrt_2_regular as [Hz Hn].
  pose proof (div_zero_finite dt x (_SQRT_2 dt) H Hz Hn) as Hd.
  destruct (Float.div dt x (_SQRT_2 dt)) as [s| | |]; try discriminate.
  rewrite erf_zero, add_zero_one by reflexivity. apply one_over_two.
Qed.

Lemma d_plus_zero_denominator tau z r q sigma :
  is_zero (Float.mul dt sigma (Float.sqrt dt tau)) = true ->
  d_plus dt tau z r q sigma = zero.
Proof. intros H. unfold d_plus. now apply divide_no_nan_zero. Qed.

Lemma d_minus_zero_denominator tau z r q sigma :
  is_zero (Float.mul dt sigma (Float.sqrt dt tau)) = true ->
  d_minus dt tau z r q sigma = zero.
Proof.
  intros H. unfold d_minus. rewrite d_plus_zero_denominator by exact H.
  now apply sub_pos_zero.
Qed.

Lemma vol_zero_tau tau sigma :
  is_zero tau = true -> is_finite sigma = true ->
  is_zero (Float.mul dt sigma (Float.sqrt dt tau)) = true.
Proof. intros Ht Hs. apply mul_finite_zero; [exact Hs | now apply sqrt_zero]. Qed.
End KernelFacts.

(** ** Tracing an entry of a result back to the entries of the operands *)

Lemma map1_look_inv g t l v :
  look1 (map1 g t) l = Some v -> exists x, look1 t l = Some x /\ v = g x.
Proof.
  rewrite map1_look. destruct (look1 t l); simpl; intros H; inversion H; eauto.
Qed.

Lemma map2_look_inv g t j l v :
  look2 (map2 g t) j l = Some v -> exists x, look2 t j l = Some x /\ v = g x.
Proof.
  rewrite map2_look. destruct (look2 t j l); simpl; intros H; inversion H; eauto.
Qed.

Lemma map3_look_inv g t i j l v :
  look3 (map3 g t) i j l = Some v -> exists x, look3 t i j l = Some x /\ v = g x.
Proof.
  rewrite map3_look. destruct (look3 t i j l); simpl; intros H; inversion H; eauto.
Qed.

Ltac look_step :=
  match goal with
  | E : ew3 ?f ?a ?b = Ok ?c, H : look3 ?c ?i ?j ?l = Some ?v |- _ =>
      let x := fresh "x" in let y := fresh "y" in
      let Hx := fresh "Hx" in let Hy := fresh "Hy" in let Hv := fresh "Hv" in
      destruct (ew3_look _ _ _ _ _ _ _ _ E H) as (x & y & Hx & Hy & Hv);
      clear H; subst v
  | E : ew2 ?f ?a ?b = Ok ?c, H : look2 ?c ?i ?j = Some ?v |- _ =>
      let x := fresh "x" in let y := fresh "y" in
      let Hx := fresh "Hx" in let Hy := fresh "Hy" in let Hv := fresh "Hv" in
      destruct (ew2_look _ _ _ _ _ _ _ E H) as (x & y & Hx & Hy & Hv);
      clear H; subst v
  | E : squeeze_last ?t = Ok ?s, H : look2 ?s ?i ?j = Some ?v |- _ =>
      apply (squeeze_last_look t s i j 0 v E) in H
  | H : look3 (map3 ?g ?t) ?i ?j ?l = Some ?v |- _ =>
      let x := fresh "x" in let Hx := fresh "Hx" in let Hv := fresh "Hv" in
      destruct (map3_look_inv _ _ _ _ _ _ H) as (x & Hx & Hv); clear H; subst v
  | H : look2 (map2 ?g ?t) ?i ?j = Some ?v |- _ =>
      let x := fresh "x" in let Hx := fresh "Hx" in let Hv := fresh "Hv" in
      destruct (map2_look_inv _ _ _ _ _ H) as (x & Hx & Hv); clear H; subst v
  | H : look1 (map1 ?g ?t) ?i = Some ?v |- _ =>
      let x := fresh "x" in let Hx := fresh "Hx" in let Hv := fresh "Hv" in
      destruct (map1_look_inv _ _ _ _ H) as (x & Hx & Hv); clear H; subst v
  | H : look3 (ones_like3 ?dt ?t) ?i ?j ?l = Some ?v |- _ =>
      unfold ones_like3 in H
  | H : look2 (zeros_like2 ?t) ?i ?j = Some ?v |- _ =>
      unfold zeros_like2 in H
  | H : look3 (expand_dims2 ?t) ?i ?j ?l = Some ?v |- _ =>
      rewrite expand_dims2_look in H
  | H : look2 (expand_dims1 ?t) ?i ?j = Some ?v |- _ =>
      rewrite expand_dims1_look in H
  | H : look3 (lift13 ?t) ?i ?j ?l = Some ?v |- _ =>
      rewrite lift13_look in H
  end.

(** Two lookups of the same entry return the same value. *)
Ltac look_merge :=
  repeat match goal with
  | H1 : ?t = Some ?a, H2 : ?t = Some ?b |- _ =>
      first [ constr_eq a b; clear H2
            | assert (a = b) by congruence; first [subst a | subst b] ]
  end.

Ltac look_inv := repeat look_step; look_merge.

Section KernelEntries.
Context (dt : DType) {K : MathKernels dt}.

Lemma _d_plus_look tau z r q sigma d i j l v :
  _d_plus dt tau z r q sigma = Ok d -> look3 d i j l = Some v ->
  exists t zz rr qq ss,
    look3 tau i j l = Some t /\ look3 z i j l = Some zz /\
    look3 r i j l = Some rr /\ look3 q i j l = Some qq /\
    look3 sigma i j l = Some ss /\ v = d_plus dt t zz rr qq ss.
Proof.
  unfold _d_plus. intros E H. repeat bind_inv E.
  look_inv. do 5 eexists. repeat (split; [eassumption|]). reflexivity.
Qed.

Lemma _d_minus_look tau z r q sigma d i j l v :
  _d_minus dt tau z r q sigma = Ok d -> look3 d i j l = Some v ->
  exists t zz rr qq ss,
    look3 tau i j l = Some t /\ look3 z i j l = Some zz /\
    look3 r i j l = Some rr /\ look3 q i j l = Some qq /\
    look3 sigma i j l = Some ss /\ v = d_minus dt t zz rr qq ss.
Proof.
  unfold _d_minus. intros E H. repeat bind_inv E. look_inv.
  destruct (_d_plus_look _ _ _ _ _ _ _ _ _ _ E0 Hx)
    as (t & zz & rr & qq & ss & Ht & Hz & Hr & Hq & Hs & ->).
  look_merge. do 5 eexists. repeat (split; [eassumption|]). reflexivity.
Qed.
End KernelEntries.

(** ** The order on floating-point values *)

Lemma leb_rank a b :
  is_nan a = false -> is_nan b = false ->
  (Float.leb a b = true <-> lexle (rank a) (rank b)).
Proof.
  unfold Float.leb, SFleb, SFcompare, lexle.
  destruct a as [[]|[]| |[] m1 e1], b as [[]|[]| |[] m2 e2]; simpl;
    intros Ha Hb; try discriminate Ha; try discriminate Hb;
    try (split; [intros _; lia | reflexivity]);
    try (split; [discriminate | lia]);
    change (Pos.compare_cont Eq m1 m2) with (Pos.compare m1 m2);
    destruct (Z.compare_spec e1 e2); destruct (Pos.compare_spec m1 m2);
    simpl; split; intros; try discriminate; try reflexivity; lia.
Qed.

Lemma ltb_rank a b :
  is_nan a = false -> is_nan b = false ->
  (Float.ltb a b = false <-> lexle (rank b) (rank a)).
Proof.
  unfold Float.ltb, SFltb, SFcompare, lexle.
  destruct a as [[]|[]| |[] m1 e1], b as [[]|[]| |[] m2 e2]; simpl;
    intros Ha Hb; try discriminate Ha; try discriminate Hb;
    try (split; [intros _; lia | reflexivity]);
    try (split; [discriminate | lia]);
    change (Pos.compare_cont Eq m1 m2) with (Pos.compare m1 m2);
    destruct (Z.compare_spec e1 e2); destruct (Pos.compare_spec m1 m2);
    simpl; split; intros; try discriminate; try reflexivity; lia.
Qed.

Lemma lexle_refl p : lexle p p.
Proof. destruct p as [[a b] c]. simpl. lia. Qed.

Lemma lexle_trans p q r : lexle p q -> lexle q r -> lexle p r.
Proof.
  destruct p as [[a1 a2] a3], q as [[b1 b2] b3], r as [[c1 c2] c3]. simpl. lia.
Qed.

Lemma lexle_total p q : lexle p q \/ lexle q p.
Proof. destruct p as [[a1 a2] a3], q as [[b1 b2] b3]. simpl. lia. Qed.

Lemma leb_not_nan a b :
  Float.leb a b = true -> is_nan a = false /\ is_nan b = false.
Proof. destruct a, b; simpl; try discriminate; auto. Qed.

Lemma leb_trans a b c :
  Float.leb a b = true -> Float.leb b c = true -> Float.leb a c = true.
Proof.
  intros H1 H2.
  destruct (leb_not_nan _ _ H1) as [Ha Hb].
  destruct (leb_not_nan _ _ H2) as [_ Hc].
  apply leb_rank; auto.
  apply lexle_trans with (rank b); apply leb_rank; auto.
Qed.

(** ** The reference kernels satisfy their interface *)

Lemma reference_maximum_spec a b :
  is_nan a = false -> is_nan b = false ->
  (Reference.maximum a b = a \/ Reference.maximum a b = b) /\
  SFleb a (Reference.maximum a b) = true /\
  SFleb b (Reference.maximum a b) = true.
Proof.
  intros Ha Hb. unfold Reference.maximum.
  fold (Float.ltb a b). destruct (Float.ltb a b) eqn:Hlt.
  - split; [now right|]. split.
    + apply leb_rank; auto.
      destruct (lexle_total (rank a) (rank b)) as [H|H]; [exact H|].
      apply ltb_rank in H; auto. congruence.
    + apply leb_rank; auto. apply lexle_refl.
  - split; [now left|]. split.
    + apply leb_rank; auto. apply lexle_refl.
    + apply leb_rank; auto. now apply ltb_rank.
Qed.

Definition reference_kernels (dt : DType) : MathKernels dt :=
  {| tf_log := Reference.log dt;
     tf_exp := Reference.exp dt;
     tf_erf := Reference.erf dt;
     tf_pow := Reference.pow dt;
     tf_minimum := Reference.minimum;
     tf_maximum := Reference.maximum;
     erf_zero := fun s => eq_refl;
     exp_zero := fun s => eq_refl;
     maximum_spec := reference_maximum_spec |}.

(** ** Safe division in [_d_plus] and [_d_minus] *)

(** C4.  With a finite volatility, [_d_plus] and [_d_minus] are exactly [0]
    at [tau = 0], whatever [z], [r] and [q] are; and [_d_plus] is [0]
    whenever its denominator [sigma * sqrt(tau)] is a zero, so that neither
    NaN nor an infinity comes out of the division.  ([_d_plus_look] and
    [_d_minus_look] carry this to every entry of the tensor versions.) *)
Theorem d_plus_d_minus_safe_divide (dt : DType) (K : MathKernels dt)
        (z r q sigma : F) :
  is_finite sigma = true ->
  (forall s, d_plus dt (S754_zero s) z r q sigma = zero /\
             d_minus dt (S754_zero s) z r q sigma = zero) /\
  (forall tau, is_zero (Float.mul dt sigma (Float.sqrt dt tau)) = true ->
               d_plus dt tau z r q sigma = zero /\
               is_nan (d_plus dt tau z r q sigma) = false /\
               is_infinite (d_plus dt tau z r q sigma) = false).
Proof.
  intros Hs. split.
  - intros s.
    assert (Hv : is_zero (Float.mul dt sigma (Float.sqrt dt (S754_zero s))) = true)
      by (apply vol_zero_tau; auto).
    split; [now apply d_plus_zero_denominator | now apply d_minus_zero_denominator].
  - intros tau Hv. rewrite d_plus_zero_denominator by exact Hv. auto.
Qed.

Lemma d_plus_d_minus_safe_divide_witness :
  let z := Float.lit float64 9 1 in
  let r := Float.lit float64 1 2 in
  let q := Float.lit float64 2 2 in
  let sigma := Float.lit float64 15 2 in
  is_finite sigma = true /\
  d_plus float64 (K := reference_kernels float64) zero z r q sigma = zero /\
  d_minus float64 (K := reference_kernels float64) zero z r q sigma = zero.
Proof.
  intros z r q sigma. split; [reflexivity|].
  exact (proj1 (d_plus_d_minus_safe_divide float64 (reference_kernels float64)
                z r q sigma eq_refl) false).
Defined.

(** ** The boundary ratio *)

Lemma div_by_zero dt x y :
  is_zero y = true ->
  is_nan (Float.div dt x y) || is_infinite (Float.div dt x y) = true.
Proof. destruct x, y; try discriminate; reflexivity. Qed.

(** C2, as the code has it.  The ratio [b(tau_grid) / b(u)] of both
    integrands is the ordinary floating-point quotient of the two boundary
    values: where [b(u)] is a zero the ratio is NaN or an infinity, and so
    never [0]. *)
Theorem boundary_ratio_plain_division (dt : DType) (tau_grid : T2)
        (b : T3 -> result T3) (u ratio : T3) (i j l : nat) (v : F) :
  boundary_ratio dt tau_grid b u = Ok ratio ->
  look3 ratio i j l = Some v ->
  exists b_tau b_u x y,
    b (expand_dims2 tau_grid) = Ok b_tau /\ b u = Ok b_u /\
    look3 b_tau i j l = Some x /\ look3 b_u i j l = Some y /\
    v = Float.div dt x y /\
    (is_zero y = true -> is_nan v || is_infinite v = true).
Proof.
  unfold boundary_ratio. intros E H. repeat bind_inv E. look_inv.
  exists x, x0, x1, y. repeat (split; [assumption|]).
  split; [reflexivity | apply div_by_zero].
Qed.

Lemma boundary_ratio_plain_division_witness :
  exists x y,
    look3 [[[one float64]]] 0 0 0 = Some x /\ look3 [[[zero]]] 0 0 0 = Some y /\
    S754_infinity false = Float.div float64 x y.
Proof.
  destruct (boundary_ratio_plain_division float64 [[one float64]]
              (fun t => Ok t) [[[zero]]] [[[S754_infinity false]]] 0 0 0
              (S754_infinity false) eq_refl eq_refl)
    as (b_tau & b_u & x & y & E1 & E2 & Hx & Hy & Hv & _).
  injection E1 as <-. injection E2 as <-. exists x, y. auto.
Defined.

(** C2, as stated, fails: for the callable [b(t) = t], which is [0] at
    [u = 0], the ratio at [tau = 1] is [+infinity] and the ratio at
    [tau = 0] is NaN. *)
Lemma boundary_ratio_not_safe :
  boundary_ratio float64 [[one float64]] (fun t => Ok t) [[[zero]]]
    = Ok [[[S754_infinity false]]] /\
  boundary_ratio float64 [[zero]] (fun t => Ok t) [[[zero]]]
    = Ok [[[S754_nan]]].
Proof. split; reflexivity. Qed.

(** ** [reduce_max] *)

Section ReduceMax.
Context (dt : DType) {K : MathKernels dt}.

Lemma fold_maximum_spec l acc :
  not_nan acc -> Forall not_nan l ->
  let m := fold_left tf_maximum l acc in
  not_nan m /\ Float.leb acc m = true /\
  Forall (fun x => Float.leb x m = true) l /\ (m = acc \/ In m l).
Proof.
  revert acc. induction l as [|x l IH]; intros acc Ha Hl; simpl.
  - repeat split; auto. apply leb_rank; auto. apply lexle_refl.
  - inversion Hl as [|? ? Hx Hl']; subst.
    destruct (maximum_spec acc x Ha Hx) as (Hsel & Hle_a & Hle_x).
    assert (Hn : not_nan (tf_maximum acc x))
      by (destruct Hsel as [-> | ->]; assumption).
    destruct (IH (tf_maximum acc x) Hn Hl') as (Hm & Hle & Hall & Hin).
    assert (Htrans : forall y, not_nan y ->
              Float.leb y (tf_maximum acc x) = true ->
              Float.leb y (fold_left tf_maximum l (tf_maximum acc x)) = true).
    { intros y Hy Hyl. apply leb_rank; auto.
      apply lexle_trans with (rank (tf_maximum acc x)); apply leb_rank; auto. }
    repeat split; auto.
    destruct Hin as [Hin|Hin]; [|auto].
    rewrite Hin. destruct Hsel as [-> | ->]; auto.
Qed.

(** Without NaN entries [reduce_max] is the maximum of the tensor. *)
Lemma reduce_max_spec t :
  Forall not_nan (flatten2 t) ->
  (forall x, In x (flatten2 t) -> Float.leb x (reduce_max dt t) = true) /\
  (flatten2 t <> [] -> In (reduce_max dt t) (flatten2 t)).
Proof.
  intros Hl. unfold reduce_max.
  destruct (fold_maximum_spec (flatten2 t) (S754_infinity true) eq_refl Hl)
    as (Hm & _ & Hall & Hin).
  split.
  - intros x Hx. rewrite Forall_forall in Hall. auto.
  - intros Hne. destruct Hin as [Heq|Hin]; [|exact Hin].
    rewrite Heq in *. destruct (flatten2 t) as [|x l]; [congruence|].
    inversion Hall as [|? ? Hx _]; subst.
    destruct x as [|[]| |[]]; try discriminate; now left.
Qed.
End ReduceMax.

(** ** One iteration of the fixed-point loop *)

Section Iteration.
Context (dt : DType) {K : MathKernels dt} {G : GaussConstants} {S : SplineLib}.
Variables (tau_grid : T2) (k r q sigma : T1).
Variables (tolerance : F) (integration_num_points : nat).

Local Abbreviation body' :=
  (body dt tau_grid k r q sigma tolerance integration_num_points).

(** The update formula at the entries of the operands. *)
Definition boundary_update (k_i r_i q_i tau_ij n_ij d_ij : F) : F :=
  Float.divide_no_nan dt
    (Float.mul dt
       (Float.mul dt k_i
          (tf_exp (Float.mul dt (Float.neg (Float.sub dt r_i q_i)) tau_ij)))
       n_ij)
    d_ij.

Lemma relative_change_look new current change i j e :
  relative_change dt new current = Ok change ->
  look2 change i j = Some e ->
  exists x y, look2 new i j = Some x /\ look2 current i j = Some y /\
    e = Float.div dt (Float.abs (Float.sub dt x y))
                     (Float.add dt (Float.abs x) (epsilon dt)).
Proof.
  unfold relative_change. intros E H. repeat bind_inv E. look_inv.
  do 2 eexists. repeat (split; [eassumption|]). reflexivity.
Qed.

Lemma body_inv vars converged new_boundary_points :
  body' vars = Ok (converged, new_boundary_points) ->
  exists spline_params numerator denominator change,
    build_spline tau_grid (snd vars) = Ok spline_params /\
    boundary_numerator dt tau_grid (current_exercise_boundary_fn spline_params)
      k r q sigma integration_num_points = Ok numerator /\
    boundary_denominator dt tau_grid (current_exercise_boundary_fn spline_params)
      k r q sigma integration_num_points = Ok denominator /\
    relative_change dt new_boundary_points (snd vars) = Ok change /\
    converged = Float.leb (reduce_max dt change) tolerance /\
    forall i j v, look2 new_boundary_points i j = Some v ->
      exists k_i r_i q_i tau_ij n_ij d_ij,
        look1 k i = Some k_i /\ look1 r i = Some r_i /\ look1 q i = Some q_i /\
        look2 tau_grid i j = Some tau_ij /\
        look2 numerator i j = Some n_ij /\ look2 denominator i j = Some d_ij /\
        v = boundary_update k_i r_i q_i tau_ij n_ij d_ij.
Proof.
  unfold body. intros E. cbv zeta in E. repeat bind_inv E.
  injection E as <- <-.
  exists x, x0, x1, x7. repeat (split; [assumption || reflexivity|]).
  intros i j v H. look_inv.
  do 6 eexists. repeat (split; [eassumption|]). reflexivity.
Qed.

Lemma while_loop_converged (B : T2) n :
  while_loop cond body' (true, B) n = Ok (true, B).
Proof. destruct n; reflexivity. Qed.

End Iteration.

(** ** Totality on well-shaped inputs *)

(** Solves [exists v, (x <- op a b ;; ...) = Ok v /\ ...] one elementwise
    operation at a time, from the shapes of the operands. *)
Ltac shape_ew3 :=
  match goal with
  | |- context [ew3 ?f ?a ?b] =>
      let Ha := fresh "Sa" in let Hb := fresh "Sb" in
      eassert (Ha : has_shape3 _ _ _ a) by eauto with shapes;
      eassert (Hb : has_shape3 _ _ _ b) by eauto with shapes;
      let c := fresh "t" in let Ec := fresh "E" in let Sc := fresh "S" in
      destruct (ew3_shape f a b _ _ _ _ _ _ Ha Hb) as (c & Ec & Sc);
      [unfold compat; auto ..|];
      rewrite ?bdim_same, ?bdim_1_r, ?bdim_1_l in Sc;
      rewrite Ec; cbn [bind]; clear Ha Hb
  end.

Ltac shape_ew2 :=
  match goal with
  | |- context [ew2 ?f ?a ?b] =>
      let Ha := fresh "Sa" in let Hb := fresh "Sb" in
      eassert (Ha : has_shape2 _ _ a) by eauto with shapes;
      eassert (Hb : has_shape2 _ _ b) by eauto with shapes;
      let c := fresh "t" in let Ec := fresh "E" in let Sc := fresh "S" in
      destruct (ew2_shape f a b _ _ _ _ Ha Hb) as (c & Ec & Sc);
      [unfold compat; auto ..|];
      rewrite ?bdim_same, ?bdim_1_r, ?bdim_1_l in Sc;
      rewrite Ec; cbn [bind]; clear Ha Hb
  end.

Ltac shape_done := eexists; split; [reflexivity | eauto with shapes].

Section Shapes.
Context (dt : DType) {K : MathKernels dt} {G : GaussConstants}.

Lemma _d_plus_shape m n c tau z r q sigma :
  has_shape3 m n c tau -> has_shape3 m n c z ->
  has_shape3 m 1 1 r -> has_shape3 m 1 1 q -> has_shape3 m 1 1 sigma ->
  exists d, _d_plus dt tau z r q sigma = Ok d /\ has_shape3 m n c d.
Proof.
  intros St Sz Sr Sq Ss. unfold _d_plus. cbv zeta.
  repeat shape_ew3. shape_done.
Qed.

Lemma _d_minus_shape m n c tau z r q sigma :
  has_shape3 m n c tau -> has_shape3 m n c z ->
  has_shape3 m 1 1 r -> has_shape3 m 1 1 q -> has_shape3 m 1 1 sigma ->
  exists d, _d_minus dt tau z r q sigma = Ok d /\ has_shape3 m n c d.
Proof.
  intros St Sz Sr Sq Ss. unfold _d_minus.
  destruct (_d_plus_shape m n c tau z r q sigma) as (d & E & Sd); auto.
  rewrite E. cbn [bind]. repeat shape_ew3. shape_done.
Qed.

Lemma reduce_sum_last_shape m n c t :
  has_shape3 m n c t -> has_shape2 m n (reduce_sum_last dt t).
Proof.
  unfold reduce_sum_last. intros [L H]. split; [now rewrite length_map|].
  apply Forall_map. eapply Forall_impl; [|exact H].
  intros row [Lr _]. unfold has_shape1. now rewrite length_map.
Qed.

Lemma gauss_legendre_shape m n func lower upper num_points :
  (forall c u, (1 <= c)%nat -> has_shape3 m n c u ->
     exists v, func u = Ok v /\ has_shape3 m n c v) ->
  has_shape2 m n lower -> has_shape2 m n upper ->
  legendre_roots num_points <> None ->
  exists g, gauss_legendre dt func lower upper num_points = Ok g /\
            has_shape2 m n g.
Proof.
  intros Hf Sl Su Hr. unfold gauss_legendre.
  destruct (legendre_roots num_points) as [roots|] eqn:Er; [|congruence].
  destruct (legendre_tables _ _ Er) as (weights & Ew & Lr & Lw & Hp & _).
  rewrite Ew. cbv zeta.
  assert (Sr : has_shape1 num_points (map1 (Float.cast dt) roots))
    by (apply map1_shape; exact Lr).
  assert (Sw : has_shape1 num_points (map1 (Float.cast dt) weights))
    by (apply map1_shape; exact Lw).
  do 4 shape_ew3.
  destruct (Hf num_points t2 Hp S2) as (values & Ev & Sv).
  rewrite Ev. cbn [bind]. repeat shape_ew3.
  eexists. split; [reflexivity|].
  eapply reduce_sum_last_shape. eauto with shapes.
Qed.

Section EvaluatorShapes.
Variables (m n : nat) (tau_grid : T2) (b : T3 -> result T3) (k r q sigma : T1).
Hypothesis Hn : (1 <= n)%nat.
Hypothesis Sb : shape_preserving m b.
Hypothesis St : has_shape2 m n tau_grid.
Hypothesis Sk : has_shape1 m k.
Hypothesis Sr : has_shape1 m r.
Hypothesis Sq : has_shape1 m q.
Hypothesis Ss : has_shape1 m sigma.

Lemma boundary_ratio_shape c u :
  (1 <= c)%nat -> has_shape3 m n c u ->
  exists v, boundary_ratio dt tau_grid b u = Ok v /\ has_shape3 m n c v.
Proof.
  intros Hc Su. unfold boundary_ratio.
  destruct (Sb n 1 (expand_dims2 tau_grid)) as (bt & Et & Sbt);
    [auto | auto | auto with shapes |].
  destruct (Sb n c u Hn Hc Su) as (bu & Eu & Sbu).
  rewrite Et, Eu. cbn [bind]. shape_ew3. shape_done.
Qed.

Lemma numerator_func_shape c u :
  (1 <= c)%nat -> has_shape3 m n c u ->
  exists v, numerator_func dt tau_grid b r q sigma u = Ok v /\
            has_shape3 m n c v.
Proof.
  intros Hc Su. unfold numerator_func.
  destruct (boundary_ratio_shape c u Hc Su) as (ratio & E & Sratio).
  rewrite E. cbn [bind]. shape_ew3.
  destruct (_d_minus_shape m n c t ratio (expand_dims2 (expand_dims1 r))
              (expand_dims2 (expand_dims1 q)) (expand_dims2 (expand_dims1 sigma)))
    as (d & Ed & Sd); auto with shapes.
  rewrite Ed. cbn [bind]. repeat shape_ew3. shape_done.
Qed.

Lemma denominator_func_shape c u :
  (1 <= c)%nat -> has_shape3 m n c u ->
  exists v, denominator_func dt tau_grid b r q sigma u = Ok v /\
            has_shape3 m n c v.
Proof.
  intros Hc Su. unfold denominator_func.
  destruct (boundary_ratio_shape c u Hc Su) as (ratio & E & Sratio).
  rewrite E. cbn [bind]. shape_ew3.
  destruct (_d_plus_shape m n c t ratio (expand_dims2 (expand_dims1 r))
              (expand_dims2 (expand_dims1 q)) (expand_dims2 (expand_dims1 sigma)))
    as (d & Ed & Sd); auto with shapes.
  rewrite Ed. cbn [bind]. repeat shape_ew3. shape_done.
Qed.

Lemma boundary_numerator_shape num_points :
  legendre_roots num_points <> None ->
  exists N, boundary_numerator dt tau_grid b k r q sigma num_points = Ok N /\
            has_shape2 m n N.
Proof.
  intros Hr. unfold boundary_numerator.
  destruct (Sb n 1 (expand_dims2 tau_grid)) as (bt & Et & Sbt);
    [auto | auto | auto with shapes |].
  rewrite Et. cbn [bind]. shape_ew3.
  destruct (_d_minus_shape m n 1 (expand_dims2 tau_grid) t
              (expand_dims2 (expand_dims1 r))
              (expand_dims2 (expand_dims1 q)) (expand_dims2 (expand_dims1 sigma)))
    as (d & Ed & Sd); auto with shapes.
  rewrite Ed. cbn [bind].
  destruct (squeeze_last_shape (map3 (_standard_normal_cdf dt) d) m n)
    as (term1 & E1 & S1); [auto with shapes|].
  rewrite E1. cbn [bind].
  destruct (gauss_legendre_shape m n (numerator_func dt tau_grid b r q sigma)
              (zeros_like2 tau_grid) tau_grid num_points)
    as (g & Eg & Sg); auto with shapes.
  { intros c u Hc Su. now apply numerator_func_shape. }
  rewrite Eg. cbn [bind]. repeat shape_ew2. shape_done.
Qed.

Lemma boundary_denominator_shape num_points :
  legendre_roots num_points <> None ->
  exists D, boundary_denominator dt tau_grid b k r q sigma num_points = Ok D /\
            has_shape2 m n D.
Proof.
  intros Hr. unfold boundary_denominator.
  destruct (Sb n 1 (expand_dims2 tau_grid)) as (bt & Et & Sbt);
    [auto | auto | auto with shapes |].
  rewrite Et. cbn [bind]. shape_ew3.
  destruct (_d_plus_shape m n 1 (expand_dims2 tau_grid) t
              (expand_dims2 (expand_dims1 r))
              (expand_dims2 (expand_dims1 q)) (expand_dims2 (expand_dims1 sigma)))
    as (d & Ed & Sd); auto with shapes.
  rewrite Ed. cbn [bind].
  destruct (squeeze_last_shape (map3 (_standard_normal_cdf dt) d) m n)
    as (term1 & E1 & S1); [auto with shapes|].
  rewrite E1. cbn [bind].
  destruct (gauss_legendre_shape m n (denominator_func dt tau_grid b r q sigma)
              (zeros_like2 tau_grid) tau_grid num_points)
    as (g & Eg & Sg); auto with shapes.
  { intros c u Hc Su. now apply denominator_func_shape. }
  rewrite Eg. cbn [bind]. repeat shape_ew2. shape_done.
Qed.
End EvaluatorShapes.
End Shapes.

(** ** Reshaping *)

Lemma slice_app_r (l1 l2 : list F) a k w :
  length l1 = a -> slice (l1 ++ l2) (a + k) w = slice l2 k w.
Proof.
  intros L. unfold slice. rewrite skipn_app.
  rewrite skipn_all2 by lia. simpl. do 2 f_equal. lia.
Qed.

Lemma slice_app_l (l1 l2 : list F) k w :
  (k + w <= length l1)%nat -> slice (l1 ++ l2) k w = slice l1 k w.
Proof.
  intros L. unfold slice. rewrite skipn_app, firstn_app.
  rewrite length_skipn.
  replace (w - (length l1 - k))%nat with 0%nat by lia.
  simpl. apply app_nil_r.
Qed.

Lemma slice_all (l : list F) : slice l 0 (length l) = l.
Proof. unfold slice. simpl. apply firstn_all. Qed.

Lemma slice_length (l : list F) k w :
  (k + w <= length l)%nat -> length (slice l k w) = w.
Proof. intros L. unfold slice. rewrite length_firstn, length_skipn. lia. Qed.

Lemma concat_length (t : T2) m c :
  has_shape2 m c t -> length (concat t) = (m * c)%nat.
Proof.
  intros [L H]. subst m. induction H as [|row t Hr H IH]; simpl; auto.
  rewrite length_app, IH. unfold has_shape1 in Hr. lia.
Qed.

(** A window inside row [i] of a concatenation of rows of length [c]. *)
Lemma slice_concat (t : T2) c i row k w :
  Forall (has_shape1 c) t -> nth_error t i = Some row -> (k + w <= c)%nat ->
  slice (concat t) (i * c + k) w = slice row k w.
Proof.
  intros H. revert i. induction H as [|r t Hr H IH]; intros i Hi Hk.
  - destruct i; discriminate.
  - unfold has_shape1 in Hr. destruct i as [|i]; simpl in *.
    + injection Hi as <-. apply slice_app_l. lia.
    + rewrite <- Nat.add_assoc. rewrite slice_app_r by exact Hr. now apply IH.
Qed.

Lemma map_seq_nth {A B} (f : nat -> B) (g : A -> B) (t : list A) s :
  (forall i x, nth_error t i = Some x -> f (s + i)%nat = g x) ->
  map f (seq s (length t)) = map g t.
Proof.
  revert s. induction t as [|a t IH]; intros s H; simpl; auto.
  f_equal.
  - rewrite <- (H 0%nat a eq_refl). f_equal. lia.
  - apply IH. intros i x Hi. rewrite <- (H (S i) x Hi). f_equal. lia.
Qed.

Lemma reshape_rows_concat (t : T2) m c :
  has_shape2 m c t -> (1 <= c)%nat -> reshape_rows (concat t) c = Ok t.
Proof.
  intros St Hc. unfold reshape_rows.
  rewrite (concat_length _ _ _ St). destruct St as [L H].
  destruct (Nat.eqb_spec c 0); [lia|].
  rewrite Nat.Div0.mod_mul, Nat.div_mul by lia. simpl.
  f_equal. subst m. rewrite (map_seq_nth _ (fun row => row)).
  - apply map_id.
  - intros i row Hi. simpl.
    rewrite <- (Nat.add_0_r (i * c)). rewrite (slice_concat t c i row 0 c H Hi) by lia.
    rewrite Forall_forall in H. apply nth_error_In in Hi.
    rewrite <- (H row Hi). apply slice_all.
Qed.

Lemma reshape_blocks_concat (y : T2) m n c :
  has_shape2 m (n * c) y -> (1 <= n)%nat -> (1 <= c)%nat ->
  reshape_blocks (concat y) n c = Ok (map (split_row n c) y).
Proof.
  intros Sy Hn Hc. unfold reshape_blocks.
  rewrite (concat_length _ _ _ Sy). destruct Sy as [L H].
  destruct (Nat.eqb_spec (n * c) 0); [nia|].
  rewrite Nat.Div0.mod_mul, Nat.div_mul by lia. simpl.
  f_equal. subst m. apply map_seq_nth.
  intros i row Hi. simpl. unfold split_row.
  apply map_ext_in. intros j Hj. apply in_seq in Hj.
  replace ((i * n + j) * c)%nat with (i * (n * c) + j * c)%nat by nia.
  apply (slice_concat y (n * c) i row (j * c) c H Hi). nia.
Qed.

Lemma split_row_shape n c row :
  has_shape1 (n * c) row -> has_shape2 n c (split_row n c row).
Proof.
  unfold has_shape1, split_row. intros L. split.
  - now rewrite length_map, length_seq.
  - apply Forall_map, Forall_forall. intros j Hj. apply in_seq in Hj.
    apply slice_length. nia.
Qed.

Lemma split_row_concat n c (rows : T2) :
  has_shape2 n c rows -> split_row n c (concat rows) = rows.
Proof.
  intros [L H]. unfold split_row. subst n.
  rewrite (map_seq_nth _ (fun row => row)); [apply map_id|].
  intros j row Hj. simpl.
  rewrite <- (Nat.add_0_r (j * c)). rewrite (slice_concat rows c j row 0 c H Hj) by lia.
  rewrite Forall_forall in H. apply nth_error_In in Hj.
  rewrite <- (H row Hj). apply slice_all.
Qed.

Lemma flatten_rows_shape m n c (u : T3) :
  has_shape3 m n c u -> has_shape2 m (n * c) (map flatten2 u).
Proof.
  intros [L H]. split; [now rewrite length_map|].
  apply Forall_map. eapply Forall_impl; [|exact H].
  intros row Hr. apply (concat_length _ _ _ Hr).
Qed.

Lemma shape_1_spec m n c (u : T3) :
  has_shape3 m n c u -> (1 <= m)%nat -> shape_1 u = n.
Proof.
  intros [L H] Hm. destruct u as [|row u]; [simpl in L; lia|].
  inversion H as [|? ? Hrow _]; subst. exact (proj1 Hrow).
Qed.

Lemma shape_2_spec m n c (u : T3) :
  has_shape3 m n c u -> (1 <= m)%nat -> (1 <= n)%nat -> shape_2 u = c.
Proof.
  intros [L H] Hm Hn. destruct u as [|row u]; [simpl in L; lia|].
  inversion H as [|? ? Hrow _]; subst. destruct Hrow as [Lr Hr].
  destruct row as [|x row]; [simpl in Lr; lia|].
  inversion Hr; subst. assumption.
Qed.

(** ** The boundary callable *)

Section Callable.
Context {S : SplineLib}.
Variables (m n : nat) (knots values : T2) (params : SplineParams).
Hypothesis Hm : (1 <= m)%nat.
Hypothesis Sk : has_shape2 m n knots.
Hypothesis Sv : has_shape2 m n values.
Hypothesis Eb : build_spline knots values = Ok params.

Lemma boundary_fn_spec n' c x :
  (1 <= n')%nat -> (1 <= c)%nat -> has_shape3 m n' c x ->
  exists y,
    reshape_rows (flatten3 x) (shape_1 x * shape_2 x) = Ok (map flatten2 x) /\
    interpolate (map flatten2 x) params = Ok y /\
    has_shape2 m (n' * c) y /\
    reshape_blocks (flatten2 y) (shape_1 x) (shape_2 x)
      = Ok (map (split_row n' c) y) /\
    new_exercise_boundary_fn params x = Ok (map (split_row n' c) y) /\
    has_shape3 m n' c (map (split_row n' c) y).
Proof.
  intros Hn Hc Sx.
  pose proof (flatten_rows_shape _ _ _ _ Sx) as Sf.
  destruct (interpolate_ok m n (n' * c) knots values params (map flatten2 x))
    as (y & Ey & Sy); auto.
  assert (E1 : reshape_rows (flatten3 x) (shape_1 x * shape_2 x)
               = Ok (map flatten2 x)).
  { rewrite (shape_1_spec _ _ _ _ Sx), (shape_2_spec _ _ _ _ Sx) by lia.
    apply (reshape_rows_concat _ m); [exact Sf | nia]. }
  assert (E2 : reshape_blocks (flatten2 y) (shape_1 x) (shape_2 x)
               = Ok (map (split_row n' c) y)).
  { rewrite (shape_1_spec _ _ _ _ Sx), (shape_2_spec _ _ _ _ Sx) by lia.
    now apply (reshape_blocks_concat _ m). }
  exists y. repeat (split; [assumption|]). split.
  - unfold new_exercise_boundary_fn. cbv zeta. rewrite E1. cbn [bind].
    rewrite Ey. cbn [bind]. exact E2.
  - destruct Sy as [Ly Hy]. split; [now rewrite length_map|].
    apply Forall_map. eapply Forall_impl; [|exact Hy].
    intros row. apply split_row_shape.
Qed.

Lemma new_exercise_boundary_fn_shape_preserving :
  shape_preserving m (new_exercise_boundary_fn params).
Proof.
  intros n' c x Hn Hc Sx.
  destruct (boundary_fn_spec n' c x Hn Hc Sx) as (y & _ & _ & _ & _ & E & Sy).
  eauto.
Qed.

Lemma current_exercise_boundary_fn_shape_preserving :
  shape_preserving m (current_exercise_boundary_fn params).
Proof. exact new_exercise_boundary_fn_shape_preserving. Qed.
End Callable.

(** ** The loop *)

Lemma while_loop_iterates {St : Type} (cond : St -> bool) (body : St -> result St)
      s max s' :
  while_loop cond body s max = Ok s' ->
  exists n, (n <= max)%nat /\ iterates cond body n s s' /\
            (n = max \/ cond s' = false).
Proof.
  revert s. induction max as [|max IH]; intros s H; simpl in H.
  - injection H as <-. exists 0%nat. repeat split; auto. constructor.
  - destruct (cond s) eqn:Hc.
    + bind_inv H. destruct (IH _ H) as (n & Hn & Hi & Hstop).
      exists (Datatypes.S n). repeat split; [lia | econstructor; eauto |].
      destruct Hstop; [left; lia | now right].
    + injection H as <-. exists 0%nat. repeat split; [lia | constructor | now right].
Qed.

Lemma while_loop_total {St : Type} (P : St -> Prop) (cond : St -> bool)
      (body : St -> result St) s max :
  P s -> (forall s, P s -> exists s', body s = Ok s' /\ P s') ->
  exists s', while_loop cond body s max = Ok s' /\ P s'.
Proof.
  intros Hs Hbody. revert s Hs. induction max as [|max IH]; intros s Hs; simpl.
  - eauto.
  - destruct (cond s); [|eauto].
    destruct (Hbody s Hs) as (s1 & E & H1). rewrite E. simpl. now apply IH.
Qed.

Lemma iterates_last {St : Type} (cond : St -> bool) (body : St -> result St)
      n s s'' :
  iterates cond body (Datatypes.S n) s s'' ->
  exists s', iterates cond body n s s' /\ cond s' = true /\ body s' = Ok s''.
Proof.
  revert s. induction n as [|n IH]; intros s H.
  - inversion H as [|? ? s1 ? Hc Hb Hrest]; subst. inversion Hrest; subst.
    exists s. repeat split; auto. constructor.
  - inversion H as [|? ? s1 ? Hc Hb Hrest]; subst.
    destruct (IH _ Hrest) as (s' & Hi & Hc' & Hb').
    exists s'. repeat split; auto. econstructor; eauto.
Qed.

(** A run that used up the budget, or stopped within it, is what the loop
    returns. *)
Lemma iterates_while_loop {St : Type} (cond : St -> bool)
      (body : St -> result St) n s s' max :
  iterates cond body n s s' ->
  n = max \/ ((n <= max)%nat /\ cond s' = false) ->
  while_loop cond body s max = Ok s'.
Proof.
  intros H. revert max.
  induction H as [s|n s s1 s2 Hc Hb Hrest IH]; intros max Hstop.
  - destruct max as [|max]; [reflexivity|].
    destruct Hstop as [Hstop|[_ Hstop]]; [discriminate|].
    simpl. now rewrite Hstop.
  - destruct max as [|max]; [destruct Hstop as [?|[? _]]; lia|].
    simpl. rewrite Hc, Hb. simpl. apply IH.
    destruct Hstop as [Hstop|[Hle Hstop]]; [left; lia | right; split; [lia|auto]].
Qed.

(** An iteration that fails within the budget makes the loop fail. *)
Lemma iterates_while_loop_error {St : Type} (cond : St -> bool)
      (body : St -> result St) n s s' max e :
  iterates cond body n s s' -> (n < max)%nat ->
  cond s' = true -> body s' = Err e ->
  while_loop cond body s max = Err e.
Proof.
  intros H. revert max. induction H as [s|n s s1 s2 Hc Hb Hrest IH];
    intros max Hlt Hc' He.
  - destruct max as [|max]; [lia|]. simpl. now rewrite Hc', He.
  - destruct max as [|max]; [lia|]. simpl. rewrite Hc, Hb. simpl.
    apply IH; auto. lia.
Qed.

(** Two bodies that agree on the states of an invariant run the same loop. *)
Lemma while_loop_ext {St : Type} (P : St -> Prop) (cond : St -> bool)
      (body1 body2 : St -> result St) :
  (forall s, P s -> body1 s = body2 s) ->
  (forall s s', P s -> body2 s = Ok s' -> P s') ->
  forall max s, P s ->
    while_loop cond body1 s max = while_loop cond body2 s max.
Proof.
  intros Hext Hinv. induction max as [|max IH]; intros s Hs; [reflexivity|].
  simpl. destruct (cond s); [|reflexivity].
  rewrite (Hext s Hs). destruct (body2 s) as [s'|e] eqn:E; [|reflexivity].
  simpl. apply IH. eapply Hinv; eauto.
Qed.

Lemma iterates_deterministic {St : Type} (cond : St -> bool)
      (body : St -> result St) n s a b :
  iterates cond body n s a -> iterates cond body n s b -> a = b.
Proof.
  intros Ha. revert b. induction Ha as [s|n s s1 s2 Hc Hb Hrest IH]; intros b Hb'.
  - now inversion Hb'.
  - inversion Hb' as [|? ? s1' ? _ Hb1 Hrest']; subst.
    assert (s1' = s1) by congruence. subst s1'. now apply IH.
Qed.

Lemma iterates_split {St : Type} (cond : St -> bool) (body : St -> result St)
      n k s f :
  iterates cond body (n + k) s f ->
  exists mid, iterates cond body n s mid /\ iterates cond body k mid f.
Proof.
  revert s. induction n as [|n IH]; intros s H.
  - exists s. split; [constructor | exact H].
  - inversion H as [|? ? s1 ? Hc Hb Hrest]; subst.
    destruct (IH _ Hrest) as (mid & H1 & H2).
    exists mid. split; [econstructor; eauto | exact H2].
Qed.

(** A run that stopped, by convergence or by the budget, is the only one. *)
Lemma iterates_stop_unique {St : Type} (cond : St -> bool)
      (body : St -> result St) d n n' s f f' :
  iterates cond body n s f -> n = d \/ ((n <= d)%nat /\ cond f = false) ->
  iterates cond body n' s f' -> n' = d \/ ((n' <= d)%nat /\ cond f' = false) ->
  n = n' /\ f = f'.
Proof.
  assert (Hlt : forall a b fa fb,
            iterates cond body a s fa -> iterates cond body b s fb ->
            (a < b)%nat -> cond fa = true).
  { intros a b fa fb Ha Hb Hab.
    replace b with (a + Datatypes.S (b - a - 1))%nat in Hb by lia.
    destruct (iterates_split _ _ _ _ _ _ Hb) as (mid & H1 & H2).
    assert (mid = fa) by (eapply iterates_deterministic; eauto). subst mid.
    now inversion H2. }
  intros H S H' S'.
  assert (n = n').
  { destruct (Nat.lt_trichotomy n n') as [Hc|[Hc|Hc]]; [|exact Hc|].
    - pose proof (Hlt _ _ _ _ H H' Hc) as Ht.
      destruct S as [->|[_ Hf]]; [|congruence].
      destruct S' as [->|[? _]]; lia.
    - pose proof (Hlt _ _ _ _ H' H Hc) as Ht.
      destruct S' as [->|[_ Hf]]; [|congruence].
      destruct S as [->|[? _]]; lia. }
  subst n'. split; [reflexivity|]. eapply iterates_deterministic; eauto.
Qed.

Lemma b_0_shape dt {K : MathKernels dt} m k r q :
  has_shape1 m k -> has_shape1 m r -> has_shape1 m q ->
  shape_preserving m (b_0 dt k r q).
Proof.
  intros Sk Sr Sq n' c u Hn' Hc Su. unfold b_0. cbv zeta.
  repeat shape_ew3. shape_done.
Qed.

Section SolverShapes.
Context (dt : DType) {K : MathKernels dt} {G : GaussConstants} {S : SplineLib}.
Variables (m n : nat) (tau_grid : T2) (k r q sigma : T1).
Variables (tolerance : F) (integration_num_points : nat).
Hypothesis Hv : valid_shapes m n tau_grid k r q sigma.
Hypothesis Hp : legendre_roots integration_num_points <> None.

Lemma b_0_shape_preserving : shape_preserving m (b_0 dt k r q).
Proof.
  destruct Hv as (Hm & Hn & St & Sk & Sr & Sq & Ss).
  now apply b_0_shape.
Qed.

Lemma initial_guess_shape :
  exists initial,
    (t <- b_0 dt k r q (expand_dims2 tau_grid) ;; squeeze_last t) = Ok initial /\
    has_shape2 m n initial.
Proof.
  destruct Hv as (Hm & Hn & St & Sk & Sr & Sq & Ss).
  destruct (b_0_shape_preserving n 1 (expand_dims2 tau_grid))
    as (t & E & St'); [lia | lia | auto with shapes |].
  rewrite E. cbn [bind]. now apply squeeze_last_shape.
Qed.

Lemma body_shape vars :
  has_shape2 m n (snd vars) ->
  exists vars', body dt tau_grid k r q sigma tolerance integration_num_points vars
                  = Ok vars' /\ has_shape2 m n (snd vars').
Proof.
  destruct Hv as (Hm & Hn & St & Sk & Sr & Sq & Ss).
  intros SB. unfold body. cbv zeta.
  destruct (build_spline_ok m n tau_grid (snd vars) Hn St SB) as (p & Ep).
  rewrite Ep. cbn [bind].
  pose proof (current_exercise_boundary_fn_shape_preserving m n tau_grid
                (snd vars) p Hm St SB Ep) as Sfn.
  destruct (boundary_numerator_shape dt m n tau_grid
              (current_exercise_boundary_fn p) k r q sigma)
    with (num_points := integration_num_points) as (N & EN & SN);
    auto; try lia.
  destruct (boundary_denominator_shape dt m n tau_grid
              (current_exercise_boundary_fn p) k r q sigma)
    with (num_points := integration_num_points) as (D & ED & SD);
    auto; try lia.
  rewrite EN, ED. cbn [bind]. do 5 shape_ew2.
  unfold relative_change. repeat shape_ew2.
  eexists. split; [reflexivity | exact S4].
Qed.

(** On inputs of consistent shapes the solver returns: it runs at most
    [max_depth] iterations and fits the final spline to the sample vector of
    the last state. *)
Lemma exercise_boundary_total max_depth :
  exists initial count final params,
    (t <- b_0 dt k r q (expand_dims2 tau_grid) ;; squeeze_last t) = Ok initial /\
    (count <= max_depth)%nat /\
    iterates cond (body dt tau_grid k r q sigma tolerance integration_num_points)
             count (false, initial) final /\
    (count = max_depth \/ fst final = true) /\
    has_shape2 m n (snd final) /\
    build_spline tau_grid (snd final) = Ok params /\
    exercise_boundary dt tau_grid k r q sigma max_depth tolerance
      integration_num_points = Ok (new_exercise_boundary_fn params).
Proof.
  destruct initial_guess_shape as (initial & Ei & Si).
  destruct (while_loop_total (fun s => has_shape2 m n (snd s)) cond
              (body dt tau_grid k r q sigma tolerance integration_num_points)
              (false, initial) max_depth Si body_shape) as (final & Ef & Sf).
  destruct (while_loop_iterates _ _ _ _ _ Ef) as (count & Hc & Hi & Hstop).
  destruct Hv as (Hm & Hn & St & Sk & Sr & Sq & Ss).
  destruct (build_spline_ok m n tau_grid (snd final) Hn St Sf) as (params & Ep).
  exists initial, count, final, params. repeat (split; [assumption|]).
  split; [|split; [assumption|split; [assumption|]]].
  - destruct Hstop as [?|Hstop]; [now left | right].
    unfold cond in Hstop. now destruct (fst final).
  - unfold exercise_boundary. cbv zeta.
    apply bind_ok in Ei. destruct Ei as (t & Et & Es).
    rewrite Et. cbn [bind]. rewrite Es. cbn [bind].
    rewrite Ef. cbn [bind]. rewrite Ep. reflexivity.
Qed.
End SolverShapes.

(** ** The solver as a loop followed by the final fit *)

Section SolverRuns.
Context (dt : DType) {K : MathKernels dt} {G : GaussConstants} {S : SplineLib}.
Variables (tau_grid : T2) (k r q sigma : T1).
Variables (tolerance : F) (integration_num_points : nat).

Local Abbreviation body' :=
  (body dt tau_grid k r q sigma tolerance integration_num_points).

(** The solver, given the initial guess: the loop, then the final spline. *)
Lemma exercise_boundary_unfold max_depth initial :
  (t <- b_0 dt k r q (expand_dims2 tau_grid) ;; squeeze_last t) = Ok initial ->
  exercise_boundary dt tau_grid k r q sigma max_depth tolerance
    integration_num_points
  = (final <- while_loop cond body' (false, initial) max_depth ;;
     new_spline_params <- build_spline tau_grid (snd final) ;;
     Ok (new_exercise_boundary_fn new_spline_params)).
Proof.
  intros E. bind_inv E. unfold exercise_boundary. cbv zeta.
  rewrite E0. cbn [bind]. rewrite E. reflexivity.
Qed.

(** No value compares below or equal to a NaN tolerance. *)
Lemma iterates_not_converged count s s' :
  is_nan tolerance = true -> fst s = false ->
  iterates cond body' count s s' -> fst s' = false.
Proof.
  intros Hn Hs H. induction H as [s|n s s1 s2 Hc Hb Hrest IH]; [exact Hs|].
  apply IH. destruct s1 as [c new].
  destruct (body_inv dt tau_grid k r q sigma tolerance integration_num_points
              s c new Hb) as (_ & _ & _ & change & _ & _ & _ & _ & -> & _).
  cbn [fst]. unfold Float.leb, SFleb.
  destruct tolerance; try discriminate.
  destruct (reduce_max dt change); reflexivity.
Qed.
End SolverRuns.

(** ** A strike vector of length 1 *)

Lemma zipM_repeat_r {A B C} (f : A -> B -> result C) xs y :
  zipM f xs (repeat y (length xs)) = mapM (fun x => f x y) xs.
Proof. induction xs as [|x xs IH]; simpl; [reflexivity | now rewrite IH]. Qed.

Lemma zipM_repeat_l {A B C} (f : A -> B -> result C) x ys :
  zipM f (repeat x (length ys)) ys = mapM (f x) ys.
Proof. induction ys as [|y ys IH]; simpl; [reflexivity | now rewrite IH]. Qed.

(** Stretching a dimension of size 1 is pairing with its copies. *)
Lemma bzip_repeat_r {A B C} (f : A -> B -> result C) xs y m :
  length xs = m -> (1 <= m)%nat -> bzip f xs [y] = bzip f xs (repeat y m).
Proof.
  intros L Hm. subst m.
  destruct xs as [|x [|x' xs]]; simpl in Hm; [lia | reflexivity |].
  change (bzip f (x :: x' :: xs) (repeat y (length (x :: x' :: xs))))
    with (zipM f (x :: x' :: xs) (repeat y (length (x :: x' :: xs)))).
  now rewrite zipM_repeat_r.
Qed.

Lemma bzip_repeat_l {A B C} (f : A -> B -> result C) x ys m :
  length ys = m -> (1 <= m)%nat -> bzip f [x] ys = bzip f (repeat x m) ys.
Proof.
  intros L Hm. subst m.
  destruct ys as [|y [|y' ys]]; simpl in Hm; [lia | reflexivity |].
  change (bzip f (repeat x (length (y :: y' :: ys))) (y :: y' :: ys))
    with (zipM f (repeat x (length (y :: y' :: ys))) (y :: y' :: ys)).
  now rewrite zipM_repeat_l.
Qed.

Lemma ew3_repeat_r f (a : T3) (x : T2) m :
  length a = m -> (1 <= m)%nat -> ew3 f a [x] = ew3 f a (repeat x m).
Proof. apply bzip_repeat_r. Qed.

Lemma ew2_repeat_l f (x : T1) (b : T2) m :
  length b = m -> (1 <= m)%nat -> ew2 f [x] b = ew2 f (repeat x m) b.
Proof. apply bzip_repeat_l. Qed.

Lemma expand_dims1_repeat x m : expand_dims1 (repeat x m) = repeat [x] m.
Proof. unfold expand_dims1. apply map_repeat. Qed.

Lemma expand_dims2_repeat (row : T1) m :
  expand_dims2 (repeat row m) = repeat (expand_dims1 row) m.
Proof. unfold expand_dims2. apply map_repeat. Qed.

Lemma repeat_shape1 (x : F) m : has_shape1 m (repeat x m).
Proof. apply repeat_length. Qed.

Section ScalarStrike.
Context (dt : DType) {K : MathKernels dt} {G : GaussConstants} {S : SplineLib}.
Variables (m n : nat) (tau_grid : T2) (k0 : F) (r q sigma : T1).
Variables (tolerance : F) (integration_num_points : nat).
Hypothesis Hm : (1 <= m)%nat.
Hypothesis Hn : (2 <= n)%nat.
Hypothesis St : has_shape2 m n tau_grid.
Hypothesis Sr : has_shape1 m r.
Hypothesis Sq : has_shape1 m q.
Hypothesis Ss : has_shape1 m sigma.

Lemma strike_exp3 :
  expand_dims2 (expand_dims1 (repeat k0 m)) = repeat [[k0]] m.
Proof. now rewrite expand_dims1_repeat, expand_dims2_repeat. Qed.

Lemma boundary_numerator_scalar_strike b num_points :
  shape_preserving m b ->
  boundary_numerator dt tau_grid b [k0] r q sigma num_points
  = boundary_numerator dt tau_grid b (repeat k0 m) r q sigma num_points.
Proof.
  intros Sb. unfold boundary_numerator. cbv zeta.
  destruct (Sb n 1%nat (expand_dims2 tau_grid)) as (b_tau & Eb & Sbt);
    [lia | lia | auto with shapes |].
  rewrite Eb. cbn [bind]. rewrite strike_exp3.
  change (expand_dims2 (expand_dims1 [k0])) with [[[k0]]].
  rewrite (ew3_repeat_r (Float.div dt) b_tau [[k0]] m (proj1 Sbt) Hm).
  reflexivity.
Qed.

Lemma boundary_denominator_scalar_strike b num_points :
  shape_preserving m b ->
  boundary_denominator dt tau_grid b [k0] r q sigma num_points
  = boundary_denominator dt tau_grid b (repeat k0 m) r q sigma num_points.
Proof.
  intros Sb. unfold boundary_denominator. cbv zeta.
  destruct (Sb n 1%nat (expand_dims2 tau_grid)) as (b_tau & Eb & Sbt);
    [lia | lia | auto with shapes |].
  rewrite Eb. cbn [bind]. rewrite strike_exp3.
  change (expand_dims2 (expand_dims1 [k0])) with [[[k0]]].
  rewrite (ew3_repeat_r (Float.div dt) b_tau [[k0]] m (proj1 Sbt) Hm).
  reflexivity.
Qed.

Lemma b_0_scalar_strike :
  b_0 dt [k0] r q (expand_dims2 tau_grid)
  = b_0 dt (repeat k0 m) r q (expand_dims2 tau_grid).
Proof.
  unfold b_0. cbv zeta. rewrite strike_exp3.
  change (expand_dims2 (expand_dims1 [k0])) with [[[k0]]].
  rewrite (ew3_repeat_r (Float.mul dt) (ones_like3 dt (expand_dims2 tau_grid))
             [[k0]] m); [reflexivity | | exact Hm].
  unfold ones_like3, map3, expand_dims2. rewrite !length_map. apply St.
Qed.

Lemma body_scalar_strike vars :
  has_shape2 m n (snd vars) ->
  body dt tau_grid [k0] r q sigma tolerance integration_num_points vars
  = body dt tau_grid (repeat k0 m) r q sigma tolerance integration_num_points
         vars.
Proof.
  intros SB. unfold body. cbv zeta.
  destruct (build_spline_ok m n tau_grid (snd vars) Hn St SB) as (p & Ep).
  rewrite Ep. cbn [bind].
  pose proof (current_exercise_boundary_fn_shape_preserving m n tau_grid
                (snd vars) p Hm St SB Ep) as Sfn.
  rewrite (boundary_numerator_scalar_strike _ _ Sfn).
  rewrite (boundary_denominator_scalar_strike _ _ Sfn).
  destruct (boundary_numerator dt tau_grid _ (repeat k0 m) r q sigma _)
    as [N|e]; [cbn [bind] | reflexivity].
  destruct (boundary_denominator dt tau_grid _ (repeat k0 m) r q sigma _)
    as [D|e]; [cbn [bind] | reflexivity].
  destruct (ew2 (Float.sub dt) (expand_dims1 r) (expand_dims1 q))
    as [r_q|e] eqn:E1; [cbn [bind] | reflexivity].
  destruct (ew2 (Float.mul dt) (map2 Float.neg r_q) tau_grid)
    as [exponent|e] eqn:E2; [cbn [bind] | reflexivity].
  rewrite expand_dims1_repeat.
  assert (L : length (map2 (tf_exp (dt := dt)) exponent) = m).
  { unfold map2. rewrite length_map.
    apply bzip_length in E1. apply bzip_length in E2.
    destruct E1 as [L1 _]. destruct E2 as [L2 _].
    unfold map2 in L2. rewrite length_map, L1 in L2.
    unfold expand_dims1 in L2. rewrite !length_map in L2.
    unfold has_shape1 in Sr, Sq. destruct St as [Lt _].
    rewrite Sr, Sq, Lt, !bdim_same in L2. exact L2. }
  change (expand_dims1 [k0]) with [[k0]].
  rewrite (ew2_repeat_l (Float.mul dt) [k0] _ m L Hm). reflexivity.
Qed.
End ScalarStrike.



(** ** The reference tables and spline satisfy their interfaces *)

Lemma reference_tables n roots :
  Reference.roots n = Some roots ->
  exists weights, Reference.weights n = Some weights /\
    length roots = n /\ length weights = n /\ (1 <= n)%nat /\
    Forall (fun x => forall dt, is_finite (Float.cast dt x) = true) roots /\
    Forall (fun x => forall dt, is_finite (Float.cast dt x) = true) weights.
Proof.
  intros H.
  assert (Hn : n = 2%nat \/ n = 3%nat \/ n = 4%nat \/ n = 32%nat).
  { do 33 (destruct n as [|n]; [try discriminate H; auto|]). discriminate H. }
  destruct Hn as [->|[->|[->| ->]]]; injection H as <-;
    (eexists; split; [reflexivity|]);
    (split; [reflexivity|]); (split; [reflexivity|]); (split; [lia|]);
    split; repeat (constructor; [intros []; vm_compute; reflexivity|]);
    constructor.
Qed.

Definition reference_tables_instance : GaussConstants :=
  {| legendre_roots := Reference.roots;
     legendre_weights := Reference.weights;
     legendre_tables := reference_tables |}.

Lemma reference_build_ok dt m n knots values :
  (2 <= n)%nat -> has_shape2 m n knots -> has_shape2 m n values ->
  exists params, Reference.build dt knots values = Ok params.
Proof.
  intros _ [Lk Hk] [Lv Hv]. unfold Reference.build.
  destruct (zipM_total
              (fun xs ys : T1 =>
                 if (length xs =? length ys)%nat
                 then Ok (xs, ys, Reference.second_derivatives dt xs ys)
                 else Err SplineError)
              (has_shape1 n) (has_shape1 n) (fun _ => True) knots values)
    as (params & E & _); auto; [|congruence|eauto].
  intros xs ys Hx Hy. unfold has_shape1 in *.
  rewrite Hx, Hy, Nat.eqb_refl. eauto.
Qed.

Lemma reference_interpolate_ok dt m n c knots values params x :
  Reference.build dt knots values = Ok params ->
  has_shape2 m n knots -> has_shape2 m n values -> has_shape2 m c x ->
  exists y, Reference.interpolate dt x params = Ok y /\ has_shape2 m c y.
Proof.
  intros Eb [Lk _] _ [Lx Hx]. unfold Reference.interpolate.
  destruct (zipM_length _ _ _ _ Eb) as [Lp _].
  destruct (zipM_total
              (fun (row : T1) (p : T1 * T1 * T1) =>
                 let '(xs, ys, ms) := p in
                 Ok (map (Reference.eval_row dt xs ys ms) row))
              (has_shape1 c) (fun _ => True) (has_shape1 c) x params)
    as (y & E & Hy); auto.
  - intros row [[xs ys] ms] Hr _. eexists. split; [reflexivity|].
    unfold has_shape1. now rewrite length_map.
  - apply Forall_forall; auto.
  - congruence.
  - exists y. split; [exact E|]. split; [|exact Hy].
    destruct (zipM_length _ _ _ _ E). congruence.
Qed.

Lemma reference_row_local dt m n c knots values params x y i :
  has_shape2 m n knots -> has_shape2 m n values -> has_shape2 m c x ->
  (i < m)%nat ->
  Reference.build dt knots values = Ok params ->
  Reference.interpolate dt x params = Ok y ->
  exists params_i,
    Reference.build dt (brow i knots) (brow i values) = Ok params_i /\
    Reference.interpolate dt (brow i x) params_i = Ok (brow i y).
Proof.
  intros _ _ _ _ Eb Ei. exists (brow i params).
  split; [exact (zipM_brow _ _ _ _ i Eb) | exact (zipM_brow _ _ _ _ i Ei)].
Qed.

Definition reference_spline (dt : DType) : SplineLib :=
  {| SplineParams := Reference.Params;
     build_spline := Reference.build dt;
     interpolate := Reference.interpolate dt;
     build_spline_ok := reference_build_ok dt;
     interpolate_ok := reference_interpolate_ok dt;
     spline_row_local := reference_row_local dt |}.

(** [compute_as E t]: the value of the closed term [t], as an equation. *)
Ltac compute_as E t :=
  let v := eval vm_compute in t in
  assert (E : t = v) by (vm_compute; reflexivity).

(** ** Termination and the returned callable *)

Lemma example_valid_shapes :
  valid_shapes 2 3 Example.tau_grid Example.k Example.r Example.q Example.sigma.
Proof.
  unfold valid_shapes, has_shape2, has_shape1.
  repeat split; try lia; repeat constructor.
Qed.

Lemma example_num_points : Reference.roots Example.num_points <> None.
Proof. discriminate. Qed.

(** C6.  On every input of consistent shapes the solver returns.  The loop
    executes [count <= max_depth] iterations; if the last state is not
    converged the budget was used up, no error is raised, and the result is
    the callable backed by the spline fitted to the sample vector of the
    last state. *)
Theorem exercise_boundary_terminates (dt : DType) (K : MathKernels dt)
        (G : GaussConstants) (S : SplineLib) (m n : nat) (tau_grid : T2)
        (k r q sigma : T1) (max_depth : nat) (tolerance : F)
        (integration_num_points : nat) :
  valid_shapes m n tau_grid k r q sigma ->
  legendre_roots integration_num_points <> None ->
  exists initial count final new_spline_params,
    (t <- b_0 dt k r q (expand_dims2 tau_grid) ;; squeeze_last t) = Ok initial /\
    iterates cond (body dt tau_grid k r q sigma tolerance integration_num_points)
             count (false, initial) final /\
    (count <= max_depth)%nat /\
    (fst final = false -> count = max_depth) /\
    build_spline tau_grid (snd final) = Ok new_spline_params /\
    exercise_boundary dt tau_grid k r q sigma max_depth tolerance
      integration_num_points = Ok (new_exercise_boundary_fn new_spline_params).
Proof.
  intros Hv Hp.
  destruct (exercise_boundary_total dt m n tau_grid k r q sigma tolerance
              integration_num_points Hv Hp max_depth)
    as (initial & count & final & params & Ei & Hc & Hi & Hstop & _ & Ep & E).
  exists initial, count, final, params. repeat (split; [assumption|]).
  split; [|split; assumption].
  intros Hf. destruct Hstop as [?|Hstop]; [assumption | congruence].
Qed.

Lemma exercise_boundary_terminates_witness :
  exists (count : nat) (final : bool * T2)
         (new_spline_params : @SplineParams (reference_spline float64)),
    (count <= 2)%nat /\
    (fst final = false -> count = 2%nat) /\
    exercise_boundary float64 (K := reference_kernels float64)
      (G := reference_tables_instance) (S := reference_spline float64)
      Example.tau_grid Example.k Example.r Example.q Example.sigma 2
      Example.tolerance Example.num_points
    = Ok (new_exercise_boundary_fn new_spline_params).
Proof.
  destruct (exercise_boundary_terminates float64 (reference_kernels float64)
              reference_tables_instance (reference_spline float64) 2 3
              Example.tau_grid Example.k Example.r Example.q Example.sigma 2
              Example.tolerance Example.num_points
              example_valid_shapes example_num_points)
    as (initial & count & final & params & _ & _ & Hc & Hf & _ & E).
  exists count, final, params. auto.
Defined.

(** C8.  On inputs of consistent shapes the solver returns a callable that
    maps every tensor of shape [[m, n', p]] to a tensor of the same shape:
    the two trailing dimensions are flattened into rows of [n' * p], the
    final spline is evaluated on them, and each row of the result is cut
    back into [n'] pieces of [p] (the inverse of the flattening). *)
Theorem exercise_boundary_callable_shape (dt : DType) (K : MathKernels dt)
        (G : GaussConstants) (S : SplineLib) (m n : nat) (tau_grid : T2)
        (k r q sigma : T1) (max_depth : nat) (tolerance : F)
        (integration_num_points : nat) :
  valid_shapes m n tau_grid k r q sigma ->
  legendre_roots integration_num_points <> None ->
  exists fn new_spline_params,
    exercise_boundary dt tau_grid k r q sigma max_depth tolerance
      integration_num_points = Ok fn /\
    fn = new_exercise_boundary_fn new_spline_params /\
    forall n' p x, (1 <= n')%nat -> (1 <= p)%nat -> has_shape3 m n' p x ->
      exists interpolation,
        reshape_rows (flatten3 x) (shape_1 x * shape_2 x)
          = Ok (map flatten2 x) /\
        has_shape2 m (n' * p) (map flatten2 x) /\
        interpolate (map flatten2 x) new_spline_params = Ok interpolation /\
        fn x = Ok (map (split_row n' p) interpolation) /\
        has_shape3 m n' p (map (split_row n' p) interpolation) /\
        map (split_row n' p) (map flatten2 x) = x.
Proof.
  intros Hv Hp.
  destruct (exercise_boundary_total dt m n tau_grid k r q sigma tolerance
              integration_num_points Hv Hp max_depth)
    as (initial & count & final & params & _ & _ & _ & _ & Sf & Ep & E).
  destruct Hv as (Hm & Hn & St & _).
  exists (new_exercise_boundary_fn params), params.
  split; [exact E|]. split; [reflexivity|].
  intros n' p x Hn' Hp' Sx.
  destruct (boundary_fn_spec m n tau_grid (snd final) params Hm St Sf Ep
              n' p x Hn' Hp' Sx) as (y & E1 & Ey & Sy & _ & Efn & Sout).
  exists y. split; [exact E1|]. split; [now apply flatten_rows_shape|].
  repeat (split; [assumption|]).
  rewrite map_map. rewrite <- (map_id x) at 2.
  apply map_ext_in. intros row Hrow. apply split_row_concat.
  destruct Sx as [_ Hx]. rewrite Forall_forall in Hx. auto.
Qed.

Lemma exercise_boundary_callable_shape_witness :
  exists fn,
    exercise_boundary float64 (K := reference_kernels float64)
      (G := reference_tables_instance) (S := reference_spline float64)
      Example.tau_grid Example.k Example.r Example.q Example.sigma 2
      Example.tolerance Example.num_points = Ok fn /\
    exists out, fn (expand_dims2 Example.tau_grid) = Ok out /\
                has_shape3 2 3 1 out.
Proof.
  destruct (exercise_boundary_callable_shape float64 (reference_kernels float64)
              reference_tables_instance (reference_spline float64) 2 3
              Example.tau_grid Example.k Example.r Example.q Example.sigma 2
              Example.tolerance Example.num_points
              example_valid_shapes example_num_points)
    as (fn & params & E & _ & H).
  exists fn. split; [exact E|].
  destruct (H 3%nat 1%nat (expand_dims2 Example.tau_grid)) as (y & _ & _ & _ & Ey & Sy & _).
  - lia.
  - lia.
  - apply expand_dims2_shape. apply example_valid_shapes.
  - eauto.
Defined.

(** ** Input validation *)





(** ** Entries of a well-shaped tensor *)

Lemma look2_get2 m n (t : T2) i j :
  has_shape2 m n t -> (i < m)%nat -> (j < n)%nat ->
  look2 t i j = Some (get2 t i j).
Proof.
  intros [L H] Hi Hj. unfold look2, look1, get2, get1.
  rewrite blook_nth by lia.
  rewrite (nth_error_nth' t [] ) by lia.
  assert (Hr : length (nth i t []) = n).
  { rewrite Forall_forall in H. apply H. apply nth_In. lia. }
  rewrite blook_nth by lia. apply nth_error_nth'. lia.
Qed.

Lemma look1_get1 m (t : T1) i :
  has_shape1 m t -> (i < m)%nat -> look1 t i = Some (get1 t i).
Proof.
  unfold has_shape1, look1, get1. intros L Hi.
  rewrite blook_nth by lia. apply nth_error_nth'. lia.
Qed.

Lemma look2_In (t : T2) i j v : look2 t i j = Some v -> In v (flatten2 t).
Proof.
  unfold look2, look1, flatten2.
  destruct (blook t i) as [row|] eqn:E; [|discriminate].
  intros H. apply in_concat. exists row. split; eapply blook_In; eauto.
Qed.

Lemma In_look2 (t : T2) v :
  In v (flatten2 t) -> exists i j, look2 t i j = Some v.
Proof.
  unfold flatten2. intros H. apply in_concat in H. destruct H as (row & Hr & Hv).
  destruct (In_blook _ _ Hr) as (i & Hi). destruct (In_blook _ _ Hv) as (j & Hj).
  exists i, j. unfold look2, look1. now rewrite Hi.
Qed.

Lemma get2_In m n (t : T2) i j :
  has_shape2 m n t -> (i < m)%nat -> (j < n)%nat -> In (get2 t i j) (flatten2 t).
Proof.
  intros St Hi Hj. eapply look2_In. now apply (look2_get2 m n).
Qed.

Lemma In_get2 m n (t : T2) v :
  has_shape2 m n t -> In v (flatten2 t) ->
  exists i j, (i < m)%nat /\ (j < n)%nat /\ get2 t i j = v.
Proof.
  intros [L H] Hv. unfold flatten2 in Hv. apply in_concat in Hv.
  destruct Hv as (row & Hrow & Hv).
  destruct (In_nth _ _ [] Hrow) as (i & Hi & Ei).
  destruct (In_nth _ _ S754_nan Hv) as (j & Hj & Ej).
  rewrite Forall_forall in H. pose proof (H row Hrow) as Lr.
  unfold has_shape1 in Lr.
  exists i, j. repeat split; [lia | lia |].
  unfold get2, get1. now rewrite Ei.
Qed.

Lemma flatten2_nonempty m n (t : T2) :
  has_shape2 m n t -> (1 <= m)%nat -> (1 <= n)%nat -> flatten2 t <> [].
Proof.
  intros St Hm Hn E.
  pose proof (get2_In m n t 0 0 St ltac:(lia) ltac:(lia)) as H.
  rewrite E in H. exact H.
Qed.

(** ** One iteration on inputs of consistent shapes *)

Lemma relative_change_shape dt m n (new current : T2) :
  has_shape2 m n new -> has_shape2 m n current ->
  exists change,
    relative_change dt new current = Ok change /\ has_shape2 m n change.
Proof.
  intros Sn Sc. unfold relative_change. repeat shape_ew2. shape_done.
Qed.

Section IterationOnShapes.
Context (dt : DType) {K : MathKernels dt} {G : GaussConstants} {S : SplineLib}.
Variables (m n : nat) (tau_grid : T2) (k r q sigma : T1).
Variables (tolerance : F) (integration_num_points : nat).
Hypothesis Hv : valid_shapes m n tau_grid k r q sigma.
Hypothesis Hp : legendre_roots integration_num_points <> None.

Local Abbreviation body' :=
  (body dt tau_grid k r q sigma tolerance integration_num_points).

(** An iteration on samples of shape [[m, n]]: what it computes on the way,
    with the shape of each tensor. *)
Lemma body_on_shapes vars :
  has_shape2 m n (snd vars) ->
  exists converged new spline_params numerator denominator change,
    body' vars = Ok (converged, new) /\
    build_spline tau_grid (snd vars) = Ok spline_params /\
    boundary_numerator dt tau_grid (current_exercise_boundary_fn spline_params)
      k r q sigma integration_num_points = Ok numerator /\
    boundary_denominator dt tau_grid (current_exercise_boundary_fn spline_params)
      k r q sigma integration_num_points = Ok denominator /\
    relative_change dt new (snd vars) = Ok change /\
    has_shape2 m n numerator /\ has_shape2 m n denominator /\
    has_shape2 m n new /\ has_shape2 m n change /\
    converged = Float.leb (reduce_max dt change) tolerance /\
    forall i j, (i < m)%nat -> (j < n)%nat ->
      get2 new i j
      = boundary_update dt (get1 k i) (get1 r i) (get1 q i) (get2 tau_grid i j)
          (get2 numerator i j) (get2 denominator i j).
Proof.
  intros SB.
  destruct (body_shape dt m n tau_grid k r q sigma tolerance
              integration_num_points Hv Hp vars SB) as ([c new] & E & Sn).
  cbn [snd] in Sn.
  destruct (body_inv dt tau_grid k r q sigma tolerance integration_num_points
              vars c new E)
    as (p & N & D & change & Ep & EN & ED & Ec & Hc & Hentry).
  destruct Hv as (Hm & Hn & St & Sk & Sr & Sq & Ss).
  pose proof (current_exercise_boundary_fn_shape_preserving m n tau_grid
                (snd vars) p Hm St SB Ep) as Sfn.
  assert (Hn1 : (1 <= n)%nat) by lia.
  destruct (boundary_numerator_shape dt m n tau_grid
              (current_exercise_boundary_fn p) k r q sigma
              Hn1 Sfn St Sk Sr Sq Ss integration_num_points Hp)
    as (N' & EN' & SN).
  destruct (boundary_denominator_shape dt m n tau_grid
              (current_exercise_boundary_fn p) k r q sigma
              Hn1 Sfn St Sk Sr Sq Ss integration_num_points Hp)
    as (D' & ED' & SD).
  assert (N' = N) by congruence. assert (D' = D) by congruence. subst N' D'.
  destruct (relative_change_shape dt m n new (snd vars) Sn SB)
    as (change' & Ec' & Sc).
  assert (change' = change) by congruence. subst change'.
  exists c, new, p, N, D, change. repeat (split; [assumption|]).
  intros i j Hi Hj.
  destruct (Hentry i j _ (look2_get2 m n new i j Sn Hi Hj))
    as (k_i & r_i & q_i & t & n_ij & d_ij & Hk & Hr & Hq & Ht & HN & HD & ->).
  rewrite (look1_get1 m k i Sk Hi) in Hk. rewrite (look1_get1 m r i Sr Hi) in Hr.
  rewrite (look1_get1 m q i Sq Hi) in Hq.
  rewrite (look2_get2 m n tau_grid i j St Hi Hj) in Ht.
  rewrite (look2_get2 m n N i j SN Hi Hj) in HN.
  rewrite (look2_get2 m n D i j SD Hi Hj) in HD.
  congruence.
Qed.
End IterationOnShapes.

(** C1.  On inputs of consistent shapes, an iteration entered with samples
    of shape [[m, n]] fits a spline to them, evaluates [boundary_numerator]
    and [boundary_denominator] on the callable backed by it, and returns a
    new sample vector of shape [[m, n]] whose entry at every grid point
    [(i, j)] is [K[i] * exp(-(r[i] - q[i]) * tau_grid[i,j]) * N[i,j]]
    divided by [D[i,j]] with [divide_no_nan]: it is [0] where [D[i,j]] is a
    zero. *)
Theorem body_boundary_update (dt : DType) (K : MathKernels dt)
        (G : GaussConstants) (S : SplineLib) (m n : nat) (tau_grid : T2)
        (k r q sigma : T1) (tolerance : F) (integration_num_points : nat)
        (vars : bool * T2) :
  valid_shapes m n tau_grid k r q sigma ->
  legendre_roots integration_num_points <> None ->
  has_shape2 m n (snd vars) ->
  exists converged new_boundary_points spline_params numerator denominator,
    body dt tau_grid k r q sigma tolerance integration_num_points vars
    = Ok (converged, new_boundary_points) /\
    build_spline tau_grid (snd vars) = Ok spline_params /\
    boundary_numerator dt tau_grid (current_exercise_boundary_fn spline_params)
      k r q sigma integration_num_points = Ok numerator /\
    boundary_denominator dt tau_grid (current_exercise_boundary_fn spline_params)
      k r q sigma integration_num_points = Ok denominator /\
    has_shape2 m n numerator /\ has_shape2 m n denominator /\
    has_shape2 m n new_boundary_points /\
    forall i j, (i < m)%nat -> (j < n)%nat ->
      get2 new_boundary_points i j
      = Float.divide_no_nan dt
          (Float.mul dt
             (Float.mul dt (get1 k i)
                (tf_exp (Float.mul dt
                           (Float.neg (Float.sub dt (get1 r i) (get1 q i)))
                           (get2 tau_grid i j))))
             (get2 numerator i j))
          (get2 denominator i j) /\
      (Float.eqb (get2 denominator i j) zero = true ->
       get2 new_boundary_points i j = zero).
Proof.
  intros Hv Hp SB.
  destruct (body_on_shapes dt m n tau_grid k r q sigma tolerance
              integration_num_points Hv Hp vars SB)
    as (c & new & p & N & D & change
        & E & Ep & EN & ED & _ & SN & SD & Sn & _ & _ & Hentry).
  exists c, new, p, N, D. repeat (split; [assumption|]).
  intros i j Hi Hj. rewrite (Hentry i j Hi Hj). unfold boundary_update.
  split; [reflexivity|]. intros Hd. rewrite eqb_zero in Hd.
  now apply divide_no_nan_zero.
Qed.

(** C5.  On inputs of consistent shapes, an iteration entered with samples
    of shape [[m, n]] reports convergence exactly when
    [relative_error <= tolerance], where [relative_error] is [reduce_max]
    of the [[m, n]] tensor whose entry at every [(i, j)] is
    [|new[i,j] - old[i,j]| / (|new[i,j]| + epsilon)]: when no entry is NaN
    it is at least every entry and it is one of them.  [epsilon] is [1e-6]
    in single and [1e-10] in double precision, and when the test fails the
    loop goes on from the new sample vector. *)
Theorem body_convergence_test (dt : DType) (K : MathKernels dt)
        (G : GaussConstants) (S : SplineLib) (m n : nat) (tau_grid : T2)
        (k r q sigma : T1) (tolerance : F) (integration_num_points : nat)
        (vars : bool * T2) :
  valid_shapes m n tau_grid k r q sigma ->
  legendre_roots integration_num_points <> None ->
  has_shape2 m n (snd vars) ->
  let body' := body dt tau_grid k r q sigma tolerance integration_num_points in
  exists converged new_boundary_points change,
    body' vars = Ok (converged, new_boundary_points) /\
    has_shape2 m n new_boundary_points /\
    relative_change dt new_boundary_points (snd vars) = Ok change /\
    has_shape2 m n change /\
    let relative_error := reduce_max dt change in
    (converged = true <-> Float.leb relative_error tolerance = true) /\
    (forall i j, (i < m)%nat -> (j < n)%nat ->
       get2 change i j
       = Float.div dt
           (Float.abs (Float.sub dt (get2 new_boundary_points i j)
                                    (get2 (snd vars) i j)))
           (Float.add dt (Float.abs (get2 new_boundary_points i j))
                      (epsilon dt))) /\
    (Forall not_nan (flatten2 change) ->
       (forall i j, (i < m)%nat -> (j < n)%nat ->
          Float.leb (get2 change i j) relative_error = true) /\
       (exists i j, (i < m)%nat /\ (j < n)%nat /\
          relative_error = get2 change i j)) /\
    epsilon dt = match dt with
                 | float32 => Float.lit float32 1 6
                 | float64 => Float.lit float64 1 10
                 end /\
    (forall d, while_loop cond body' (false, snd vars) (Datatypes.S d) =
               if converged then Ok (true, new_boundary_points)
               else while_loop cond body' (false, new_boundary_points) d).
Proof.
  intros Hv Hp SB body'.
  destruct (body_on_shapes dt m n tau_grid k r q sigma tolerance
              integration_num_points Hv Hp vars SB)
    as (c & new & p & N & D & change
        & E & _ & _ & _ & Ec & _ & _ & Sn & Sc & Hc & _).
  destruct Hv as (Hm & Hn & _).
  exists c, new, change. repeat (split; [assumption|]). cbv zeta.
  split; [rewrite Hc; tauto|]. split; [|split; [|split]].
  - intros i j Hi Hj.
    destruct (relative_change_look dt new (snd vars) change i j _ Ec
                (look2_get2 m n change i j Sc Hi Hj))
      as (x & y & Hx & Hy & ->).
    rewrite (look2_get2 m n new i j Sn Hi Hj) in Hx.
    rewrite (look2_get2 m n (snd vars) i j SB Hi Hj) in Hy.
    congruence.
  - intros Hnn. destruct (reduce_max_spec dt change Hnn) as (Hmax & Hin). split.
    + intros i j Hi Hj. apply Hmax. now apply (get2_In m n).
    + specialize (Hin (flatten2_nonempty m n change Sc Hm ltac:(lia))).
      destruct (In_get2 m n change _ Sc Hin) as (i & j & Hi & Hj & Hg).
      exists i, j. auto.
  - destruct dt; reflexivity.
  - intros d. simpl.
    change (body' (false, snd vars)) with (body' vars). unfold body'.
    rewrite E. simpl.
    destruct c; [apply while_loop_converged | reflexivity].
Qed.

(** ** The iteration on the concrete batch *)

Definition example_body : bool * T2 -> result (bool * T2) :=
  body float64 (K := reference_kernels float64) (G := reference_tables_instance)
       (S := reference_spline float64)
       Example.tau_grid Example.k Example.r Example.q Example.sigma
       Example.tolerance Example.num_points.

Lemma body_boundary_update_witness :
  exists converged new_boundary_points numerator denominator,
    example_body (false, Example.initial) = Ok (converged, new_boundary_points) /\
    has_shape2 2 3 new_boundary_points /\
    get2 new_boundary_points 1 2
    = Float.divide_no_nan float64
        (Float.mul float64
           (Float.mul float64 (Float.of_Z float64 100)
              (Reference.exp float64
                 (Float.mul float64
                    (Float.neg (Float.sub float64 (Float.lit float64 2 2)
                                          (Float.lit float64 2 2)))
                    (Float.lit float64 2 0))))
           (get2 numerator 1 2))
        (get2 denominator 1 2).
Proof.
  destruct (body_boundary_update float64 (reference_kernels float64)
              reference_tables_instance (reference_spline float64) 2 3
              Example.tau_grid Example.k Example.r Example.q Example.sigma
              Example.tolerance Example.num_points (false, Example.initial)
              example_valid_shapes example_num_points)
    as (c & new & p & N & D & E & _ & _ & _ & _ & _ & Sn & H).
  - split; [reflexivity | repeat constructor].
  - exists c, new, N, D. split; [exact E|]. split; [exact Sn|].
    exact (proj1 (H 1%nat 2%nat ltac:(lia) ltac:(lia))).
Defined.

Lemma body_convergence_test_witness :
  exists converged new_boundary_points change,
    example_body (false, Example.initial) = Ok (converged, new_boundary_points) /\
    relative_change float64 new_boundary_points Example.initial = Ok change /\
    has_shape2 2 3 change /\
    (converged = true <->
     Float.leb (reduce_max float64 (K := reference_kernels float64) change)
               Example.tolerance = true).
Proof.
  destruct (body_convergence_test float64 (reference_kernels float64)
              reference_tables_instance (reference_spline float64) 2 3
              Example.tau_grid Example.k Example.r Example.q Example.sigma
              Example.tolerance Example.num_points (false, Example.initial)
              example_valid_shapes example_num_points)
    as (c & new & change & E & _ & Ec & Sc & Hconv & _).
  - split; [reflexivity | repeat constructor].
  - exists c, new, change. auto.
Defined.

(** ** The evaluators at a zero maturity *)

Lemma lookrow_look3 t i j l row :
  lookrow t i j = Some row -> look3 t i j l = blook row l.
Proof.
  unfold lookrow, look3, look2, look1. destruct (blook t i); [|discriminate].
  now intros ->.
Qed.

Lemma fold_add_zeros dt row acc :
  Forall (fun x => is_zero x = true) row -> is_zero acc = true ->
  is_zero (fold_left (Float.add dt) row acc) = true.
Proof.
  intros H. revert acc. induction H as [|x row Hx H IH]; intros acc Ha; simpl.
  - exact Ha.
  - apply IH. now apply add_zero_zero.
Qed.

Lemma two_regular dt : is_zero (two dt) = false /\ is_nan (two dt) = false.
Proof. destruct dt; vm_compute; auto. Qed.

Lemma half_regular dt : is_finite (half dt) = true /\ is_zero (half dt) = false.
Proof. destruct dt; vm_compute; auto. Qed.

Lemma mul_one_half dt : Float.mul dt (one dt) (half dt) = half dt.
Proof. destruct dt; vm_compute; reflexivity. Qed.

Lemma add_half_zero dt y : is_zero y = true -> Float.add dt (half dt) y = half dt.
Proof. destruct y, dt; try discriminate; reflexivity. Qed.

Section ZeroMaturity.
Context (dt : DType) {K : MathKernels dt} {G : GaussConstants}.

Lemma reduce_sum_last_look t i j v :
  look2 (reduce_sum_last dt t) i j = Some v ->
  exists row, lookrow t i j = Some row /\
              v = fold_left (Float.add dt) row zero.
Proof.
  unfold reduce_sum_last, look2, look1, lookrow. rewrite blook_map.
  destruct (blook t i) as [rows|]; simpl; [|discriminate].
  rewrite blook_map. destruct (blook rows j) as [row|]; simpl; [|discriminate].
  intros H. injection H as <-. eauto.
Qed.

(** Over an interval of length zero the quadrature is a zero, provided the
    integrand is finite where its argument is a zero. *)
Lemma gauss_legendre_zero_interval func lower upper num_points g i j v lo up :
  gauss_legendre dt func lower upper num_points = Ok g ->
  look2 g i j = Some v ->
  look2 lower i j = Some lo -> look2 upper i j = Some up ->
  is_zero lo = true -> is_zero up = true ->
  (forall grid values l x,
     func grid = Ok values -> look3 values i j l = Some x ->
     (forall u, look3 grid i j l = Some u -> is_zero u = true) ->
     is_finite x = true) ->
  is_zero v = true.
Proof.
  unfold gauss_legendre. intros E Hv Hlo Hup Zlo Zup Hfunc.
  destruct (legendre_roots num_points) as [roots|] eqn:Er; [|discriminate].
  destruct (legendre_tables _ _ Er) as (weights & Ew & _ & _ & _ & Fr & Fw).
  rewrite Ew in E. cbv zeta in E. repeat bind_inv E. injection E as <-.
  destruct (reduce_sum_last_look _ _ _ _ Hv) as (row & Hrow & ->).
  apply fold_add_zeros; [|reflexivity].
  apply Forall_forall. intros e He.
  destruct (In_blook _ _ He) as (l & Hl).
  rewrite <- (lookrow_look3 _ _ _ l _ Hrow) in Hl.
  rewrite Forall_forall in Fr, Fw.
  destruct (two_regular dt) as [Z2 N2].
  assert (Zlen : is_zero (Float.sub dt up lo) = true) by now apply sub_zero_zero.
  look_inv.
  match goal with
  | Hval : look3 _ i j l = Some ?xv, Hw : look1 weights l = Some ?w |- _ =>
      assert (Fx : is_finite xv = true);
      [ eapply Hfunc; [eassumption | exact Hval |]
      | assert (Fw0 : is_finite (Float.cast dt w) = true)
          by (apply Fw; eapply blook_In; exact Hw) ]
  end.
  - intros u Hu. look_inv.
    match goal with
    | Hr : look1 roots l = Some ?rt |- _ =>
        assert (Fr0 : is_finite (Float.cast dt rt) = true)
          by (apply Fr; eapply blook_In; exact Hr)
    end.
    apply add_zero_zero; apply div_zero_finite; auto.
    + now apply mul_zero_finite.
    + now apply add_zero_zero.
  - apply div_zero_finite; auto.
    apply mul_zero_finite; auto. now apply mul_finite_zero.
Qed.

Lemma exp_of_zero x : is_zero x = true -> tf_exp x = one dt.
Proof. destruct x; try discriminate. intros _. apply exp_zero. Qed.

Lemma numerator_func_zero tau_grid b r q sigma i j t r_i s_i grid values l x :
  look2 tau_grid i j = Some t -> is_zero t = true ->
  look1 r i = Some r_i -> is_finite r_i = true ->
  look1 sigma i = Some s_i -> is_finite s_i = true ->
  numerator_func dt tau_grid b r q sigma grid = Ok values ->
  look3 values i j l = Some x ->
  (forall u, look3 grid i j l = Some u -> is_zero u = true) ->
  x = half dt.
Proof.
  intros Ht Zt Hr Fr Hs Fs E Hx Hu.
  unfold numerator_func in E. repeat bind_inv E. look_inv.
  match goal with
  | Ed : _d_minus _ _ _ _ _ _ = Ok ?d, Hd : look3 ?d i j l = Some _ |- _ =>
      destruct (_d_minus_look _ _ _ _ _ _ _ _ _ _ _ Ed Hd)
        as (t' & zz & rr & qq & ss & Ht' & _ & _ & _ & Hs' & ->)
  end.
  look_inv.
  match goal with
  | Hg : look3 grid i j l = Some ?u |- _ => pose proof (Hu u Hg) as Zu
  end.
  rewrite d_minus_zero_denominator.
  - rewrite (standard_normal_cdf_zero dt zero eq_refl).
    rewrite exp_of_zero by (now apply mul_finite_zero). apply mul_one_half.
  - apply vol_zero_tau; auto. now apply sub_zero_zero.
Qed.

Lemma denominator_func_zero tau_grid b r q sigma i j t q_i s_i grid values l x :
  look2 tau_grid i j = Some t -> is_zero t = true ->
  look1 q i = Some q_i -> is_finite q_i = true ->
  look1 sigma i = Some s_i -> is_finite s_i = true ->
  denominator_func dt tau_grid b r q sigma grid = Ok values ->
  look3 values i j l = Some x ->
  (forall u, look3 grid i j l = Some u -> is_zero u = true) ->
  x = half dt.
Proof.
  intros Ht Zt Hq Fq Hs Fs E Hx Hu.
  unfold denominator_func in E. repeat bind_inv E. look_inv.
  match goal with
  | Ed : _d_plus _ _ _ _ _ _ = Ok ?d, Hd : look3 ?d i j l = Some _ |- _ =>
      destruct (_d_plus_look _ _ _ _ _ _ _ _ _ _ _ Ed Hd)
        as (t' & zz & rr & qq & ss & Ht' & _ & _ & _ & Hs' & ->)
  end.
  look_inv.
  match goal with
  | Hg : look3 grid i j l = Some ?u |- _ => pose proof (Hu u Hg) as Zu
  end.
  rewrite d_plus_zero_denominator.
  - rewrite (standard_normal_cdf_zero dt zero eq_refl).
    rewrite exp_of_zero by (now apply mul_finite_zero). apply mul_one_half.
  - apply vol_zero_tau; auto. now apply sub_zero_zero.
Qed.

Lemma boundary_numerator_zero tau_grid b k r q sigma i j t r_i s_i
      num_points N v :
  look2 tau_grid i j = Some t -> is_zero t = true ->
  look1 r i = Some r_i -> is_finite r_i = true ->
  look1 sigma i = Some s_i -> is_finite s_i = true ->
  boundary_numerator dt tau_grid b k r q sigma num_points = Ok N ->
  look2 N i j = Some v -> v = half dt.
Proof.
  intros Ht Zt Hr Fr Hs Fs E Hv.
  pose proof (fun grid values l e =>
                numerator_func_zero tau_grid b r q sigma i j t r_i s_i
                  grid values l e Ht Zt Hr Fr Hs Fs) as Hfunc.
  unfold boundary_numerator in E. repeat bind_inv E. look_inv.
  match goal with
  | Ed : _d_minus _ _ _ _ _ _ = Ok ?d, Hd : look3 ?d i j _ = Some _ |- _ =>
      destruct (_d_minus_look _ _ _ _ _ _ _ _ _ _ _ Ed Hd)
        as (t' & zz & rr & qq & ss & Ht' & _ & _ & _ & Hs' & ->)
  end.
  look_inv.
  match goal with
  | Eg : gauss_legendre _ _ _ _ _ = Ok ?g, Hg : look2 ?g i j = Some ?gv |- _ =>
      assert (Zg : is_zero gv = true)
  end.
  { match goal with
    | Htt : look2 tau_grid i j = Some ?tt |- _ =>
        eapply (gauss_legendre_zero_interval _ _ _ _ _ i j _ zero tt);
        [ eassumption | eassumption
        | unfold zeros_like2; rewrite map2_look, Htt; reflexivity
        | exact Htt | reflexivity | assumption | ]
    end.
    intros grid values l e Ef He Hu.
    rewrite (Hfunc grid values l e Ef He Hu). apply half_regular. }
  rewrite d_minus_zero_denominator by (apply vol_zero_tau; auto).
  rewrite (standard_normal_cdf_zero dt zero eq_refl).
  apply add_half_zero. now apply mul_finite_zero.
Qed.

Lemma boundary_denominator_zero tau_grid b k r q sigma i j t q_i s_i
      num_points D v :
  look2 tau_grid i j = Some t -> is_zero t = true ->
  look1 q i = Some q_i -> is_finite q_i = true ->
  look1 sigma i = Some s_i -> is_finite s_i = true ->
  boundary_denominator dt tau_grid b k r q sigma num_points = Ok D ->
  look2 D i j = Some v -> v = half dt.
Proof.
  intros Ht Zt Hq Fq Hs Fs E Hv.
  pose proof (fun grid values l e =>
                denominator_func_zero tau_grid b r q sigma i j t q_i s_i
                  grid values l e Ht Zt Hq Fq Hs Fs) as Hfunc.
  unfold boundary_denominator in E. repeat bind_inv E. look_inv.
  match goal with
  | Ed : _d_plus _ _ _ _ _ _ = Ok ?d, Hd : look3 ?d i j _ = Some _ |- _ =>
      destruct (_d_plus_look _ _ _ _ _ _ _ _ _ _ _ Ed Hd)
        as (t' & zz & rr & qq & ss & Ht' & _ & _ & _ & Hs' & ->)
  end.
  look_inv.
  match goal with
  | Eg : gauss_legendre _ _ _ _ _ = Ok ?g, Hg : look2 ?g i j = Some ?gv |- _ =>
      assert (Zg : is_zero gv = true)
  end.
  { match goal with
    | Htt : look2 tau_grid i j = Some ?tt |- _ =>
        eapply (gauss_legendre_zero_interval _ _ _ _ _ i j _ zero tt);
        [ eassumption | eassumption
        | unfold zeros_like2; rewrite map2_look, Htt; reflexivity
        | exact Htt | reflexivity | assumption | ]
    end.
    intros grid values l e Ef He Hu.
    rewrite (Hfunc grid values l e Ef He Hu). apply half_regular. }
  rewrite d_plus_zero_denominator by (apply vol_zero_tau; auto).
  rewrite (standard_normal_cdf_zero dt zero eq_refl).
  apply add_half_zero. now apply mul_finite_zero.
Qed.
End ZeroMaturity.

(** C7.  spec-modelled quadrature.  For a batch of [m] options on a
    grid of [n >= 1] maturities, with finite rates and volatilities and the
    initial guess [b_0] as the boundary callable, both evaluators return,
    and at every grid point with [tau_grid[i,j] = 0] the numerator and the
    denominator are exactly [0.5] while the quadrature term is a zero. *)
Theorem evaluators_half_at_zero_maturity (dt : DType) (K : MathKernels dt)
        (G : GaussConstants) (m n : nat) (tau_grid : T2) (k r q sigma : T1)
        (integration_num_points : nat) :
  (1 <= n)%nat -> has_shape2 m n tau_grid ->
  has_shape1 m k -> has_shape1 m r -> has_shape1 m q -> has_shape1 m sigma ->
  legendre_roots integration_num_points <> None ->
  Forall (fun x => is_finite x = true) r ->
  Forall (fun x => is_finite x = true) q ->
  Forall (fun x => is_finite x = true) sigma ->
  exists N D integral_N integral_D,
    boundary_numerator dt tau_grid (b_0 dt k r q) k r q sigma
      integration_num_points = Ok N /\
    boundary_denominator dt tau_grid (b_0 dt k r q) k r q sigma
      integration_num_points = Ok D /\
    gauss_legendre dt (numerator_func dt tau_grid (b_0 dt k r q) r q sigma)
      (zeros_like2 tau_grid) tau_grid integration_num_points = Ok integral_N /\
    gauss_legendre dt (denominator_func dt tau_grid (b_0 dt k r q) r q sigma)
      (zeros_like2 tau_grid) tau_grid integration_num_points = Ok integral_D /\
    forall i j, (i < m)%nat -> (j < n)%nat ->
      is_zero (get2 tau_grid i j) = true ->
      get2 N i j = half dt /\ get2 D i j = half dt /\
      is_zero (get2 integral_N i j) = true /\
      is_zero (get2 integral_D i j) = true.
Proof.
  intros Hn1 St Sk Sr Sq Ss Hp Fr Fq Fs.
  pose proof (b_0_shape dt m k r q Sk Sr Sq) as Sb.
  destruct (boundary_numerator_shape dt m n tau_grid (b_0 dt k r q) k r q sigma
              Hn1 Sb St Sk Sr Sq Ss integration_num_points Hp)
    as (N & EN & SN).
  destruct (boundary_denominator_shape dt m n tau_grid (b_0 dt k r q) k r q sigma
              Hn1 Sb St Sk Sr Sq Ss integration_num_points Hp)
    as (D & ED & SD).
  destruct (gauss_legendre_shape dt m n
              (numerator_func dt tau_grid (b_0 dt k r q) r q sigma)
              (zeros_like2 tau_grid) tau_grid integration_num_points)
    as (IN & EIN & SIN); auto with shapes.
  { intros c u Hc Su. now apply (numerator_func_shape dt m n). }
  destruct (gauss_legendre_shape dt m n
              (denominator_func dt tau_grid (b_0 dt k r q) r q sigma)
              (zeros_like2 tau_grid) tau_grid integration_num_points)
    as (ID & EID & SID); auto with shapes.
  { intros c u Hc Su. now apply (denominator_func_shape dt m n). }
  exists N, D, IN, ID. repeat (split; [assumption|]).
  intros i j Hi Hj Zt.
  pose proof (look2_get2 m n tau_grid i j St Hi Hj) as Lt.
  pose proof (look1_get1 m r i Sr Hi) as Lr.
  pose proof (look1_get1 m q i Sq Hi) as Lq.
  pose proof (look1_get1 m sigma i Ss Hi) as Ls.
  assert (Fri : is_finite (get1 r i) = true).
  { rewrite Forall_forall in Fr. apply Fr. eapply blook_In. exact Lr. }
  assert (Fqi : is_finite (get1 q i) = true).
  { rewrite Forall_forall in Fq. apply Fq. eapply blook_In. exact Lq. }
  assert (Fsi : is_finite (get1 sigma i) = true).
  { rewrite Forall_forall in Fs. apply Fs. eapply blook_In. exact Ls. }
  assert (Lz : look2 (zeros_like2 tau_grid) i j = Some zero).
  { unfold zeros_like2. rewrite map2_look, Lt. reflexivity. }
  repeat split.
  - exact (boundary_numerator_zero dt tau_grid (b_0 dt k r q) k r q sigma i j
             _ _ _ integration_num_points N _ Lt Zt Lr Fri Ls Fsi EN
             (look2_get2 m n N i j SN Hi Hj)).
  - exact (boundary_denominator_zero dt tau_grid (b_0 dt k r q) k r q sigma i j
             _ _ _ integration_num_points D _ Lt Zt Lq Fqi Ls Fsi ED
             (look2_get2 m n D i j SD Hi Hj)).
  - apply (gauss_legendre_zero_interval dt _ _ _ _ _ i j _ zero
             (get2 tau_grid i j) EIN (look2_get2 m n IN i j SIN Hi Hj) Lz Lt
             eq_refl Zt).
    intros grid values l e Ef He Hu.
    rewrite (numerator_func_zero dt tau_grid (b_0 dt k r q) r q sigma i j
               _ _ _ grid values l e Lt Zt Lr Fri Ls Fsi Ef He Hu).
    apply half_regular.
  - apply (gauss_legendre_zero_interval dt _ _ _ _ _ i j _ zero
             (get2 tau_grid i j) EID (look2_get2 m n ID i j SID Hi Hj) Lz Lt
             eq_refl Zt).
    intros grid values l e Ef He Hu.
    rewrite (denominator_func_zero dt tau_grid (b_0 dt k r q) r q sigma i j
               _ _ _ grid values l e Lt Zt Lq Fqi Ls Fsi Ef He Hu).
    apply half_regular.
Qed.

Lemma evaluators_half_at_zero_maturity_witness :
  exists N D,
    boundary_numerator float64 (K := reference_kernels float64)
      (G := reference_tables_instance) Example.tau_grid
      (b_0 float64 (K := reference_kernels float64) Example.k Example.r Example.q)
      Example.k Example.r Example.q Example.sigma Example.num_points = Ok N /\
    boundary_denominator float64 (K := reference_kernels float64)
      (G := reference_tables_instance) Example.tau_grid
      (b_0 float64 (K := reference_kernels float64) Example.k Example.r Example.q)
      Example.k Example.r Example.q Example.sigma Example.num_points = Ok D /\
    get2 N 0 0 = half float64 /\ get2 D 1 0 = half float64.
Proof.
  destruct (evaluators_half_at_zero_maturity float64 (reference_kernels float64)
              reference_tables_instance 2 3 Example.tau_grid Example.k
              Example.r Example.q Example.sigma Example.num_points)
    as (N & D & IN & ID & EN & ED & _ & _ & H);
    try (repeat constructor); try discriminate.
  exists N, D. repeat (split; [assumption|]).
  split.
  - apply (H 0%nat 0%nat); [lia | lia | reflexivity].
  - apply (H 1%nat 0%nat); [lia | lia | reflexivity].
Defined.

(** ** The denominator without dividends *)

Lemma add_zero_same dt x y : is_zero y = true -> same_number (Float.add dt x y) x.
Proof.
  unfold same_number.
  destruct x as [[]|[]| |], y as [[]| | |]; try discriminate; simpl; auto.
Qed.

Lemma mul_zero_not_finite dt x y :
  is_zero x = true -> is_finite y = false -> Float.mul dt x y = S754_nan.
Proof. destruct x, y; try discriminate; reflexivity. Qed.

Lemma add_nan_r dt x : Float.add dt x S754_nan = S754_nan.
Proof. destruct x; reflexivity. Qed.

(** C10, as the code has it.  For a row with [q[i] = 0] the denominator is
    [term1 + 0 * integral]: it is the first term
    [Phi(d_plus(tau_grid[i,j], b(tau_grid[i,j]) / K[i], r[i], 0, sigma[i]))]
    whenever the quadrature value is finite, and NaN when the quadrature
    value is NaN or an infinity. *)
Theorem boundary_denominator_zero_dividend (dt : DType) (K : MathKernels dt)
        (G : GaussConstants) (tau_grid : T2) (b : T3 -> result T3)
        (k r q sigma : T1) (integration_num_points : nat) (D : T2)
        (i j : nat) (v q_i : F) :
  boundary_denominator dt tau_grid b k r q sigma integration_num_points = Ok D ->
  look2 D i j = Some v ->
  look1 q i = Some q_i -> is_zero q_i = true ->
  exists integral g b_tau b_ij t k_i r_i s_i,
    gauss_legendre dt (denominator_func dt tau_grid b r q sigma)
      (zeros_like2 tau_grid) tau_grid integration_num_points = Ok integral /\
    look2 integral i j = Some g /\
    b (expand_dims2 tau_grid) = Ok b_tau /\ look3 b_tau i j 0 = Some b_ij /\
    look2 tau_grid i j = Some t /\ look1 k i = Some k_i /\
    look1 r i = Some r_i /\ look1 sigma i = Some s_i /\
    let term1 :=
      _standard_normal_cdf dt
        (d_plus dt t (Float.div dt b_ij k_i) r_i q_i s_i) in
    v = Float.add dt term1 (Float.mul dt q_i g) /\
    (is_finite g = true -> same_number v term1) /\
    (is_finite g = false -> v = S754_nan).
Proof.
  intros E Hv Hq Zq. unfold boundary_denominator in E. repeat bind_inv E.
  look_inv.
  match goal with
  | Ed : _d_plus _ _ _ _ _ _ = Ok ?d, Hd : look3 ?d i j _ = Some _ |- _ =>
      destruct (_d_plus_look _ _ _ _ _ _ _ _ _ _ _ Ed Hd)
        as (t' & zz & rr & qq & ss & Ht' & Hz' & Hr' & Hq' & Hs' & ->)
  end.
  look_inv.
  do 8 eexists. repeat (split; [eassumption|]).
  cbv zeta. split; [reflexivity|]. split.
  - intros Fg. apply add_zero_same. apply mul_zero_finite; assumption.
  - intros Fg. rewrite mul_zero_not_finite by assumption. apply add_nan_r.
Qed.

Lemma boundary_denominator_zero_dividend_witness :
  exists (D : T2) (q_i v g : F),
    boundary_denominator float64 (K := reference_kernels float64)
      (G := reference_tables_instance) Example.tau_grid
      (b_0 float64 (K := reference_kernels float64) Example.k Example.r
           [zero; zero])
      Example.k Example.r [zero; zero] Example.sigma Example.num_points = Ok D /\
    look2 D 0 1 = Some v /\ look1 [zero; zero] 0 = Some q_i /\
    is_zero q_i = true /\
    v = Float.add float64
          (_standard_normal_cdf float64 (K := reference_kernels float64)
             (d_plus float64 (K := reference_kernels float64)
                (Float.lit float64 5 1)
                (Float.div float64 (Float.of_Z float64 100)
                           (Float.of_Z float64 100))
                (Float.lit float64 1 2) q_i (Float.lit float64 1 1)))
          (Float.mul float64 q_i g).
Proof.
  pose (res := boundary_denominator float64 (K := reference_kernels float64)
      (G := reference_tables_instance) Example.tau_grid
      (b_0 float64 (K := reference_kernels float64) Example.k Example.r
           [zero; zero])
      Example.k Example.r [zero; zero] Example.sigma Example.num_points).
  assert (Hok : exists D v, res = Ok D /\ look2 D 0 1 = Some v).
  { vm_compute. do 2 eexists. split; reflexivity. }
  destruct Hok as (D & v & E & Hv). unfold res in E.
  destruct (boundary_denominator_zero_dividend float64
              (reference_kernels float64) reference_tables_instance
              Example.tau_grid _ Example.k Example.r [zero; zero] Example.sigma
              Example.num_points D 0 1 v zero E Hv eq_refl eq_refl)
    as (integral & g & b_tau & b_ij & t & k_i & r_i & s_i
        & _ & _ & Eb & Hb & Ht & Hk & Hr & Hs & Hterm & _).
  exists D, zero, v, g. repeat (split; [assumption || reflexivity|]).
  injection Ht as <-. injection Hk as <-. injection Hr as <-. injection Hs as <-.
  vm_compute in Eb. injection Eb as <-. vm_compute in Hb. injection Hb as <-.
  exact Hterm.
Defined.

(** C10, as stated, fails: with [q = 0] and the trial boundary
    [zero_boundary], whose ratio [b(tau) / b(u)] is NaN, the quadrature
    value at [tau = 0.5] is NaN; the first term there is [0] and the
    denominator is NaN. *)
Lemma boundary_denominator_nan_integral :
  let q := [zero; zero] in
  boundary_denominator float64 (K := reference_kernels float64)
    (G := reference_tables_instance) Example.tau_grid zero_boundary
    Example.k Example.r q Example.sigma Example.num_points
  = Ok [[half float64; S754_nan; S754_nan]; [half float64; S754_nan; S754_nan]] /\
  _standard_normal_cdf float64 (K := reference_kernels float64)
    (d_plus float64 (K := reference_kernels float64) (Float.lit float64 5 1)
       (Float.div float64 zero (Float.of_Z float64 100))
       (Float.lit float64 1 2) zero (Float.lit float64 1 1)) = zero.
Proof. split; vm_compute; reflexivity. Qed.

(** ** Row-wise computations *)

(** One step of a computation on row [i], read off the same step on the
    batch. *)
Ltac sim_step i :=
  first
    [ rewrite <- (brow_map3 _ i)
    | rewrite <- (brow_map2 _ i)
    | rewrite <- (brow_expand_dims2 i)
    | rewrite <- (brow_expand_dims1 i)
    | rewrite <- (brow_zeros_like2 i)
    | rewrite <- (brow_ones_like3 _ i)
    | rewrite bind_assoc
    | match goal with
      | E : ew3 ?f ?a ?b = Ok ?c |- context [ew3 ?f (brow i ?a) (brow i ?b)] =>
          rewrite (ew3_brow f a b c i E); rewrite ?bind_ret; cbv beta
      | E : ew3 ?f ?a (lift13 ?g) = Ok ?c
        |- context [ew3 ?f (brow i ?a) (lift13 ?g)] =>
          rewrite (ew3_brow_lift f a g c i E); rewrite ?bind_ret; cbv beta
      | E : ew2 ?f ?a ?b = Ok ?c |- context [ew2 ?f (brow i ?a) (brow i ?b)] =>
          rewrite (ew2_brow f a b c i E); rewrite ?bind_ret; cbv beta
      | E : squeeze_last ?t = Ok ?s |- context [squeeze_last (brow i ?t)] =>
          rewrite (squeeze_last_brow t s i E); rewrite ?bind_ret; cbv beta
      end ].

(** A step that was run twice returned the same tensor. *)
Ltac ok_merge :=
  repeat match goal with
  | H1 : ?t = Ok ?a, H2 : ?t = Ok ?b |- _ =>
      first [ constr_eq a b; clear H2
            | assert (a = b) by congruence; first [subst a | subst b] ]
  end.

(** The shape of the result of a step that succeeded. *)
Lemma ew3_ok_shape f a b c m1 n1 p1 m2 n2 p2 :
  has_shape3 m1 n1 p1 a -> has_shape3 m2 n2 p2 b ->
  compat m1 m2 -> compat n1 n2 -> compat p1 p2 ->
  ew3 f a b = Ok c ->
  has_shape3 (bdim m1 m2) (bdim n1 n2) (bdim p1 p2) c.
Proof.
  intros Ha Hb Hm Hn Hp E.
  destruct (ew3_shape f a b _ _ _ _ _ _ Ha Hb Hm Hn Hp) as (c' & E' & S').
  congruence.
Qed.

Ltac shape_from E :=
  match type of E with
  | ew3 ?f ?a ?b = Ok ?c =>
      let Ha := fresh "Sa" in let Hb := fresh "Sb" in
      eassert (Ha : has_shape3 _ _ _ a) by eauto with shapes;
      eassert (Hb : has_shape3 _ _ _ b) by eauto with shapes;
      let Sc := fresh "S" in
      assert (Sc := E);
      eapply (ew3_ok_shape f a b c _ _ _ _ _ _ Ha Hb) in Sc;
      [ rewrite ?bdim_same, ?bdim_1_r, ?bdim_1_l in Sc
      | unfold compat; auto .. ];
      clear Ha Hb
  end.

Section Rows.
Context (dt : DType) {K : MathKernels dt} {G : GaussConstants}.
Variable i : nat.

Lemma _d_plus_brow tau z r q sigma d :
  _d_plus dt tau z r q sigma = Ok d ->
  _d_plus dt (brow i tau) (brow i z) (brow i r) (brow i q) (brow i sigma)
  = Ok (brow i d).
Proof.
  unfold _d_plus. intros E. cbv zeta in *. repeat bind_inv E.
  repeat sim_step i. reflexivity.
Qed.

Lemma _d_minus_brow tau z r q sigma d :
  _d_minus dt tau z r q sigma = Ok d ->
  _d_minus dt (brow i tau) (brow i z) (brow i r) (brow i q) (brow i sigma)
  = Ok (brow i d).
Proof.
  unfold _d_minus. intros E. repeat bind_inv E.
  rewrite (_d_plus_brow _ _ _ _ _ _ E0). cbn [bind].
  repeat sim_step i. reflexivity.
Qed.

Lemma reduce_sum_last_brow (t : T3) :
  brow i (reduce_sum_last dt t) = reduce_sum_last dt (brow i t).
Proof. apply brow_map. Qed.

Lemma gauss_legendre_brow m n func func_i lower upper num_points g :
  (forall c u v, (1 <= c)%nat -> has_shape3 m n c u ->
     func u = Ok v -> func_i (brow i u) = Ok (brow i v)) ->
  has_shape2 m n lower -> has_shape2 m n upper ->
  gauss_legendre dt func lower upper num_points = Ok g ->
  gauss_legendre dt func_i (brow i lower) (brow i upper) num_points
  = Ok (brow i g).
Proof.
  intros Hf Sl Su E. unfold gauss_legendre in *.
  destruct (legendre_roots num_points) as [roots|] eqn:Er; [|discriminate].
  destruct (legendre_tables _ _ Er) as (weights & Ew & Lr & Lw & Hp & _).
  rewrite Ew in *. cbv zeta in *. repeat bind_inv E. injection E as <-.
  ok_merge.
  assert (Sr : has_shape1 num_points (map1 (Float.cast dt) roots))
    by (apply map1_shape; exact Lr).
  shape_from E0. shape_from E1. shape_from E2. shape_from E3.
  pose proof (Hf _ _ _ Hp S2 E4) as Ef.
  repeat sim_step i. rewrite Ef. cbn [bind]. repeat sim_step i.
  now rewrite reduce_sum_last_brow, brow_map3.
Qed.

Section RowEvaluators.
Variables (m n : nat) (tau_grid : T2) (b b_i : T3 -> result T3) (k r q sigma : T1).
Hypothesis Hn : (1 <= n)%nat.
Hypothesis Hb : row_related m i b b_i.
Hypothesis St : has_shape2 m n tau_grid.

Lemma boundary_ratio_brow c u v :
  (1 <= c)%nat -> has_shape3 m n c u ->
  boundary_ratio dt tau_grid b u = Ok v ->
  boundary_ratio dt (brow i tau_grid) b_i (brow i u) = Ok (brow i v).
Proof.
  intros Hc Su E. unfold boundary_ratio in *. repeat bind_inv E.
  assert (Se : has_shape3 m n 1 (expand_dims2 tau_grid)) by auto with shapes.
  rewrite <- brow_expand_dims2.
  rewrite (Hb n 1 _ _ Hn (le_n 1) Se E0). cbn [bind].
  rewrite (Hb n c _ _ Hn Hc Su E1). cbn [bind].
  now apply ew3_brow.
Qed.

Lemma numerator_func_brow c u v :
  (1 <= c)%nat -> has_shape3 m n c u ->
  numerator_func dt tau_grid b r q sigma u = Ok v ->
  numerator_func dt (brow i tau_grid) b_i (brow i r) (brow i q) (brow i sigma)
                 (brow i u) = Ok (brow i v).
Proof.
  intros Hc Su E. unfold numerator_func in *. repeat bind_inv E.
  rewrite (boundary_ratio_brow c u _ Hc Su E0). cbn [bind].
  repeat sim_step i.
  rewrite (_d_minus_brow _ _ _ _ _ _ E2). cbn [bind].
  repeat sim_step i. reflexivity.
Qed.

Lemma denominator_func_brow c u v :
  (1 <= c)%nat -> has_shape3 m n c u ->
  denominator_func dt tau_grid b r q sigma u = Ok v ->
  denominator_func dt (brow i tau_grid) b_i (brow i r) (brow i q) (brow i sigma)
                   (brow i u) = Ok (brow i v).
Proof.
  intros Hc Su E. unfold denominator_func in *. repeat bind_inv E.
  rewrite (boundary_ratio_brow c u _ Hc Su E0). cbn [bind].
  repeat sim_step i.
  rewrite (_d_plus_brow _ _ _ _ _ _ E2). cbn [bind].
  repeat sim_step i. reflexivity.
Qed.

Lemma boundary_numerator_brow num_points N :
  boundary_numerator dt tau_grid b k r q sigma num_points = Ok N ->
  boundary_numerator dt (brow i tau_grid) b_i (brow i k) (brow i r) (brow i q)
                     (brow i sigma) num_points = Ok (brow i N).
Proof.
  intros E. unfold boundary_numerator in *. repeat bind_inv E.
  assert (Se : has_shape3 m n 1 (expand_dims2 tau_grid)) by auto with shapes.
  repeat sim_step i.
  rewrite (Hb n 1 _ _ Hn (le_n 1) Se E0). cbn [bind].
  repeat sim_step i.
  rewrite (_d_minus_brow _ _ _ _ _ _ E2). cbn [bind].
  repeat sim_step i.
  rewrite (gauss_legendre_brow m n
             (numerator_func dt tau_grid b r q sigma)
             (numerator_func dt (brow i tau_grid) b_i (brow i r) (brow i q)
                             (brow i sigma))
             _ _ num_points _ numerator_func_brow
             (zeros_like2_shape _ _ _ St) St E4).
  cbn [bind]. repeat sim_step i. reflexivity.
Qed.

Lemma boundary_denominator_brow num_points D :
  boundary_denominator dt tau_grid b k r q sigma num_points = Ok D ->
  boundary_denominator dt (brow i tau_grid) b_i (brow i k) (brow i r) (brow i q)
                       (brow i sigma) num_points = Ok (brow i D).
Proof.
  intros E. unfold boundary_denominator in *. repeat bind_inv E.
  assert (Se : has_shape3 m n 1 (expand_dims2 tau_grid)) by auto with shapes.
  repeat sim_step i.
  rewrite (Hb n 1 _ _ Hn (le_n 1) Se E0). cbn [bind].
  repeat sim_step i.
  rewrite (_d_plus_brow _ _ _ _ _ _ E2). cbn [bind].
  repeat sim_step i.
  rewrite (gauss_legendre_brow m n
             (denominator_func dt tau_grid b r q sigma)
             (denominator_func dt (brow i tau_grid) b_i (brow i r) (brow i q)
                               (brow i sigma))
             _ _ num_points _ denominator_func_brow
             (zeros_like2_shape _ _ _ St) St E4).
  cbn [bind]. repeat sim_step i. reflexivity.
Qed.
End RowEvaluators.

Lemma b_0_row_related m k r q :
  row_related m i (b_0 dt k r q) (b_0 dt (brow i k) (brow i r) (brow i q)).
Proof.
  intros n c u v Hn Hc Su E. unfold b_0 in *. cbv zeta in *.
  repeat bind_inv E. repeat sim_step i. reflexivity.
Qed.
End Rows.

Section RowSolver.
Context (dt : DType) {K : MathKernels dt} {G : GaussConstants} {S : SplineLib}.
Variables (m n i : nat) (tau_grid : T2) (k r q sigma : T1).
Variables (tolerance : F) (integration_num_points : nat).
Hypothesis Hv : valid_shapes m n tau_grid k r q sigma.
Hypothesis Hi : (i < m)%nat.

Lemma row_valid_shapes :
  valid_shapes 1 n (brow i tau_grid) (brow i k) (brow i r) (brow i q)
               (brow i sigma).
Proof.
  destruct Hv as (Hm & Hn & St & Sk & Sr & Sq & Ss).
  unfold valid_shapes. repeat split; try lia;
    try (now apply (brow_shape1 m)); try (now apply (brow_shape2 m n));
    try (apply brow_Forall; apply St).
Qed.

Lemma boundary_fn_row_related values params params_i :
  has_shape2 m n values ->
  build_spline tau_grid values = Ok params ->
  build_spline (brow i tau_grid) (brow i values) = Ok params_i ->
  row_related m i (new_exercise_boundary_fn params)
              (new_exercise_boundary_fn params_i).
Proof.
  destruct Hv as (Hm & Hn & St & _).
  intros Sv Eb Ei n' c u v Hn' Hc Su E.
  destruct (boundary_fn_spec m n tau_grid values params Hm St Sv Eb n' c u
              Hn' Hc Su) as (y & _ & Ey & Sy & _ & Efn & _).
  rewrite Efn in E. injection E as <-.
  destruct (spline_row_local m n (n' * c) tau_grid values params
              (map flatten2 u) y i St Sv (flatten_rows_shape _ _ _ _ Su) Hi Eb Ey)
    as (p' & Ep' & Ey').
  assert (p' = params_i) by congruence. subst p'.
  destruct (boundary_fn_spec 1 n (brow i tau_grid) (brow i values) params_i
              (le_n 1) (brow_shape2 m n i _ St Hi) (brow_shape2 m n i _ Sv Hi)
              Ei n' c (brow i u) Hn' Hc (brow_shape3 m n' c i u Su Hi))
    as (y' & _ & Ey'' & _ & _ & Efn' & _).
  rewrite Efn'. rewrite <- brow_map in Ey''.
  assert (y' = brow i y) by congruence. subst y'.
  now rewrite brow_map.
Qed.

Lemma body_brow vars vars' :
  has_shape2 m n (snd vars) ->
  legendre_roots integration_num_points <> None ->
  body dt tau_grid k r q sigma tolerance integration_num_points vars = Ok vars' ->
  exists converged,
    body dt (brow i tau_grid) (brow i k) (brow i r) (brow i q) (brow i sigma)
         tolerance integration_num_points (fst vars, brow i (snd vars))
    = Ok (converged, brow i (snd vars')).
Proof.
  intros SB Hp E.
  destruct row_valid_shapes as (_ & Hn & St' & _).
  destruct Hv as (Hm & _ & St & Sk & Sr & Sq & Ss).
  unfold body in *. cbv zeta in *. cbn [snd] in *.
  unfold relative_change in *. repeat bind_inv E. injection E as <-.
  bind_inv E8. cbn [snd].
  destruct (build_spline_ok 1 n (brow i tau_grid) (brow i (snd vars)) Hn St'
              (brow_shape2 m n i _ SB Hi)) as (p_i & Ep).
  rewrite Ep. cbn [bind].
  pose proof (boundary_fn_row_related (snd vars) x p_i SB E0 Ep) as Hrel.
  assert (Hn1 : (1 <= n)%nat) by lia.
  rewrite (boundary_numerator_brow dt i m n tau_grid
             (current_exercise_boundary_fn x) (current_exercise_boundary_fn p_i)
             k r q sigma Hn1 Hrel St integration_num_points _ E1).
  cbn [bind].
  rewrite (boundary_denominator_brow dt i m n tau_grid
             (current_exercise_boundary_fn x) (current_exercise_boundary_fn p_i)
             k r q sigma Hn1 Hrel St integration_num_points _ E2).
  cbn [bind]. repeat sim_step i. eexists. reflexivity.
Qed.

Lemma initial_guess_brow initial :
  (t <- b_0 dt k r q (expand_dims2 tau_grid) ;; squeeze_last t) = Ok initial ->
  (t <- b_0 dt (brow i k) (brow i r) (brow i q)
          (expand_dims2 (brow i tau_grid)) ;; squeeze_last t)
  = Ok (brow i initial).
Proof.
  intros E. bind_inv E.
  destruct Hv as (Hm & Hn & St & _).
  rewrite <- brow_expand_dims2.
  rewrite (b_0_row_related dt i m k r q n 1 (expand_dims2 tau_grid) x);
    auto with shapes; try lia.
  cbn [bind]. now apply squeeze_last_brow.
Qed.

(** The same number of iterations on the batch and on row [i] alone leads to
    the same samples for row [i]. *)
Lemma iterates_brow count :
  legendre_roots integration_num_points <> None ->
  forall s_b f_b s_r f_r,
    has_shape2 m n (snd s_b) -> snd s_r = brow i (snd s_b) ->
    iterates cond
      (body dt tau_grid k r q sigma tolerance integration_num_points)
      count s_b f_b ->
    iterates cond
      (body dt (brow i tau_grid) (brow i k) (brow i r) (brow i q) (brow i sigma)
            tolerance integration_num_points)
      count s_r f_r ->
    has_shape2 m n (snd f_b) /\ snd f_r = brow i (snd f_b).
Proof.
  intros Hp. induction count as [|count IH]; intros s_b f_b s_r f_r SB Hs Hb Hr.
  - inversion Hb; subst. inversion Hr; subst. auto.
  - inversion Hb as [|? ? s_b' ? _ Eb Hb']; subst.
    inversion Hr as [|? ? s_r' ? _ Er Hr']; subst.
    destruct (body_shape dt m n tau_grid k r q sigma tolerance
                integration_num_points Hv Hp s_b SB) as (s' & Es & SB').
    assert (s' = s_b') by congruence. subst s'.
    destruct (body_brow s_b s_b' SB Hp Eb) as (c & Ec).
    destruct s_r as [c_r B_r]. cbn [snd] in Hs. subst B_r.
    change (body dt (brow i tau_grid) (brow i k) (brow i r) (brow i q)
                 (brow i sigma) tolerance integration_num_points
                 (c_r, brow i (snd s_b)))
      with (body dt (brow i tau_grid) (brow i k) (brow i r) (brow i q)
                 (brow i sigma) tolerance integration_num_points
                 (fst s_b, brow i (snd s_b))) in Er.
    rewrite Ec in Er. injection Er as <-.
    apply (IH s_b' f_b (c, brow i (snd s_b')) f_r); auto.
Qed.
End RowSolver.

(** ** Row [i] of the relative change *)

Lemma relative_change_brow dt i new current change :
  relative_change dt new current = Ok change ->
  relative_change dt (brow i new) (brow i current) = Ok (brow i change).
Proof.
  unfold relative_change. intros E. repeat bind_inv E.
  repeat sim_step i. reflexivity.
Qed.

Lemma flatten2_brow_incl i (t : T2) v :
  In v (flatten2 (brow i t)) -> In v (flatten2 t).
Proof.
  unfold brow, flatten2. destruct (blook t i) as [row|] eqn:E; simpl; [|tauto].
  rewrite app_nil_r. intros H. apply in_concat. exists row.
  split; [eapply blook_In; eauto | exact H].
Qed.

Section RowFlags.
Context (dt : DType) {K : MathKernels dt} {G : GaussConstants} {S : SplineLib}.
Variables (m n i : nat) (tau_grid : T2) (k r q sigma : T1).
Variables (tolerance : F) (integration_num_points : nat).
Hypothesis Hv : valid_shapes m n tau_grid k r q sigma.
Hypothesis Hi : (i < m)%nat.
Hypothesis Hp : legendre_roots integration_num_points <> None.

Local Abbreviation body_b :=
  (body dt tau_grid k r q sigma tolerance integration_num_points).
Local Abbreviation body_r :=
  (body dt (brow i tau_grid) (brow i k) (brow i r) (brow i q) (brow i sigma)
        tolerance integration_num_points).

(** The iteration on row [i] alone, with its flag: when the relative change
    of the batch has no NaN entry, convergence of the batch implies
    convergence of the row. *)
Lemma body_brow_flag vars vars' :
  has_shape2 m n (snd vars) -> body_b vars = Ok vars' ->
  exists converged_r,
    body_r (fst vars, brow i (snd vars)) = Ok (converged_r, brow i (snd vars')) /\
    (nan_free_step dt vars vars' -> fst vars' = true -> converged_r = true).
Proof.
  intros SB E.
  destruct (body_brow dt m n i tau_grid k r q sigma tolerance
              integration_num_points Hv Hi vars vars' SB Hp E) as (c_r & Er).
  exists c_r. split; [exact Er|].
  intros (change & Ec & Hnn) Hc.
  destruct vars' as [c_b new]. cbn [fst snd] in *. subst c_b.
  destruct (body_shape dt m n tau_grid k r q sigma tolerance
              integration_num_points Hv Hp vars SB) as (v' & E' & Sn).
  assert (v' = (true, new)) by congruence. subst v'. cbn [snd] in Sn.
  destruct (relative_change_shape dt m n new (snd vars) Sn SB)
    as (change' & Ec' & Sc).
  assert (change' = change) by congruence. subst change'.
  destruct (body_inv dt tau_grid k r q sigma tolerance integration_num_points
              vars true new E)
    as (_ & _ & _ & ch & _ & _ & _ & Ech & Hflag & _).
  assert (ch = change) by congruence. subst ch.
  destruct (body_inv dt (brow i tau_grid) (brow i k) (brow i r) (brow i q)
              (brow i sigma) tolerance integration_num_points
              (fst vars, brow i (snd vars)) c_r (brow i new) Er)
    as (_ & _ & _ & ch_r & _ & _ & _ & Ech_r & -> & _).
  cbn [snd] in Ech_r.
  rewrite (relative_change_brow dt i _ _ _ Ec) in Ech_r.
  injection Ech_r as <-.
  assert (Hnn_r : Forall not_nan (flatten2 (brow i change))).
  { rewrite Forall_forall in *. intros x Hx. apply Hnn.
    now apply (flatten2_brow_incl i). }
  destruct Hv as (Hm & Hn & _).
  pose proof (brow_shape2 m n i change Sc Hi) as Sr.
  destruct (reduce_max_spec dt (brow i change) Hnn_r) as (_ & Hin).
  specialize (Hin (flatten2_nonempty 1 n _ Sr (le_n 1) ltac:(lia))).
  apply flatten2_brow_incl in Hin.
  destruct (reduce_max_spec dt change Hnn) as (Hmax & _).
  apply leb_trans with (reduce_max dt change); [now apply Hmax | now symmetry].
Qed.

(** The solve of row [i] alone is a prefix of the solve of the batch. *)
Lemma iterates_brow_prefix count_b s_b f_b :
  iterates cond body_b count_b s_b f_b ->
  forall d s_r,
    count_b = d \/ ((count_b <= d)%nat /\ fst f_b = true) ->
    has_shape2 m n (snd s_b) -> snd s_r = brow i (snd s_b) ->
    (fst s_b = true -> fst s_r = true) ->
    (forall c s s', iterates cond body_b c s_b s -> cond s = true ->
                    body_b s = Ok s' -> nan_free_step dt s s') ->
    exists count_r mid f_r,
      (count_r <= count_b)%nat /\
      iterates cond body_b count_r s_b mid /\
      iterates cond body_r count_r s_r f_r /\
      snd f_r = brow i (snd mid) /\
      (count_r = d \/ ((count_r <= d)%nat /\ fst f_r = true)).
Proof.
  intros H. induction H as [s_b|c s_b s1 f_b Hc Eb Hrest IH];
    intros d s_r Hstop SB Hs Hflag Hnan.
  - exists 0%nat, s_b, s_r.
    split; [lia|]. split; [constructor|]. split; [constructor|].
    split; [exact Hs|].
    destruct Hstop as [<-|[_ Hf]]; [now left | right; split; [lia | auto]].
  - destruct (fst s_r) eqn:Fr.
    + exists 0%nat, s_b, s_r.
      split; [lia|]. split; [constructor|]. split; [constructor|].
      split; [exact Hs|]. right. split; [lia | exact Fr].
    + destruct d as [|d]; [destruct Hstop as [?|[? _]]; lia|].
      destruct (body_brow_flag s_b s1 SB Eb) as (c_r & Er & Hmono).
      destruct (body_shape dt m n tau_grid k r q sigma tolerance
                  integration_num_points Hv Hp s_b SB) as (s1' & E1 & S1).
      assert (s1' = s1) by congruence. subst s1'.
      destruct (IH d (c_r, brow i (snd s1))) as (cr & mid & f_r & Hle & Hb & Hr & Hsnd & Hst).
      * destruct Hstop as [Hd|[Hd Hf]]; [left; lia | right; split; [lia | exact Hf]].
      * exact S1.
      * reflexivity.
      * cbn [fst]. apply Hmono. apply (Hnan 0%nat s_b s1); [constructor | exact Hc | exact Eb].
      * intros c0 s s' Hit Hcs Hbs. apply (Hnan (Datatypes.S c0) s s'); auto.
        econstructor; eauto.
      * exists (Datatypes.S cr), mid, f_r.
        split; [lia|]. split; [econstructor; eauto|]. split; [|split; [exact Hsnd|]].
        -- destruct s_r as [c0 B_r]. cbn [fst snd] in *. subst c0 B_r.
           econstructor; [reflexivity | | exact Hr].
           exact Er.
        -- destruct Hst as [->|[Hd Hf]]; [now left | right; split; [lia | exact Hf]].
Qed.
End RowFlags.

(** ** A batch and one of its rows *)

(** C9, as the code has it.  On inputs of consistent shapes both the solve
    of the batch and the solve of row [i] alone return.  Every iteration
    updates row [i] of the batch exactly as it updates row [i] alone, but
    the convergence flag is computed over the whole batch: when the
    relative change has no NaN entry, an iteration that reports convergence
    for the batch reports it for the row alone as well.  So, as long as no
    relative change of the batch solve has a NaN entry, the solve of row
    [i] alone performs [count_r <= count_b] iterations and ends with row
    [i] of the samples the batch solve had after [count_r] iterations; when
    the two solves perform the same number of iterations, the final
    samples of row [i] and the returned callables agree on row [i]. *)
Theorem batch_row_solve (dt : DType) (K : MathKernels dt) (G : GaussConstants)
        (S : SplineLib) (m n i : nat) (tau_grid : T2) (k r q sigma : T1)
        (max_depth : nat) (tolerance : F) (integration_num_points : nat) :
  valid_shapes m n tau_grid k r q sigma -> (i < m)%nat ->
  legendre_roots integration_num_points <> None ->
  let body_b := body dt tau_grid k r q sigma tolerance integration_num_points in
  let body_r := body dt (brow i tau_grid) (brow i k) (brow i r) (brow i q)
                     (brow i sigma) tolerance integration_num_points in
  exists initial count_b final_b params_b count_r final_r params_r,
    (t <- b_0 dt k r q (expand_dims2 tau_grid) ;; squeeze_last t) = Ok initial /\
    iterates cond body_b count_b (false, initial) final_b /\
    (count_b <= max_depth)%nat /\
    (count_b = max_depth \/ fst final_b = true) /\
    exercise_boundary dt tau_grid k r q sigma max_depth tolerance
      integration_num_points = Ok (new_exercise_boundary_fn params_b) /\
    iterates cond body_r count_r (false, brow i initial) final_r /\
    (count_r <= max_depth)%nat /\
    (count_r = max_depth \/ fst final_r = true) /\
    exercise_boundary dt (brow i tau_grid) (brow i k) (brow i r) (brow i q)
      (brow i sigma) max_depth tolerance integration_num_points
      = Ok (new_exercise_boundary_fn params_r) /\
    (forall vars vars',
       has_shape2 m n (snd vars) -> body_b vars = Ok vars' ->
       exists converged_r,
         body_r (fst vars, brow i (snd vars))
         = Ok (converged_r, brow i (snd vars')) /\
         (nan_free_step dt vars vars' -> fst vars' = true ->
          converged_r = true)) /\
    ((forall c s s', iterates cond body_b c (false, initial) s ->
                     cond s = true -> body_b s = Ok s' ->
                     nan_free_step dt s s') ->
     (count_r <= count_b)%nat /\
     exists prefix_b,
       iterates cond body_b count_r (false, initial) prefix_b /\
       snd final_r = brow i (snd prefix_b)) /\
    (count_r = count_b ->
       snd final_r = brow i (snd final_b) /\
       row_related m i (new_exercise_boundary_fn params_b)
                   (new_exercise_boundary_fn params_r)).
Proof.
  intros Hv Hi Hp body_b body_r.
  pose proof (row_valid_shapes m n i tau_grid k r q sigma Hv Hi) as Hv_r.
  destruct (exercise_boundary_total dt m n tau_grid k r q sigma tolerance
              integration_num_points Hv Hp max_depth)
    as (init_b & count_b & final_b & params_b
        & Ei_b & Hle_b & It_b & Stop_b & Sf_b & Ep_b & E_b).
  destruct (exercise_boundary_total dt 1 n (brow i tau_grid) (brow i k)
              (brow i r) (brow i q) (brow i sigma) tolerance
              integration_num_points Hv_r Hp max_depth)
    as (init_r & count_r & final_r & params_r
        & Ei_r & Hle_r & It_r & Stop_r & _ & Ep_r & E_r).
  pose proof (initial_guess_brow dt m n i tau_grid k r q sigma Hv Hi init_b Ei_b)
    as Ei.
  assert (init_r = brow i init_b) by congruence. subst init_r.
  assert (Si : has_shape2 m n (snd (false, init_b))).
  { destruct (initial_guess_shape dt m n tau_grid k r q sigma Hv)
      as (init' & E' & S'). cbn [snd]. congruence. }
  exists init_b, count_b, final_b, params_b, count_r, final_r, params_r.
  repeat (split; [assumption|]). split; [|split].
  - intros vars vars' SB Eb.
    exact (body_brow_flag dt m n i tau_grid k r q sigma tolerance
             integration_num_points Hv Hi Hp vars vars' SB Eb).
  - intros Hnan.
    destruct (iterates_brow_prefix dt m n i tau_grid k r q sigma tolerance
                integration_num_points Hv Hi Hp count_b (false, init_b) final_b
                It_b max_depth (false, brow i init_b))
      as (cr & mid & f_r & Hle & Hb & Hr & Hsnd & Hst); auto.
    { destruct Stop_b as [?|Hf]; [now left | right; split; [exact Hle_b | exact Hf]]. }
    destruct (iterates_stop_unique cond body_r max_depth cr count_r
                (false, brow i init_b) f_r final_r Hr) as [-> ->]; auto.
    + destruct Hst as [?|[? Hf]]; [now left | right; split; [auto|]].
      unfold cond. now rewrite Hf.
    + destruct Stop_r as [?|Hf]; [now left | right; split; [auto|]].
      unfold cond. now rewrite Hf.
    + split; [exact Hle|]. exists mid. auto.
  - intros Hc. subst count_r.
    destruct (iterates_brow dt m n i tau_grid k r q sigma tolerance
                integration_num_points Hv Hi count_b Hp
                (false, init_b) final_b (false, brow i init_b) final_r
                Si eq_refl It_b It_r) as (_ & Hf).
    split; [exact Hf|].
    rewrite Hf in Ep_r.
    exact (boundary_fn_row_related m n i tau_grid k r q sigma Hv Hi
             (snd final_b) params_b params_r Sf_b Ep_b Ep_r).
Qed.

(** The batch of the example, solved with tolerance [0.1]. *)
Definition example_body_loose : bool * T2 -> result (bool * T2) :=
  body float64 (K := reference_kernels float64) (G := reference_tables_instance)
       (S := reference_spline float64)
       Example.tau_grid Example.k Example.r Example.q Example.sigma
       (Float.lit float64 1 1) Example.num_points.

Ltac nan_free_by_computation :=
  unfold nan_free_step; eexists; split;
  [ vm_compute; reflexivity | vm_compute; repeat constructor ].

Definition example_row_body_loose : bool * T2 -> result (bool * T2) :=
  body float64 (K := reference_kernels float64) (G := reference_tables_instance)
       (S := reference_spline float64)
       (brow 0 Example.tau_grid) (brow 0 Example.k) (brow 0 Example.r)
       (brow 0 Example.q) (brow 0 Example.sigma)
       (Float.lit float64 1 1) Example.num_points.

(** That solve converges after three iterations, and no relative change on
    the way has a NaN entry. *)
Lemma example_batch_run :
  (exists final,
     iterates cond example_body_loose 3 (false, Example.initial) final /\
     fst final = true) /\
  (forall c s s',
     iterates cond example_body_loose c (false, Example.initial) s ->
     cond s = true -> example_body_loose s = Ok s' ->
     nan_free_step float64 s s').
Proof.
  compute_as E1 (example_body_loose (false, Example.initial)).
  match type of E1 with _ = Ok ?s1 => compute_as E2 (example_body_loose s1) end.
  match type of E2 with _ = Ok ?s2 => compute_as E3 (example_body_loose s2) end.
  split.
  { eexists. split.
    - econstructor; [reflexivity | exact E1 |].
      econstructor; [reflexivity | exact E2 |].
      econstructor; [reflexivity | exact E3 | constructor].
    - reflexivity. }
  intros c s s' Hit Hc Hb.
  inversion Hit as [|c1 ? t1 ? Hc1 Hb1 Hrest1]; subst.
  { rewrite E1 in Hb. injection Hb as <-. nan_free_by_computation. }
  rewrite E1 in Hb1. injection Hb1 as <-.
  inversion Hrest1 as [|c2 ? t2 ? Hc2 Hb2 Hrest2]; subst.
  { rewrite E2 in Hb. injection Hb as <-. nan_free_by_computation. }
  rewrite E2 in Hb2. injection Hb2 as <-.
  inversion Hrest2 as [|c3 ? t3 ? Hc3 Hb3 Hrest3]; subst.
  { rewrite E3 in Hb. injection Hb as <-. nan_free_by_computation. }
  rewrite E3 in Hb3. injection Hb3 as <-.
  inversion Hrest3 as [|c4 ? t4 ? Hc4 Hb4 Hrest4]; subst; discriminate.
Qed.

(** The first option alone converges after one iteration. *)
Lemma example_row_run :
  exists final,
    iterates cond example_row_body_loose 1 (false, brow 0 Example.initial) final /\
    fst final = true.
Proof.
  compute_as E1 (example_row_body_loose (false, brow 0 Example.initial)).
  eexists. split.
  - econstructor; [reflexivity | exact E1 | constructor].
  - reflexivity.
Qed.

Lemma batch_row_solve_witness :
  exists (final_r prefix_b : bool * T2) fn_r,
    iterates cond example_body_loose 1 (false, Example.initial) prefix_b /\
    iterates cond example_row_body_loose 1 (false, brow 0 Example.initial)
             final_r /\
    snd final_r = brow 0 (snd prefix_b) /\
    exercise_boundary float64 (K := reference_kernels float64)
      (G := reference_tables_instance) (S := reference_spline float64)
      (brow 0 Example.tau_grid) (brow 0 Example.k) (brow 0 Example.r)
      (brow 0 Example.q) (brow 0 Example.sigma) 10
      (Float.lit float64 1 1) Example.num_points = Ok fn_r /\
    exists count_b final_b,
      iterates cond example_body_loose count_b (false, Example.initial) final_b /\
      count_b = 3%nat /\ fst final_b = true.
Proof.
  destruct (batch_row_solve float64 (reference_kernels float64)
              reference_tables_instance (reference_spline float64) 2 3 0
              Example.tau_grid Example.k Example.r Example.q Example.sigma 10
              (Float.lit float64 1 1) Example.num_points example_valid_shapes
              ltac:(lia) example_num_points)
    as (init & cb & fb & pb & cr & fr & pr
        & Ei & Hb & Lb & Sb & _ & Hr & Lr & Sr & Er & _ & Hprefix & _).
  assert (E0 : (t <- b_0 float64 (K := reference_kernels float64) Example.k
                       Example.r Example.q (expand_dims2 Example.tau_grid) ;;
                squeeze_last t) = Ok Example.initial)
    by (vm_compute; reflexivity).
  assert (init = Example.initial) by congruence. subst init.
  destruct example_batch_run as ((f3 & Hrun3 & Hf3) & Hnan).
  destruct example_row_run as (f1 & Hrun1 & Hf1).
  destruct (Hprefix Hnan) as (Hle & prefix & Hit & Hsnd).
  destruct (iterates_stop_unique cond example_body_loose 10 cb 3
              (false, Example.initial) fb f3 Hb) as [-> ->]; auto.
  { destruct Sb as [?|Hf]; [now left | right; split; [exact Lb|]].
    unfold cond. now rewrite Hf. }
  { right. split; [lia|]. unfold cond. now rewrite Hf3. }
  destruct (iterates_stop_unique cond example_row_body_loose 10 cr 1
              (false, brow 0 Example.initial) fr f1 Hr) as [-> ->]; auto.
  { destruct Sr as [?|Hf]; [now left | right; split; [exact Lr|]].
    unfold cond. now rewrite Hf. }
  { right. split; [lia|]. unfold cond. now rewrite Hf1. }
  exists f1, prefix. eexists. repeat (split; [eassumption|]).
  exists 3%nat, f3. auto.
Defined.

(** The values of the callable returned for [tau_grid], at [tau_grid]. *)
Definition example_solve (tau_grid : T2) (k r q sigma : T1) (tolerance : F)
  : result T3 :=
  fn <- exercise_boundary float64 (K := reference_kernels float64)
          (G := reference_tables_instance) (S := reference_spline float64)
          tau_grid k r q sigma 10 tolerance Example.num_points ;;
  fn (expand_dims2 tau_grid).

(** C9, as stated, fails: with tolerance [0.1] the first option alone
    converges after one iteration, while in the batch it is iterated until
    the second option has converged; its boundary at [tau = 0.5] differs by
    more than 6 (out of about 90) between the two solves. *)
Lemma batch_differs_from_single_row :
  let tolerance := Float.lit float64 1 1 in
  exists batch alone,
    example_solve Example.tau_grid Example.k Example.r Example.q Example.sigma
                  tolerance = Ok batch /\
    example_solve (brow 0 Example.tau_grid) (brow 0 Example.k)
                  (brow 0 Example.r) (brow 0 Example.q) (brow 0 Example.sigma)
                  tolerance = Ok alone /\
    Float.ltb (Float.of_Z float64 6)
              (Float.abs (Float.sub float64 (get3 alone 0 1 0)
                                             (get3 batch 0 1 0))) = true.
Proof.
  intros tolerance. do 2 eexists.
  split; [vm_compute; reflexivity|]. split; [vm_compute; reflexivity|].
  vm_compute. reflexivity.
Qed.

(** ** The docstring examples

    With the reference collaborators and 32 nodes the evaluators reproduce
    the values printed in the docstrings of the source. *)

Lemma boundary_numerator_docstring :
  match boundary_numerator float64 (K := reference_kernels float64)
          (G := reference_tables_instance) Example.tau_grid
          (b_0 float64 (K := reference_kernels float64)
               Example.k Example.r Example.q)
          Example.k Example.r Example.q Example.sigma 32
  with
  | Ok N => Example.near N Example.numerator_docstring
  | Err _ => false
  end = true.
Proof. vm_compute. reflexivity. Qed.

Lemma boundary_denominator_docstring :
  match boundary_denominator float64 (K := reference_kernels float64)
          (G := reference_tables_instance) Example.tau_grid
          (b_0 float64 (K := reference_kernels float64)
               Example.k Example.r Example.q)
          Example.k Example.r Example.q Example.sigma 32
  with
  | Ok D => Example.near D Example.denominator_docstring
  | Err _ => false
  end = true.
Proof. vm_compute. reflexivity. Qed.

(** * Further properties

    What the kernels, the evaluators, the boundary callable and the solver
    do beyond the statements above: the shapes they return, the formulas at
    the level of entries, the edge cases of the maturity, the behaviour of
    the loop under its budget and tolerance, and broadcasting of the
    strike. *)

(** ** Signs of floating-point results *)

Lemma binary_round_aux_sign prec emax s m e l :
  match binary_round_aux prec emax s m e l with
  | S754_nan => True
  | S754_zero s' | S754_infinity s' | S754_finite s' _ _ => s' = s
  end.
Proof.
  unfold binary_round_aux.
  destruct (shr_fexp prec emax m e l) as [mrs' e'].
  destruct (shr_fexp prec emax _ e' loc_Exact) as [mrs'' e''].
  destruct (shr_m mrs''); auto.
  destruct (Z.leb e'' (emax - prec)); reflexivity.
Qed.

Lemma abs_sign_clear x : sign_clear (Float.abs x).
Proof. destruct x; simpl; auto. Qed.

Lemma add_sign_clear dt x y :
  sign_clear x -> sign_clear y -> sign_clear (Float.add dt x y).
Proof.
  unfold Float.add.
  destruct x as [sx|sx| |sx mx ex], y as [sy|sy| |sy my ey]; simpl;
    intros Hx Hy; subst; simpl; auto.
  unfold binary_normalize, binary_round.
  destruct (shl_align _ _ _) as [mz ez].
  apply (binary_round_aux_sign (prec dt) (emax dt) false).
Qed.

Lemma div_sign_clear dt x y :
  sign_clear x -> sign_clear y -> sign_clear (Float.div dt x y).
Proof.
  unfold Float.div.
  destruct x as [sx|sx| |sx mx ex], y as [sy|sy| |sy my ey]; simpl;
    intros Hx Hy; subst; simpl; auto.
  destruct (SFdiv_core_binary _ _ _ _ _ _) as [[mz ez] lz].
  apply (binary_round_aux_sign (prec dt) (emax dt) false).
Qed.

Lemma epsilon_sign_clear dt : sign_clear (epsilon dt).
Proof. destruct dt; vm_compute; reflexivity. Qed.

Lemma sign_clear_leb x :
  sign_clear x -> is_nan x = true \/ Float.leb zero x = true.
Proof. destruct x as [s|s| |s m e]; simpl; intros H; subst; auto. Qed.

Lemma leb_negative e tol :
  Float.leb zero e = true -> Float.ltb tol zero = true ->
  Float.leb e tol = false.
Proof.
  destruct e as [[]|[]| |[] ? ?], tol as [[]|[]| |[] ? ?]; simpl;
    try discriminate; reflexivity.
Qed.

Lemma neg_finite x : is_finite x = true -> is_finite (Float.neg x) = true.
Proof. destruct x; auto. Qed.

(** The sign of every entry of the relative change. *)
Lemma relative_change_sign dt new current change i j e :
  relative_change dt new current = Ok change ->
  look2 change i j = Some e ->
  is_nan e = true \/ Float.leb zero e = true.
Proof.
  intros E He.
  destruct (relative_change_look dt new current change i j e E He)
    as (x & y & _ & _ & ->).
  apply sign_clear_leb. apply div_sign_clear; [apply abs_sign_clear|].
  apply add_sign_clear; [apply abs_sign_clear | apply epsilon_sign_clear].
Qed.

(** ** The kernels on a maturity that is negative or NaN *)

Section KernelEdges.
Context (dt : DType) {K : MathKernels dt}.

Lemma sqrt_negative tau :
  Float.ltb tau zero = true \/ is_nan tau = true ->
  Float.sqrt dt tau = S754_nan.
Proof.
  destruct tau as [[]|[]| |[] m e]; simpl; intros [H|H]; try discriminate;
    reflexivity.
Qed.

Lemma mul_nan_r x : Float.mul dt x S754_nan = S754_nan.
Proof. destruct x; reflexivity. Qed.

(** [divide_no_nan] guards a zero divisor only: a NaN divisor gives NaN. *)
Lemma d_plus_nan_denominator tau z r q sigma :
  Float.mul dt sigma (Float.sqrt dt tau) = S754_nan ->
  d_plus dt tau z r q sigma = S754_nan /\ d_minus dt tau z r q sigma = S754_nan.
Proof.
  intros H. unfold d_minus, d_plus. rewrite H.
  unfold Float.divide_no_nan, Float.eqb, Float.div. simpl.
  set (num := Float.add dt _ _).
  assert (Hd : SFdiv (prec dt) (emax dt) num S754_nan = S754_nan)
    by (destruct num; reflexivity).
  rewrite Hd. split; reflexivity.
Qed.
End KernelEdges.

(** ** One iteration at a grid point of zero maturity *)

Section ZeroMaturityIteration.
Context (dt : DType) {K : MathKernels dt} {G : GaussConstants} {S : SplineLib}.
Variables (tau_grid : T2) (k r q sigma : T1).
Variables (tolerance : F) (integration_num_points : nat).
Variables (i j : nat) (t k_i r_i q_i s_i : F).
Hypothesis Ht : look2 tau_grid i j = Some t.
Hypothesis Zt : is_zero t = true.
Hypothesis Hk : look1 k i = Some k_i.
Hypothesis Hr : look1 r i = Some r_i.
Hypothesis Hq : look1 q i = Some q_i.
Hypothesis Hs : look1 sigma i = Some s_i.
Hypothesis Fr : is_finite r_i = true.
Hypothesis Fq : is_finite q_i = true.
Hypothesis Fs : is_finite s_i = true.
Hypothesis Frq : is_finite (Float.sub dt r_i q_i) = true.

Lemma body_zero_maturity vars vars' v :
  body dt tau_grid k r q sigma tolerance integration_num_points vars = Ok vars' ->
  look2 (snd vars') i j = Some v -> v = zero_maturity_value dt k_i.
Proof.
  destruct vars' as [converged new]. intros E Hv. cbn [snd] in Hv.
  destruct (body_inv dt tau_grid k r q sigma tolerance integration_num_points
              vars converged new E)
    as (p & N & D & c & _ & EN & ED & _ & _ & H).
  destruct (H i j v Hv)
    as (k' & r' & q' & t' & n_ij & d_ij & Hk' & Hr' & Hq' & Ht' & Hn & Hd & ->).
  assert (k' = k_i) by congruence. assert (r' = r_i) by congruence.
  assert (q' = q_i) by congruence. assert (t' = t) by congruence.
  subst k' r' q' t'.
  rewrite (boundary_numerator_zero dt tau_grid _ k r q sigma i j _ _ _
             integration_num_points N n_ij Ht Zt Hr Fr Hs Fs EN Hn).
  rewrite (boundary_denominator_zero dt tau_grid _ k r q sigma i j _ _ _
             integration_num_points D d_ij Ht Zt Hq Fq Hs Fs ED Hd).
  unfold boundary_update, zero_maturity_value.
  rewrite (exp_of_zero dt) by (apply mul_finite_zero; auto using neg_finite).
  reflexivity.
Qed.
End ZeroMaturityIteration.

(** ** The callable on a tensor with one trailing column *)

Lemma flatten2_expand_dims1 (row : T1) : flatten2 (expand_dims1 row) = row.
Proof.
  unfold flatten2, expand_dims1. induction row as [|x row IH]; simpl; congruence.
Qed.

Lemma map_flatten2_expand_dims2 (t : T2) : map flatten2 (expand_dims2 t) = t.
Proof.
  unfold expand_dims2. rewrite map_map.
  rewrite (map_ext _ (fun row => row)) by apply flatten2_expand_dims1.
  apply map_id.
Qed.

Lemma slice_one (row : T1) j x :
  nth_error row j = Some x -> slice row (j * 1) 1 = [x].
Proof.
  unfold slice. rewrite Nat.mul_1_r. revert j.
  induction row as [|y row IH]; intros [|j]; simpl; try discriminate.
  - intros H. injection H as ->. reflexivity.
  - apply IH.
Qed.

Lemma split_row_one n (row : T1) :
  length row = n -> split_row n 1 row = expand_dims1 row.
Proof.
  intros L. unfold split_row, expand_dims1. subst n.
  apply nth_error_ext. intros j.
  rewrite !nth_error_map.
  destruct (nth_error row j) as [x|] eqn:E.
  - assert (Hj : (j < length row)%nat) by (apply nth_error_Some; congruence).
    rewrite (nth_error_nth' _ 0%nat) by (rewrite length_seq; exact Hj).
    rewrite seq_nth by exact Hj. simpl. f_equal. now apply slice_one.
  - apply nth_error_None in E.
    assert (H : nth_error (seq 0 (length row)) j = None)
      by (apply nth_error_None; rewrite length_seq; exact E).
    now rewrite H.
Qed.

Lemma squeeze_last_expand_dims2 (y : T2) : squeeze_last (expand_dims2 y) = Ok y.
Proof.
  unfold squeeze_last, expand_dims2.
  induction y as [|row y IH]; [reflexivity|]. simpl.
  assert (Hrow : mapM (fun c : T1 => match c with
                                     | [x] => Ok x
                                     | _ => Err CannotSqueeze
                                     end) (expand_dims1 row) = Ok row).
  { unfold expand_dims1. induction row as [|x row IHr]; [reflexivity|].
    simpl. rewrite IHr. reflexivity. }
  rewrite Hrow. cbn [bind]. rewrite IH. reflexivity.
Qed.

(** ** The evaluators *)

(** X1.  For a boundary callable that preserves shapes, a grid of shape
    [[m, n]] with [n >= 1], parameters of length [m] and a supported number
    of nodes, [boundary_numerator] and [boundary_denominator] both return,
    and both results have the shape [[m, n]] of the grid. *)
Theorem evaluators_return_grid_shape (dt : DType) (K : MathKernels dt)
        (G : GaussConstants) (m n : nat) (tau_grid : T2) (b : T3 -> result T3)
        (k r q sigma : T1) (integration_num_points : nat) :
  (1 <= n)%nat -> shape_preserving m b -> has_shape2 m n tau_grid ->
  has_shape1 m k -> has_shape1 m r -> has_shape1 m q -> has_shape1 m sigma ->
  legendre_roots integration_num_points <> None ->
  exists N D,
    boundary_numerator dt tau_grid b k r q sigma integration_num_points = Ok N /\
    boundary_denominator dt tau_grid b k r q sigma integration_num_points = Ok D /\
    has_shape2 m n N /\ has_shape2 m n D.
Proof.
  intros Hn Sb St Sk Sr Sq Ss Hp.
  destruct (boundary_numerator_shape dt m n tau_grid b k r q sigma
              Hn Sb St Sk Sr Sq Ss integration_num_points Hp) as (N & EN & SN).
  destruct (boundary_denominator_shape dt m n tau_grid b k r q sigma
              Hn Sb St Sk Sr Sq Ss integration_num_points Hp) as (D & ED & SD).
  exists N, D. auto.
Qed.

Lemma evaluators_return_grid_shape_witness :
  exists N D,
    boundary_numerator float64 (K := reference_kernels float64)
      (G := reference_tables_instance) Example.tau_grid zero_boundary
      Example.k Example.r Example.q Example.sigma Example.num_points = Ok N /\
    boundary_denominator float64 (K := reference_kernels float64)
      (G := reference_tables_instance) Example.tau_grid zero_boundary
      Example.k Example.r Example.q Example.sigma Example.num_points = Ok D /\
    has_shape2 2 3 N /\ has_shape2 2 3 D.
Proof.
  apply (evaluators_return_grid_shape float64 (reference_kernels float64)
           reference_tables_instance 2 3 Example.tau_grid zero_boundary
           Example.k Example.r Example.q Example.sigma Example.num_points).
  - lia.
  - intros n c u Hn Hc Su. eexists. split; [reflexivity|].
    apply map3_shape. exact Su.
  - apply example_valid_shapes.
  - reflexivity.
  - reflexivity.
  - reflexivity.
  - reflexivity.
  - discriminate.
Defined.

(** X2.  Every entry of the result of [boundary_numerator] is
    [Phi(d_minus(tau_grid[i,j], b(tau_grid)[i,j] / K[i], r[i], q[i],
    sigma[i])) + r[i] * integral[i,j]], where [integral] is the quadrature
    of the closure [func] over [[0, tau_grid]]; the first quotient is an
    ordinary division.  For [r[i] = 0] the entry is the first term when the
    quadrature value is finite and NaN otherwise. *)
Theorem boundary_numerator_entry (dt : DType) (K : MathKernels dt)
        (G : GaussConstants) (tau_grid : T2) (b : T3 -> result T3)
        (k r q sigma : T1) (integration_num_points : nat) (N : T2)
        (i j : nat) (v : F) :
  boundary_numerator dt tau_grid b k r q sigma integration_num_points = Ok N ->
  look2 N i j = Some v ->
  exists integral g b_tau b_ij t k_i r_i q_i s_i,
    gauss_legendre dt (numerator_func dt tau_grid b r q sigma)
      (zeros_like2 tau_grid) tau_grid integration_num_points = Ok integral /\
    look2 integral i j = Some g /\
    b (expand_dims2 tau_grid) = Ok b_tau /\ look3 b_tau i j 0 = Some b_ij /\
    look2 tau_grid i j = Some t /\ look1 k i = Some k_i /\
    look1 r i = Some r_i /\ look1 q i = Some q_i /\ look1 sigma i = Some s_i /\
    let term1 :=
      _standard_normal_cdf dt
        (d_minus dt t (Float.div dt b_ij k_i) r_i q_i s_i) in
    v = Float.add dt term1 (Float.mul dt r_i g) /\
    (is_zero r_i = true -> is_finite g = true -> same_number v term1) /\
    (is_zero r_i = true -> is_finite g = false -> v = S754_nan).
Proof.
  intros E Hv. unfold boundary_numerator in E. repeat bind_inv E.
  look_inv.
  match goal with
  | Ed : _d_minus _ _ _ _ _ _ = Ok ?d, Hd : look3 ?d i j _ = Some _ |- _ =>
      destruct (_d_minus_look _ _ _ _ _ _ _ _ _ _ _ Ed Hd)
        as (t' & zz & rr & qq & ss & Ht' & Hz' & Hr' & Hq' & Hs' & ->)
  end.
  look_inv.
  do 9 eexists. repeat (split; [eassumption|]).
  cbv zeta. split; [reflexivity|]. split.
  - intros Zr Fg. apply add_zero_same. apply mul_zero_finite; assumption.
  - intros Zr Fg. rewrite mul_zero_not_finite by assumption. apply add_nan_r.
Qed.

Lemma boundary_numerator_entry_witness :
  exists (N : T2) (v g : F),
    boundary_numerator float64 (K := reference_kernels float64)
      (G := reference_tables_instance) Example.tau_grid
      (b_0 float64 (K := reference_kernels float64) Example.k Example.r
           Example.q)
      Example.k Example.r Example.q Example.sigma Example.num_points = Ok N /\
    look2 N 0 1 = Some v /\
    v = Float.add float64
          (_standard_normal_cdf float64 (K := reference_kernels float64)
             (d_minus float64 (K := reference_kernels float64)
                (Float.lit float64 5 1)
                (Float.div float64 (Float.of_Z float64 100)
                           (Float.of_Z float64 100))
                (Float.lit float64 1 2) (Float.lit float64 1 2)
                (Float.lit float64 1 1)))
          (Float.mul float64 (Float.lit float64 1 2) g).
Proof.
  compute_as E
    (boundary_numerator float64 (K := reference_kernels float64)
       (G := reference_tables_instance) Example.tau_grid
       (b_0 float64 (K := reference_kernels float64) Example.k Example.r
            Example.q)
       Example.k Example.r Example.q Example.sigma Example.num_points).
  match type of E with
  | _ = Ok ?N =>
      destruct (boundary_numerator_entry float64 (reference_kernels float64)
                  reference_tables_instance Example.tau_grid _ Example.k
                  Example.r Example.q Example.sigma Example.num_points N 0 1 _
                  E eq_refl)
        as (integral & g & b_tau & b_ij & t & k_i & r_i & q_i & s_i
            & _ & _ & Eb & Hb & Ht & Hk & Hr & Hq & Hs & Hterm & _);
      exists N
  end.
  eexists. exists g. split; [exact E|]. split; [reflexivity|].
  injection Ht as <-. injection Hk as <-. injection Hr as <-.
  injection Hq as <-. injection Hs as <-.
  vm_compute in Eb. injection Eb as <-. vm_compute in Hb. injection Hb as <-.
  exact Hterm.
Defined.

(** X3.  The integrands handed to the quadrature.  At every entry
    [(i, j, l)] the closure of [boundary_numerator] returns
    [exp(r[i] * u) * Phi(d_minus(tau_grid[i,j] - u, ratio, r[i], q[i],
    sigma[i]))] and the closure of [boundary_denominator] returns
    [exp(q[i] * u) * Phi(d_plus(tau_grid[i,j] - u, ratio, r[i], q[i],
    sigma[i]))], with [u = u[i,j,l]] and the same [ratio = b(tau_grid) /
    b(u)] in both. *)
Theorem integrand_entries (dt : DType) (K : MathKernels dt) (tau_grid : T2)
        (b : T3 -> result T3) (r q sigma : T1) (u values_N values_D : T3) :
  numerator_func dt tau_grid b r q sigma u = Ok values_N ->
  denominator_func dt tau_grid b r q sigma u = Ok values_D ->
  exists ratio,
    boundary_ratio dt tau_grid b u = Ok ratio /\
    (forall i j l v, look3 values_N i j l = Some v ->
       exists rho t u_ijl r_i q_i s_i,
         look3 ratio i j l = Some rho /\ look2 tau_grid i j = Some t /\
         look3 u i j l = Some u_ijl /\ look1 r i = Some r_i /\
         look1 q i = Some q_i /\ look1 sigma i = Some s_i /\
         v = Float.mul dt (tf_exp (Float.mul dt r_i u_ijl))
               (_standard_normal_cdf dt
                  (d_minus dt (Float.sub dt t u_ijl) rho r_i q_i s_i))) /\
    (forall i j l v, look3 values_D i j l = Some v ->
       exists rho t u_ijl r_i q_i s_i,
         look3 ratio i j l = Some rho /\ look2 tau_grid i j = Some t /\
         look3 u i j l = Some u_ijl /\ look1 r i = Some r_i /\
         look1 q i = Some q_i /\ look1 sigma i = Some s_i /\
         v = Float.mul dt (tf_exp (Float.mul dt q_i u_ijl))
               (_standard_normal_cdf dt
                  (d_plus dt (Float.sub dt t u_ijl) rho r_i q_i s_i))).
Proof.
  intros EN ED. unfold numerator_func in EN. unfold denominator_func in ED.
  repeat bind_inv EN. repeat bind_inv ED. ok_merge.
  eexists. split; [eassumption|]. split.
  - intros i j l v Hv. look_inv.
    match goal with
    | Ed : _d_minus _ _ _ _ _ _ = Ok ?d, Hd : look3 ?d i j l = Some _ |- _ =>
        destruct (_d_minus_look _ _ _ _ _ _ _ _ _ _ _ Ed Hd)
          as (t' & zz & rr & qq & ss & Ht' & Hz' & Hr' & Hq' & Hs' & ->)
    end.
    look_inv. do 6 eexists. repeat (split; [eassumption|]). reflexivity.
  - intros i j l v Hv. look_inv.
    match goal with
    | Ed : _d_plus _ _ _ _ _ _ = Ok ?d, Hd : look3 ?d i j l = Some _ |- _ =>
        destruct (_d_plus_look _ _ _ _ _ _ _ _ _ _ _ Ed Hd)
          as (t' & zz & rr & qq & ss & Ht' & Hz' & Hr' & Hq' & Hs' & ->)
    end.
    look_inv. do 6 eexists. repeat (split; [eassumption|]). reflexivity.
Qed.

Lemma integrand_entries_witness :
  exists values_N values_D ratio,
    numerator_func float64 (K := reference_kernels float64) Example.tau_grid
      zero_boundary Example.r Example.q Example.sigma
      (expand_dims2 Example.tau_grid) = Ok values_N /\
    denominator_func float64 (K := reference_kernels float64) Example.tau_grid
      zero_boundary Example.r Example.q Example.sigma
      (expand_dims2 Example.tau_grid) = Ok values_D /\
    boundary_ratio float64 Example.tau_grid zero_boundary
      (expand_dims2 Example.tau_grid) = Ok ratio.
Proof.
  compute_as EN
    (numerator_func float64 (K := reference_kernels float64) Example.tau_grid
       zero_boundary Example.r Example.q Example.sigma
       (expand_dims2 Example.tau_grid)).
  compute_as ED
    (denominator_func float64 (K := reference_kernels float64) Example.tau_grid
       zero_boundary Example.r Example.q Example.sigma
       (expand_dims2 Example.tau_grid)).
  destruct (integrand_entries float64 (reference_kernels float64)
              Example.tau_grid zero_boundary Example.r Example.q Example.sigma
              (expand_dims2 Example.tau_grid) _ _ EN ED) as (ratio & Er & _).
  do 2 eexists. exists ratio. split; [exact EN|]. split; [exact ED | exact Er].
Defined.

(** X4.  The tensor versions of [_d_plus] and [_d_minus], as the evaluators
    call them with broadcast operands: at every entry where
    [sigma * sqrt(tau)] is a zero (a zero maturity, or a zero volatility
    with a finite maturity) the result is exactly [0]. *)
Theorem d_plus_d_minus_zero_maturity_entries (dt : DType) (K : MathKernels dt)
        (tau z r q sigma d_p d_m : T3) (i j l : nat) (t s : F) :
  _d_plus dt tau z r q sigma = Ok d_p ->
  _d_minus dt tau z r q sigma = Ok d_m ->
  look3 tau i j l = Some t -> look3 sigma i j l = Some s ->
  is_zero (Float.mul dt s (Float.sqrt dt t)) = true ->
  (forall v, look3 d_p i j l = Some v -> v = zero) /\
  (forall v, look3 d_m i j l = Some v -> v = zero).
Proof.
  intros Ep Em Ht Hs Hz. split; intros v Hv.
  - destruct (_d_plus_look dt _ _ _ _ _ _ _ _ _ _ Ep Hv)
      as (t' & zz & rr & qq & ss & Ht' & _ & _ & _ & Hs' & ->).
    assert (t' = t) by congruence. assert (ss = s) by congruence. subst t' ss.
    now apply d_plus_zero_denominator.
  - destruct (_d_minus_look dt _ _ _ _ _ _ _ _ _ _ Em Hv)
      as (t' & zz & rr & qq & ss & Ht' & _ & _ & _ & Hs' & ->).
    assert (t' = t) by congruence. assert (ss = s) by congruence. subst t' ss.
    now apply d_minus_zero_denominator.
Qed.

Lemma d_plus_d_minus_zero_maturity_entries_witness :
  exists d_p d_m,
    _d_plus float64 (K := reference_kernels float64)
      [[[zero]]] [[[one float64]]] [[[zero]]] [[[zero]]]
      [[[one float64]]] = Ok d_p /\
    _d_minus float64 (K := reference_kernels float64)
      [[[zero]]] [[[one float64]]] [[[zero]]] [[[zero]]]
      [[[one float64]]] = Ok d_m /\
    (forall v, look3 d_p 0 0 0 = Some v -> v = zero) /\
    (forall v, look3 d_m 0 0 0 = Some v -> v = zero).
Proof.
  do 2 eexists. split; [vm_compute; reflexivity|].
  split; [vm_compute; reflexivity|].
  apply (d_plus_d_minus_zero_maturity_entries float64
           (reference_kernels float64)
           [[[zero]]] [[[one float64]]] [[[zero]]] [[[zero]]]
           [[[one float64]]] _ _ 0 0 0 zero (one float64));
    vm_compute; reflexivity.
Defined.

(** X5.  [divide_no_nan] guards a zero divisor only.  At every entry whose
    maturity is negative or NaN, [sqrt(tau)] is NaN and both [_d_plus] and
    [_d_minus] are NaN, whatever the other operands are. *)
Theorem d_plus_d_minus_negative_maturity (dt : DType) (K : MathKernels dt)
        (tau z r q sigma d_p d_m : T3) (i j l : nat) (t : F) :
  _d_plus dt tau z r q sigma = Ok d_p ->
  _d_minus dt tau z r q sigma = Ok d_m ->
  look3 tau i j l = Some t ->
  Float.ltb t zero = true \/ is_nan t = true ->
  (forall v, look3 d_p i j l = Some v -> v = S754_nan) /\
  (forall v, look3 d_m i j l = Some v -> v = S754_nan).
Proof.
  intros Ep Em Ht Hneg. split; intros v Hv.
  - destruct (_d_plus_look dt _ _ _ _ _ _ _ _ _ _ Ep Hv)
      as (t' & zz & rr & qq & ss & Ht' & _ & _ & _ & _ & ->).
    assert (t' = t) by congruence. subst t'.
    apply d_plus_nan_denominator.
    rewrite sqrt_negative by assumption. apply mul_nan_r.
  - destruct (_d_minus_look dt _ _ _ _ _ _ _ _ _ _ Em Hv)
      as (t' & zz & rr & qq & ss & Ht' & _ & _ & _ & _ & ->).
    assert (t' = t) by congruence. subst t'.
    apply d_plus_nan_denominator.
    rewrite sqrt_negative by assumption. apply mul_nan_r.
Qed.

Lemma d_plus_d_minus_negative_maturity_witness :
  exists d_p d_m,
    _d_plus float64 (K := reference_kernels float64)
      [[[Float.of_Z float64 (-1)]]] [[[one float64]]] [[[zero]]] [[[zero]]]
      [[[one float64]]] = Ok d_p /\
    _d_minus float64 (K := reference_kernels float64)
      [[[Float.of_Z float64 (-1)]]] [[[one float64]]] [[[zero]]] [[[zero]]]
      [[[one float64]]] = Ok d_m /\
    (forall v, look3 d_p 0 0 0 = Some v -> v = S754_nan) /\
    (forall v, look3 d_m 0 0 0 = Some v -> v = S754_nan).
Proof.
  do 2 eexists. split; [vm_compute; reflexivity|].
  split; [vm_compute; reflexivity|].
  apply (d_plus_d_minus_negative_maturity float64 (reference_kernels float64)
           [[[Float.of_Z float64 (-1)]]] [[[one float64]]] [[[zero]]] [[[zero]]]
           [[[one float64]]] _ _ 0 0 0 (Float.of_Z float64 (-1)));
    try (vm_compute; reflexivity).
  left. reflexivity.
Defined.

(** X6.  With the quadrature as modelled, both evaluators are exactly [0.5]
    at every grid point of zero maturity for any boundary callable
    whatever, provided the rates and the volatility of the option are
    finite: the values the callable returns, NaN and zeros included, do not
    reach the result there. *)
Theorem evaluators_half_for_any_boundary (dt : DType) (K : MathKernels dt)
        (G : GaussConstants) (tau_grid : T2) (b : T3 -> result T3)
        (k r q sigma : T1) (integration_num_points : nat) (N D : T2)
        (i j : nat) (t r_i q_i s_i : F) :
  look2 tau_grid i j = Some t -> is_zero t = true ->
  look1 r i = Some r_i -> is_finite r_i = true ->
  look1 q i = Some q_i -> is_finite q_i = true ->
  look1 sigma i = Some s_i -> is_finite s_i = true ->
  boundary_numerator dt tau_grid b k r q sigma integration_num_points = Ok N ->
  boundary_denominator dt tau_grid b k r q sigma integration_num_points = Ok D ->
  (forall v, look2 N i j = Some v -> v = half dt) /\
  (forall v, look2 D i j = Some v -> v = half dt).
Proof.
  intros Ht Zt Hr Fr Hq Fq Hs Fs EN ED. split; intros v Hv.
  - exact (boundary_numerator_zero dt tau_grid b k r q sigma i j t r_i s_i
             integration_num_points N v Ht Zt Hr Fr Hs Fs EN Hv).
  - exact (boundary_denominator_zero dt tau_grid b k r q sigma i j t q_i s_i
             integration_num_points D v Ht Zt Hq Fq Hs Fs ED Hv).
Qed.

Lemma evaluators_half_for_any_boundary_witness :
  exists N D,
    boundary_numerator float64 (K := reference_kernels float64)
      (G := reference_tables_instance) Example.tau_grid zero_boundary
      Example.k Example.r Example.q Example.sigma Example.num_points = Ok N /\
    boundary_denominator float64 (K := reference_kernels float64)
      (G := reference_tables_instance) Example.tau_grid zero_boundary
      Example.k Example.r Example.q Example.sigma Example.num_points = Ok D /\
    (forall v, look2 N 1 0 = Some v -> v = half float64) /\
    (forall v, look2 D 1 0 = Some v -> v = half float64).
Proof.
  do 2 eexists. split; [vm_compute; reflexivity|].
  split; [vm_compute; reflexivity|].
  eapply (evaluators_half_for_any_boundary float64 (reference_kernels float64)
            reference_tables_instance Example.tau_grid zero_boundary
            Example.k Example.r Example.q Example.sigma Example.num_points
            _ _ 1 0 zero (Float.lit float64 2 2) (Float.lit float64 2 2)
            (Float.lit float64 15 2));
    vm_compute; reflexivity.
Defined.

(** X7.  [boundary_numerator] and [boundary_denominator] work row by row:
    evaluated on row [i] of the grid and of the parameters, with the
    callable restricted to that row, they return row [i] of what they
    return on the batch. *)
Theorem evaluators_row_local (dt : DType) (K : MathKernels dt)
        (G : GaussConstants) (m n i : nat) (tau_grid : T2)
        (b b_i : T3 -> result T3) (k r q sigma : T1)
        (integration_num_points : nat) (N D : T2) :
  (1 <= n)%nat -> has_shape2 m n tau_grid -> row_related m i b b_i ->
  boundary_numerator dt tau_grid b k r q sigma integration_num_points = Ok N ->
  boundary_denominator dt tau_grid b k r q sigma integration_num_points = Ok D ->
  boundary_numerator dt (brow i tau_grid) b_i (brow i k) (brow i r) (brow i q)
    (brow i sigma) integration_num_points = Ok (brow i N) /\
  boundary_denominator dt (brow i tau_grid) b_i (brow i k) (brow i r) (brow i q)
    (brow i sigma) integration_num_points = Ok (brow i D).
Proof.
  intros Hn St Hb EN ED. split.
  - exact (boundary_numerator_brow dt i m n tau_grid b b_i k r q sigma Hn Hb St
             integration_num_points N EN).
  - exact (boundary_denominator_brow dt i m n tau_grid b b_i k r q sigma Hn Hb St
             integration_num_points D ED).
Qed.

Lemma evaluators_row_local_witness :
  exists N D,
    boundary_numerator float64 (K := reference_kernels float64)
      (G := reference_tables_instance) (brow 1 Example.tau_grid)
      (b_0 float64 (K := reference_kernels float64) (brow 1 Example.k)
           (brow 1 Example.r) (brow 1 Example.q))
      (brow 1 Example.k) (brow 1 Example.r) (brow 1 Example.q)
      (brow 1 Example.sigma) Example.num_points = Ok (brow 1 N) /\
    boundary_denominator float64 (K := reference_kernels float64)
      (G := reference_tables_instance) (brow 1 Example.tau_grid)
      (b_0 float64 (K := reference_kernels float64) (brow 1 Example.k)
           (brow 1 Example.r) (brow 1 Example.q))
      (brow 1 Example.k) (brow 1 Example.r) (brow 1 Example.q)
      (brow 1 Example.sigma) Example.num_points = Ok (brow 1 D).
Proof.
  compute_as EN
    (boundary_numerator float64 (K := reference_kernels float64)
       (G := reference_tables_instance) Example.tau_grid
       (b_0 float64 (K := reference_kernels float64) Example.k Example.r
            Example.q)
       Example.k Example.r Example.q Example.sigma Example.num_points).
  compute_as ED
    (boundary_denominator float64 (K := reference_kernels float64)
       (G := reference_tables_instance) Example.tau_grid
       (b_0 float64 (K := reference_kernels float64) Example.k Example.r
            Example.q)
       Example.k Example.r Example.q Example.sigma Example.num_points).
  do 2 eexists.
  apply (evaluators_row_local float64 (reference_kernels float64)
           reference_tables_instance 2 3 1 Example.tau_grid _ _
           Example.k Example.r Example.q Example.sigma Example.num_points
           _ _ ltac:(lia) (proj1 (proj2 (proj2 example_valid_shapes)))
           (b_0_row_related float64 1 2 Example.k Example.r Example.q) EN ED).
Defined.

(** ** The boundary callable *)

(** X8.  On a tensor [[m, n', 1]], the shape the evaluators pass for the
    grid itself, the callable returned by the solver (and the one used
    inside an iteration) is the spline applied to the [[m, n']] matrix:
    squeezing its result gives [interpolate(t, params)]. *)
Theorem boundary_fn_on_grid (S : SplineLib) (m n n' : nat) (knots values : T2)
        (params : SplineParams) (t : T2) :
  (1 <= m)%nat -> has_shape2 m n knots -> has_shape2 m n values ->
  build_spline knots values = Ok params ->
  (1 <= n')%nat -> has_shape2 m n' t ->
  exists y,
    interpolate t params = Ok y /\ has_shape2 m n' y /\
    new_exercise_boundary_fn params (expand_dims2 t) = Ok (expand_dims2 y) /\
    current_exercise_boundary_fn params (expand_dims2 t) = Ok (expand_dims2 y) /\
    (x <- new_exercise_boundary_fn params (expand_dims2 t) ;; squeeze_last x)
    = Ok y.
Proof.
  intros Hm Sk Sv Eb Hn St.
  destruct (boundary_fn_spec m n knots values params Hm Sk Sv Eb n' 1
              (expand_dims2 t) Hn (le_n 1) (expand_dims2_shape _ _ _ St))
    as (y & _ & Ey & Sy & _ & Efn & _).
  rewrite map_flatten2_expand_dims2 in Ey. rewrite Nat.mul_1_r in Sy.
  assert (Hy : map (split_row n' 1) y = expand_dims2 y).
  { unfold expand_dims2. apply map_ext_in. intros row Hrow.
    apply split_row_one. destruct Sy as [_ Hall].
    rewrite Forall_forall in Hall. now apply Hall. }
  rewrite Hy in Efn.
  exists y. split; [exact Ey|]. split; [exact Sy|]. split; [exact Efn|].
  split; [exact Efn|].
  rewrite Efn. cbn [bind]. apply squeeze_last_expand_dims2.
Qed.

Lemma boundary_fn_on_grid_witness :
  exists params y,
    build_spline (SplineLib := reference_spline float64) Example.tau_grid
      Example.initial = Ok params /\
    interpolate Example.tau_grid params = Ok y /\
    new_exercise_boundary_fn params (expand_dims2 Example.tau_grid)
    = Ok (expand_dims2 y).
Proof.
  compute_as E (Reference.build float64 Example.tau_grid Example.initial).
  match type of E with
  | _ = Ok ?p =>
      destruct (boundary_fn_on_grid (reference_spline float64) 2 3 3
                  Example.tau_grid Example.initial p Example.tau_grid)
        as (y & Ey & _ & Efn & _);
      [ lia | apply example_valid_shapes
      | split; [reflexivity | repeat constructor]
      | exact E | lia | apply example_valid_shapes | exists p, y; auto ]
  end.
Defined.

(** X9.  The callable rejects a tensor with an empty trailing dimension:
    for an input of shape [[m, n', p]] with [m >= 1] and [n' = 0] or
    [p = 0] the first reshape to [[-1, n' * p]] has a zero dimension to
    infer from and fails, before the spline is evaluated. *)
Theorem boundary_fn_rejects_empty (S : SplineLib) (params : SplineParams)
        (m n' p : nat) (x : T3) :
  (1 <= m)%nat -> has_shape3 m n' p x -> n' = 0%nat \/ p = 0%nat ->
  new_exercise_boundary_fn params x = Err CannotReshape /\
  current_exercise_boundary_fn params x = Err CannotReshape.
Proof.
  intros Hm Sx Hz.
  assert (H0 : (shape_1 x * shape_2 x)%nat = 0%nat).
  { rewrite (shape_1_spec m n' p x Sx Hm).
    destruct Hz as [-> | ->]; [reflexivity|].
    destruct (Nat.eq_dec n' 0) as [-> | Hn]; [reflexivity|].
    rewrite (shape_2_spec m n' 0 x Sx Hm) by lia. lia. }
  unfold new_exercise_boundary_fn, current_exercise_boundary_fn. cbv zeta.
  rewrite H0. split; reflexivity.
Qed.

Lemma boundary_fn_rejects_empty_witness :
  new_exercise_boundary_fn (S := reference_spline float64) [] [[[]; []]]
  = Err CannotReshape /\
  current_exercise_boundary_fn (S := reference_spline float64) [] [[[]; []]]
  = Err CannotReshape.
Proof.
  apply (boundary_fn_rejects_empty (reference_spline float64) [] 1 2 0
           [[[]; []]]).
  - lia.
  - split; [reflexivity | repeat constructor].
  - now right.
Defined.

(** ** The solver *)

(** X10.  The initial sample vector does not depend on the maturities:
    every entry of row [i] is [(1 * K[i]) * min(1, r[i] / q[i])], the same
    value along the row. *)
Theorem initial_guess_entries (dt : DType) (K : MathKernels dt)
        (tau_grid : T2) (k r q : T1) (initial : T2) :
  (t <- b_0 dt k r q (expand_dims2 tau_grid) ;; squeeze_last t) = Ok initial ->
  (forall i j v, look2 initial i j = Some v ->
     exists k_i r_i q_i,
       look1 k i = Some k_i /\ look1 r i = Some r_i /\ look1 q i = Some q_i /\
       v = Float.mul dt (Float.mul dt (one dt) k_i)
                        (tf_minimum (one dt) (Float.div dt r_i q_i))) /\
  (forall i j j' v v',
     look2 initial i j = Some v -> look2 initial i j' = Some v' -> v = v').
Proof.
  intros E. bind_inv E. unfold b_0 in E0. cbv zeta in E0. repeat bind_inv E0.
  assert (Hentry : forall i j v, look2 initial i j = Some v ->
     exists k_i r_i q_i,
       look1 k i = Some k_i /\ look1 r i = Some r_i /\ look1 q i = Some q_i /\
       v = Float.mul dt (Float.mul dt (one dt) k_i)
                        (tf_minimum (one dt) (Float.div dt r_i q_i))).
  { intros i j v Hv. look_inv.
    do 3 eexists. repeat (split; [eassumption|]). reflexivity. }
  split; [exact Hentry|].
  intros i j j' v v' Hv Hv'.
  destruct (Hentry i j v Hv) as (k1 & r1 & q1 & Hk1 & Hr1 & Hq1 & ->).
  destruct (Hentry i j' v' Hv') as (k2 & r2 & q2 & Hk2 & Hr2 & Hq2 & ->).
  congruence.
Qed.

Lemma initial_guess_entries_witness :
  exists k_i r_i q_i,
    look1 Example.k 1 = Some k_i /\ look1 Example.r 1 = Some r_i /\
    look1 Example.q 1 = Some q_i /\
    Float.of_Z float64 100
    = Float.mul float64 (Float.mul float64 (one float64) k_i)
        (Reference.minimum (one float64) (Float.div float64 r_i q_i)).
Proof.
  apply (proj1 (initial_guess_entries float64 (reference_kernels float64)
                  Example.tau_grid Example.k Example.r Example.q
                  Example.initial ltac:(vm_compute; reflexivity))
           1%nat 2%nat (Float.of_Z float64 100) eq_refl).
Defined.

(** X11.  The shape of the sample vector is an invariant of the loop: on
    inputs of consistent shapes every iteration entered with samples of
    shape [[m, n]] completes without error and returns samples of shape
    [[m, n]], and so does every run of iterations. *)
Theorem solver_samples_keep_shape (dt : DType) (K : MathKernels dt)
        (G : GaussConstants) (S : SplineLib) (m n : nat) (tau_grid : T2)
        (k r q sigma : T1) (tolerance : F) (integration_num_points : nat) :
  valid_shapes m n tau_grid k r q sigma ->
  legendre_roots integration_num_points <> None ->
  (forall vars, has_shape2 m n (snd vars) ->
     exists vars',
       body dt tau_grid k r q sigma tolerance integration_num_points vars
       = Ok vars' /\ has_shape2 m n (snd vars')) /\
  (forall count s s', has_shape2 m n (snd s) ->
     iterates cond
       (body dt tau_grid k r q sigma tolerance integration_num_points)
       count s s' ->
     has_shape2 m n (snd s')).
Proof.
  intros Hv Hp.
  pose proof (body_shape dt m n tau_grid k r q sigma tolerance
                integration_num_points Hv Hp) as Hb.
  split; [exact Hb|].
  intros count s s' Hs Hit. induction Hit as [s|c s s1 s2 Hc Eb Hrest IH]; auto.
  apply IH. destruct (Hb s Hs) as (s1' & E1 & S1). congruence.
Qed.

Lemma solver_samples_keep_shape_witness :
  exists vars',
    example_body (false, Example.initial) = Ok vars' /\
    has_shape2 2 3 (snd vars').
Proof.
  apply (proj1 (solver_samples_keep_shape float64 (reference_kernels float64)
                  reference_tables_instance (reference_spline float64) 2 3
                  Example.tau_grid Example.k Example.r Example.q Example.sigma
                  Example.tolerance Example.num_points example_valid_shapes
                  example_num_points)
           (false, Example.initial)).
  split; [reflexivity | repeat constructor].
Defined.

(** X12.  With the quadrature as modelled, every iteration sets the sample
    at a grid point of zero maturity to [((K[i] * 1) * 0.5) / 0.5], for
    finite rates and volatility: after one iteration or more the sample
    there depends on the strike alone, not on the current samples, the
    rates or the initial guess [K * min(1, r / q)]. *)
Theorem solver_pins_zero_maturity (dt : DType) (K : MathKernels dt)
        (G : GaussConstants) (S : SplineLib) (tau_grid : T2) (k r q sigma : T1)
        (tolerance : F) (integration_num_points : nat)
        (i j : nat) (t k_i r_i q_i s_i : F) (count : nat)
        (start final : bool * T2) (v : F) :
  look2 tau_grid i j = Some t -> is_zero t = true ->
  look1 k i = Some k_i -> look1 r i = Some r_i -> look1 q i = Some q_i ->
  look1 sigma i = Some s_i ->
  is_finite r_i = true -> is_finite q_i = true -> is_finite s_i = true ->
  is_finite (Float.sub dt r_i q_i) = true ->
  iterates cond (body dt tau_grid k r q sigma tolerance integration_num_points)
           (Datatypes.S count) start final ->
  look2 (snd final) i j = Some v ->
  v = Float.divide_no_nan dt
        (Float.mul dt (Float.mul dt k_i (one dt)) (half dt)) (half dt).
Proof.
  intros Ht Zt Hk Hr Hq Hs Fr Fq Fs Frq Hit Hv.
  destruct (iterates_last _ _ _ _ _ Hit) as (s' & _ & _ & Eb).
  exact (body_zero_maturity dt tau_grid k r q sigma tolerance
           integration_num_points i j t k_i r_i q_i s_i
           Ht Zt Hk Hr Hq Hs Fr Fq Fs Frq s' final v Eb Hv).
Qed.

Lemma solver_pins_zero_maturity_witness :
  exists final v,
    iterates cond example_body 1 (false, Example.initial) final /\
    look2 (snd final) 1 0 = Some v /\
    v = Float.divide_no_nan float64
          (Float.mul float64
             (Float.mul float64 (Float.of_Z float64 100) (one float64))
             (half float64))
          (half float64) /\
    v = Float.of_Z float64 100.
Proof.
  compute_as E (example_body (false, Example.initial)).
  match type of E with
  | _ = Ok ?s =>
      assert (Hit : iterates cond example_body 1 (false, Example.initial) s)
        by (econstructor; [reflexivity | exact E | constructor]);
      exists s; eexists; split; [exact Hit|]; split; [reflexivity|]; split;
      [ apply (solver_pins_zero_maturity float64 (reference_kernels float64)
                 reference_tables_instance (reference_spline float64)
                 Example.tau_grid Example.k Example.r Example.q Example.sigma
                 Example.tolerance Example.num_points 1 0 zero
                 (Float.of_Z float64 100) (Float.lit float64 2 2)
                 (Float.lit float64 2 2) (Float.lit float64 15 2) 0
                 (false, Example.initial) s);
        [ reflexivity | reflexivity | reflexivity | reflexivity | reflexivity
        | reflexivity | reflexivity | reflexivity | reflexivity | reflexivity
        | exact Hit | reflexivity ]
      | vm_compute; reflexivity ]
  end.
Defined.

(** X13.  With [max_depth = 0] the loop body is not run: on inputs of
    consistent shapes the solver returns the callable backed by the spline
    fitted to the initial guess, whatever the tolerance and the number of
    quadrature nodes are. *)
Theorem exercise_boundary_zero_budget (dt : DType) (K : MathKernels dt)
        (G : GaussConstants) (S : SplineLib) (m n : nat) (tau_grid : T2)
        (k r q sigma : T1) (tolerance : F) (integration_num_points : nat) :
  valid_shapes m n tau_grid k r q sigma ->
  exists initial new_spline_params,
    (t <- b_0 dt k r q (expand_dims2 tau_grid) ;; squeeze_last t) = Ok initial /\
    build_spline tau_grid initial = Ok new_spline_params /\
    exercise_boundary dt tau_grid k r q sigma 0 tolerance integration_num_points
    = Ok (new_exercise_boundary_fn new_spline_params).
Proof.
  intros Hv.
  destruct (initial_guess_shape dt m n tau_grid k r q sigma Hv)
    as (initial & Ei & Si).
  destruct Hv as (Hm & Hn & St & _).
  destruct (build_spline_ok m n tau_grid initial Hn St Si) as (p & Ep).
  exists initial, p. repeat (split; [assumption|]).
  rewrite (exercise_boundary_unfold dt tau_grid k r q sigma tolerance
             integration_num_points 0 initial Ei).
  simpl. rewrite Ep. reflexivity.
Qed.

Lemma exercise_boundary_zero_budget_witness :
  exists initial new_spline_params,
    (t <- b_0 float64 (K := reference_kernels float64) Example.k Example.r
            Example.q (expand_dims2 Example.tau_grid) ;; squeeze_last t)
    = Ok initial /\
    build_spline (SplineLib := reference_spline float64) Example.tau_grid initial
    = Ok new_spline_params /\
    exercise_boundary float64 (K := reference_kernels float64)
      (G := reference_tables_instance) (S := reference_spline float64)
      Example.tau_grid Example.k Example.r Example.q Example.sigma 0
      Example.tolerance Example.num_points
    = Ok (new_exercise_boundary_fn new_spline_params).
Proof.
  exact (exercise_boundary_zero_budget float64 (reference_kernels float64)
           reference_tables_instance (reference_spline float64) 2 3
           Example.tau_grid Example.k Example.r Example.q Example.sigma
           Example.tolerance Example.num_points example_valid_shapes).
Defined.

(** X14.  Once the loop has converged after [count] iterations, the budget
    no longer matters: for every [max_depth >= count] the solver returns the
    callable backed by the spline of the converged samples, so any two such
    budgets give the same result. *)
Theorem exercise_boundary_budget_irrelevant (dt : DType) (K : MathKernels dt)
        (G : GaussConstants) (S : SplineLib) (tau_grid : T2) (k r q sigma : T1)
        (tolerance : F) (integration_num_points : nat)
        (initial : T2) (count : nat) (final : bool * T2) (d1 d2 : nat) :
  (t <- b_0 dt k r q (expand_dims2 tau_grid) ;; squeeze_last t) = Ok initial ->
  iterates cond (body dt tau_grid k r q sigma tolerance integration_num_points)
           count (false, initial) final ->
  fst final = true -> (count <= d1)%nat -> (count <= d2)%nat ->
  exercise_boundary dt tau_grid k r q sigma d1 tolerance integration_num_points
  = (p <- build_spline tau_grid (snd final) ;; Ok (new_exercise_boundary_fn p)) /\
  exercise_boundary dt tau_grid k r q sigma d1 tolerance integration_num_points
  = exercise_boundary dt tau_grid k r q sigma d2 tolerance integration_num_points.
Proof.
  intros Ei Hit Hf H1 H2.
  assert (Hd : forall d, (count <= d)%nat ->
            exercise_boundary dt tau_grid k r q sigma d tolerance
              integration_num_points
            = (p <- build_spline tau_grid (snd final) ;;
               Ok (new_exercise_boundary_fn p))).
  { intros d Hle.
    rewrite (exercise_boundary_unfold dt tau_grid k r q sigma tolerance
               integration_num_points d initial Ei).
    rewrite (iterates_while_loop _ _ count _ final d Hit); [reflexivity|].
    right. split; [exact Hle|]. unfold cond. now rewrite Hf. }
  split; [now apply Hd|]. now rewrite (Hd d1 H1), (Hd d2 H2).
Qed.

Lemma exercise_boundary_budget_irrelevant_witness :
  exercise_boundary float64 (K := reference_kernels float64)
    (G := reference_tables_instance) (S := reference_spline float64)
    Example.tau_grid Example.k Example.r Example.q Example.sigma 1
    (Float.of_Z float64 10) Example.num_points
  = exercise_boundary float64 (K := reference_kernels float64)
      (G := reference_tables_instance) (S := reference_spline float64)
      Example.tau_grid Example.k Example.r Example.q Example.sigma 20
      (Float.of_Z float64 10) Example.num_points.
Proof.
  compute_as E
    (body float64 (K := reference_kernels float64)
       (G := reference_tables_instance) (S := reference_spline float64)
       Example.tau_grid Example.k Example.r Example.q Example.sigma
       (Float.of_Z float64 10) Example.num_points (false, Example.initial)).
  match type of E with
  | _ = Ok ?s =>
      apply (exercise_boundary_budget_irrelevant float64
               (reference_kernels float64) reference_tables_instance
               (reference_spline float64) Example.tau_grid Example.k Example.r
               Example.q Example.sigma (Float.of_Z float64 10)
               Example.num_points Example.initial 1 s 1 20)
  end.
  - vm_compute. reflexivity.
  - econstructor; [reflexivity | exact E | constructor].
  - reflexivity.
  - lia.
  - lia.
Defined.

(** X15.  An error raised inside an iteration is not caught: if, within the
    budget, the loop reaches a state that is not converged and on which the
    body fails, the solver fails with that same error. *)
Theorem exercise_boundary_iteration_error (dt : DType) (K : MathKernels dt)
        (G : GaussConstants) (S : SplineLib) (tau_grid : T2) (k r q sigma : T1)
        (max_depth : nat) (tolerance : F) (integration_num_points : nat)
        (initial : T2) (count : nat) (s : bool * T2) (e : error) :
  (t <- b_0 dt k r q (expand_dims2 tau_grid) ;; squeeze_last t) = Ok initial ->
  iterates cond (body dt tau_grid k r q sigma tolerance integration_num_points)
           count (false, initial) s ->
  (count < max_depth)%nat -> fst s = false ->
  body dt tau_grid k r q sigma tolerance integration_num_points s = Err e ->
  exercise_boundary dt tau_grid k r q sigma max_depth tolerance
    integration_num_points = Err e.
Proof.
  intros Ei Hit Hlt Hs Eb.
  rewrite (exercise_boundary_unfold dt tau_grid k r q sigma tolerance
             integration_num_points max_depth initial Ei).
  rewrite (iterates_while_loop_error _ _ count _ s max_depth e Hit Hlt); auto.
  unfold cond. now rewrite Hs.
Qed.

Lemma exercise_boundary_iteration_error_witness :
  exercise_boundary float64 (K := reference_kernels float64)
    (G := reference_tables_instance) (S := reference_spline float64)
    Example.tau_grid Example.k Example.r Example.q
    (Example.sigma ++ Example.sigma) 3 Example.tolerance Example.num_points
  = Err IncompatibleShapes.
Proof.
  apply (exercise_boundary_iteration_error float64 (reference_kernels float64)
           reference_tables_instance (reference_spline float64)
           Example.tau_grid Example.k Example.r Example.q
           (Example.sigma ++ Example.sigma) 3
           Example.tolerance Example.num_points Example.initial 0
           (false, Example.initial)).
  - vm_compute. reflexivity.
  - constructor.
  - lia.
  - reflexivity.
  - vm_compute. reflexivity.
Defined.

(** X16.  The tolerance is not checked.  With a NaN tolerance the test
    [relative_error <= tolerance] is never true: on inputs of consistent
    shapes the loop runs exactly [max_depth] iterations, ends not
    converged, and the solver still returns the callable of the last
    samples. *)
Theorem exercise_boundary_nan_tolerance (dt : DType) (K : MathKernels dt)
        (G : GaussConstants) (S : SplineLib) (m n : nat) (tau_grid : T2)
        (k r q sigma : T1) (max_depth : nat) (tolerance : F)
        (integration_num_points : nat) :
  valid_shapes m n tau_grid k r q sigma ->
  legendre_roots integration_num_points <> None ->
  is_nan tolerance = true ->
  exists initial final new_spline_params,
    (t <- b_0 dt k r q (expand_dims2 tau_grid) ;; squeeze_last t) = Ok initial /\
    iterates cond (body dt tau_grid k r q sigma tolerance integration_num_points)
             max_depth (false, initial) final /\
    fst final = false /\
    build_spline tau_grid (snd final) = Ok new_spline_params /\
    exercise_boundary dt tau_grid k r q sigma max_depth tolerance
      integration_num_points = Ok (new_exercise_boundary_fn new_spline_params).
Proof.
  intros Hv Hp Hn.
  destruct (exercise_boundary_total dt m n tau_grid k r q sigma tolerance
              integration_num_points Hv Hp max_depth)
    as (initial & count & final & params & Ei & _ & Hit & Hstop & _ & Ep & E).
  pose proof (iterates_not_converged dt tau_grid k r q sigma tolerance
                integration_num_points count (false, initial) final Hn eq_refl
                Hit) as Hf.
  destruct Hstop as [->|Hc]; [|congruence].
  exists initial, final, params. auto.
Qed.

Lemma exercise_boundary_nan_tolerance_witness :
  exists initial final,
    iterates cond
      (body float64 (K := reference_kernels float64)
            (G := reference_tables_instance) (S := reference_spline float64)
            Example.tau_grid Example.k Example.r Example.q Example.sigma
            S754_nan Example.num_points)
      2 (false, initial) final /\
    fst final = false.
Proof.
  destruct (exercise_boundary_nan_tolerance float64 (reference_kernels float64)
              reference_tables_instance (reference_spline float64) 2 3
              Example.tau_grid Example.k Example.r Example.q Example.sigma 2
              S754_nan Example.num_points example_valid_shapes
              example_num_points eq_refl)
    as (initial & final & params & _ & Hit & Hf & _).
  exists initial, final. auto.
Defined.

(** X17.  The relative change [|new - old| / (|new| + epsilon)] is never
    negative: each of its entries is NaN or at least [0]. *)
Theorem relative_change_nonnegative (dt : DType) (new current change : T2) :
  relative_change dt new current = Ok change ->
  (forall i j e, look2 change i j = Some e ->
     is_nan e = true \/ Float.leb zero e = true) /\
  (forall e, In e (flatten2 change) ->
     is_nan e = true \/ Float.leb zero e = true).
Proof.
  intros E. split.
  - intros i j e He. exact (relative_change_sign dt _ _ _ i j e E He).
  - intros e He. destruct (In_look2 _ _ He) as (i & j & Hl).
    exact (relative_change_sign dt _ _ _ i j e E Hl).
Qed.

Lemma relative_change_nonnegative_witness :
  exists change,
    relative_change float64 [[Float.of_Z float64 1; Float.of_Z float64 (-3)]]
                            [[Float.of_Z float64 2; S754_infinity false]]
    = Ok change /\
    forall e, In e (flatten2 change) ->
      is_nan e = true \/ Float.leb zero e = true.
Proof.
  compute_as E
    (relative_change float64
       [[Float.of_Z float64 1; Float.of_Z float64 (-3)]]
       [[Float.of_Z float64 2; S754_infinity false]]).
  eexists. split; [exact E|].
  exact (proj2 (relative_change_nonnegative float64 _ _ _ E)).
Defined.

(** X18.  A negative tolerance is never met: an iteration whose relative
    change has an entry and no NaN entry reports [converged = false]. *)
Theorem body_negative_tolerance (dt : DType) (K : MathKernels dt)
        (G : GaussConstants) (S : SplineLib) (tau_grid : T2) (k r q sigma : T1)
        (tolerance : F) (integration_num_points : nat)
        (vars : bool * T2) (converged : bool) (new_boundary_points change : T2) :
  body dt tau_grid k r q sigma tolerance integration_num_points vars
  = Ok (converged, new_boundary_points) ->
  relative_change dt new_boundary_points (snd vars) = Ok change ->
  Float.ltb tolerance zero = true ->
  Forall not_nan (flatten2 change) -> flatten2 change <> [] ->
  converged = false.
Proof.
  intros E Ec Hneg Hnn Hne.
  destruct (body_inv dt tau_grid k r q sigma tolerance integration_num_points
              vars converged new_boundary_points E)
    as (_ & _ & _ & change' & _ & _ & _ & Ec' & -> & _).
  assert (change' = change) by congruence. subst change'.
  destruct (reduce_max_spec dt change Hnn) as (_ & Hin).
  specialize (Hin Hne).
  destruct (In_look2 _ _ Hin) as (i & j & Hl).
  destruct (relative_change_sign dt _ _ _ i j _ Ec Hl) as [Hn|Hpos].
  - rewrite Forall_forall in Hnn. specialize (Hnn _ Hin).
    unfold not_nan in Hnn. congruence.
  - now apply leb_negative.
Qed.

Lemma body_negative_tolerance_witness :
  exists converged new_boundary_points,
    body float64 (K := reference_kernels float64)
      (G := reference_tables_instance) (S := reference_spline float64)
      Example.tau_grid Example.k Example.r Example.q Example.sigma
      (Float.of_Z float64 (-1)) Example.num_points (false, Example.initial)
    = Ok (converged, new_boundary_points) /\
    converged = false.
Proof.
  compute_as E
    (body float64 (K := reference_kernels float64)
       (G := reference_tables_instance) (S := reference_spline float64)
       Example.tau_grid Example.k Example.r Example.q Example.sigma
       (Float.of_Z float64 (-1)) Example.num_points (false, Example.initial)).
  match type of E with
  | _ = Ok (?c, ?new) =>
      compute_as Ec (relative_change float64 new Example.initial);
      exists c, new; split; [exact E|];
      match type of Ec with
      | _ = Ok ?change =>
          apply (body_negative_tolerance float64 (reference_kernels float64)
                   reference_tables_instance (reference_spline float64)
                   Example.tau_grid Example.k Example.r Example.q Example.sigma
                   (Float.of_Z float64 (-1)) Example.num_points
                   (false, Example.initial) c new change E Ec)
      end
  end.
  - reflexivity.
  - repeat constructor.
  - discriminate.
Defined.

(** X19.  The convergence flag speaks for the whole batch.  When the
    relative change of an iteration has an entry and no NaN entry, the
    iteration reports [converged = true] exactly when the tolerance is not
    NaN and every entry of every row is at most the tolerance. *)
Theorem body_converged_bounds_every_entry (dt : DType) (K : MathKernels dt)
        (G : GaussConstants) (S : SplineLib) (tau_grid : T2) (k r q sigma : T1)
        (tolerance : F) (integration_num_points : nat)
        (vars : bool * T2) (converged : bool) (new_boundary_points change : T2) :
  body dt tau_grid k r q sigma tolerance integration_num_points vars
  = Ok (converged, new_boundary_points) ->
  relative_change dt new_boundary_points (snd vars) = Ok change ->
  Forall not_nan (flatten2 change) -> flatten2 change <> [] ->
  (converged = true <->
   is_nan tolerance = false /\
   forall i j e, look2 change i j = Some e -> Float.leb e tolerance = true).
Proof.
  intros E Ec Hnn Hne.
  destruct (body_inv dt tau_grid k r q sigma tolerance integration_num_points
              vars converged new_boundary_points E)
    as (_ & _ & _ & change' & _ & _ & _ & Ec' & -> & _).
  assert (change' = change) by congruence. subst change'.
  destruct (reduce_max_spec dt change Hnn) as (Hmax & Hin).
  specialize (Hin Hne). split.
  - intros Hc. split; [exact (proj2 (leb_not_nan _ _ Hc))|].
    intros i j e He. apply leb_trans with (reduce_max dt change); [|exact Hc].
    apply Hmax. eapply look2_In; eauto.
  - intros [_ Hall]. destruct (In_look2 _ _ Hin) as (i & j & Hl). eauto.
Qed.

Lemma body_converged_bounds_every_entry_witness :
  exists new_boundary_points change,
    body float64 (K := reference_kernels float64)
      (G := reference_tables_instance) (S := reference_spline float64)
      Example.tau_grid Example.k Example.r Example.q Example.sigma
      (Float.of_Z float64 10) Example.num_points (false, Example.initial)
    = Ok (true, new_boundary_points) /\
    relative_change float64 new_boundary_points Example.initial = Ok change /\
    forall i j e, look2 change i j = Some e ->
      Float.leb e (Float.of_Z float64 10) = true.
Proof.
  compute_as E
    (body float64 (K := reference_kernels float64)
       (G := reference_tables_instance) (S := reference_spline float64)
       Example.tau_grid Example.k Example.r Example.q Example.sigma
       (Float.of_Z float64 10) Example.num_points (false, Example.initial)).
  match type of E with
  | _ = Ok (?c, ?new) =>
      compute_as Ec (relative_change float64 new Example.initial);
      match type of Ec with
      | _ = Ok ?change =>
          exists new, change; split; [exact E|]; split; [exact Ec|];
          apply (proj1 (body_converged_bounds_every_entry float64
                          (reference_kernels float64) reference_tables_instance
                          (reference_spline float64) Example.tau_grid Example.k
                          Example.r Example.q Example.sigma
                          (Float.of_Z float64 10) Example.num_points
                          (false, Example.initial) c new change E Ec
                          ltac:(repeat constructor) ltac:(discriminate))
                   eq_refl)
      end
  end.
Defined.

(** X20.  A strike vector of length 1 is broadcast: for a batch of [m]
    options it gives the same results as the strike repeated [m] times, in
    [boundary_numerator] and [boundary_denominator] for every
    shape-preserving callable, and in [exercise_boundary]. *)
Theorem scalar_strike_is_broadcast (dt : DType) (K : MathKernels dt)
        (G : GaussConstants) (S : SplineLib) (m n : nat) (tau_grid : T2)
        (k0 : F) (r q sigma : T1) (max_depth : nat) (tolerance : F)
        (integration_num_points : nat) :
  (1 <= m)%nat -> (2 <= n)%nat -> has_shape2 m n tau_grid ->
  has_shape1 m r -> has_shape1 m q -> has_shape1 m sigma ->
  legendre_roots integration_num_points <> None ->
  (forall b, shape_preserving m b ->
     boundary_numerator dt tau_grid b [k0] r q sigma integration_num_points
     = boundary_numerator dt tau_grid b (repeat k0 m) r q sigma
         integration_num_points /\
     boundary_denominator dt tau_grid b [k0] r q sigma integration_num_points
     = boundary_denominator dt tau_grid b (repeat k0 m) r q sigma
         integration_num_points) /\
  exercise_boundary dt tau_grid [k0] r q sigma max_depth tolerance
    integration_num_points
  = exercise_boundary dt tau_grid (repeat k0 m) r q sigma max_depth tolerance
      integration_num_points.
Proof.
  intros Hm Hn St Sr Sq Ss Hp. split.
  - intros b Sb. split.
    + apply boundary_numerator_scalar_strike with (n := n); auto; lia.
    + apply boundary_denominator_scalar_strike with (n := n); auto; lia.
  - assert (Hv : valid_shapes m n tau_grid (repeat k0 m) r q sigma)
      by (pose proof (repeat_shape1 k0 m); unfold valid_shapes; tauto).
    destruct (initial_guess_shape dt m n tau_grid (repeat k0 m) r q sigma Hv)
      as (initial & Ei & Si).
    apply bind_ok in Ei. destruct Ei as (t & Et & Es).
    unfold exercise_boundary. cbv zeta.
    rewrite (b_0_scalar_strike dt m n tau_grid k0 r q Hm St), Et. cbn [bind].
    rewrite Es. cbn [bind].
    rewrite (while_loop_ext (fun s => has_shape2 m n (snd s)) cond
               (body dt tau_grid [k0] r q sigma tolerance integration_num_points)
               (body dt tau_grid (repeat k0 m) r q sigma tolerance
                     integration_num_points)); [reflexivity | | | exact Si].
    + intros s Hs.
      apply body_scalar_strike with (m := m) (n := n); auto.
    + intros s s' Hs Eb.
      destruct (body_shape dt m n tau_grid (repeat k0 m) r q sigma tolerance
                  integration_num_points Hv Hp s Hs) as (s'' & E' & S').
      congruence.
Qed.

Lemma scalar_strike_is_broadcast_witness :
  exercise_boundary float64 (K := reference_kernels float64)
    (G := reference_tables_instance) (S := reference_spline float64)
    Example.tau_grid [Float.of_Z float64 100] Example.r Example.q
    Example.sigma 2 Example.tolerance Example.num_points
  = exercise_boundary float64 (K := reference_kernels float64)
      (G := reference_tables_instance) (S := reference_spline float64)
      Example.tau_grid Example.k Example.r Example.q
      Example.sigma 2 Example.tolerance Example.num_points.
Proof.
  apply (proj2 (scalar_strike_is_broadcast float64 (reference_kernels float64)
                  reference_tables_instance (reference_spline float64) 2 3
                  Example.tau_grid (Float.of_Z float64 100) Example.r
                  Example.q Example.sigma 2 Example.tolerance
                  Example.num_points ltac:(lia) ltac:(lia)
                  (proj1 (proj2 (proj2 example_valid_shapes)))
                  eq_refl eq_refl eq_refl example_num_points)).
Defined.
